(** * PDFProTool: the page view widget of [pdf_viewer.py]

    A shallow embedding of [PDFViewWidget] and of the module-level helpers of
    [src/pdf_viewer.py], followed by the properties of the render cache, the
    layout engine, the zoom controller, the interaction modes, the stamp
    resize, the character wrap and the line-text reconstruction.

    Conventions of the embedding.
    - A Python [float] is an exact rational ([Q]); a Python [int] is a [Z].
      Float comparison [==] is [Qeq]; where a float is part of a dictionary
      key it is kept in canonical form ([Qc]), so that Python's equality of
      keys is Leibniz equality of the model.
    - Where a property depends on how float arithmetic rounds (the aspect
      ratio of a resized stamp, the space threshold of a line of text), the
      computation is embedded in [Rounded] with the rounding written out:
      every float operation is the exact operation followed by a rounding
      function [rnd].  At the identity these are the exact definitions, and
      [Rounding.round_binary64] is the rounding of IEEE 754 binary64.
    - A Python [str] is the list of its code points.
    - A method of the widget is a function from the widget's fields to the
      widget's fields.  Repaint requests ([self.update()]), cursor changes and
      Qt signals are not fields and are left out of the state. *)

From Stdlib Require Import QArith Qcanon Qround Qabs Qpower Lqa ZArith NArith.
From Stdlib Require Import List Lia Bool Arith Sorted.
From Stdlib Require String Ascii.
From Equations Require Import Equations.
Import ListNotations.

(** ** Python built-ins *)

Module Py.

(** [int(x)] on a float: truncation toward zero. *)
Definition py_int (x : Q) : Z := Z.quot (Qnum x) (Zpos (Qden x)).

(** [max(a, b)] and [min(a, b)]: the first argument wins a tie. *)
Definition py_max (a b : Q) : Q := if Qlt_le_dec a b then b else a.
Definition py_min (a b : Q) : Q := if Qlt_le_dec b a then b else a.

(** Strict comparisons as booleans. *)
Definition Qltb (a b : Q) : bool := if Qlt_le_dec a b then true else false.
Definition Qgtb (a b : Q) : bool := Qltb b a.

(** Rounding to the nearest integer, ties to even: the rounding of
    [round(x, ndigits)]. *)
Definition round_half_even (x : Q) : Z :=
  let f := Qfloor x in
  match Qcompare (x - inject_Z f) (1 # 2) with
  | Lt => f
  | Gt => (f + 1)%Z
  | Eq => if Z.even f then f else (f + 1)%Z
  end.

(** [round(x, 3)]. *)
Definition py_round3 (x : Q) : Q := inject_Z (round_half_even (x * 1000)) / 1000.

(** A [str] is the list of its code points; [ord] is the identity. *)
Definition char := N.
Definition str := list char.

Definition newline : char := 10%N.
Definition space : char := 32%N.

(** [s.split("\n")]: always at least one piece. *)
Fixpoint split_lines (s : str) : list str :=
  match s with
  | [] => [[]]
  | c :: rest =>
      if N.eqb c newline then [] :: split_lines rest
      else match split_lines rest with
           | [] => [[c]]
           | l :: ls => (c :: l) :: ls
           end
  end.

(** ["\n".join(lines)]. *)
Fixpoint join_lines (ls : list str) : str :=
  match ls with
  | [] => []
  | [l] => l
  | l :: rest => l ++ newline :: join_lines rest
  end.

(** ["".join(parts)]. *)
Definition join_empty (parts : list str) : str := concat parts.

(** [c.isspace()]: the code points Python's [str.strip()] removes. *)
Definition isspace (c : char) : bool :=
  ((9 <=? c) && (c <=? 13) || (28 <=? c) && (c <=? 32) || (c =? 133) || (c =? 160)
   || (c =? 5760) || (8192 <=? c) && (c <=? 8202) || (c =? 8232) || (c =? 8233)
   || (c =? 8239) || (c =? 8287) || (c =? 12288))%N.

Fixpoint lstrip (s : str) : str :=
  match s with
  | c :: rest => if isspace c then lstrip rest else s
  | [] => []
  end.

Definition rstrip (s : str) : str := rev (lstrip (rev s)).

(** [s.strip()]. *)
Definition strip (s : str) : str := rstrip (lstrip s).

(** Truth value of a [str]: false when empty. *)
Definition str_truthy (s : str) : bool := match s with [] => false | _ => true end.

(** [a == b] on strings. *)
Definition str_eqb (a b : str) : bool := if list_eq_dec N.eq_dec a b then true else false.

(** Removing every line break: the text content of a string. *)
Definition without_newlines (s : str) : str :=
  filter (fun c => negb (N.eqb c newline)) s.

End Py.

(** ** Float arithmetic with its rounding *)

Module Rounding.

Import Py.

Section Operations.

(** [rnd] maps the exact result of an operation to the float that is stored. *)
Variable rnd : Q -> Q.

Definition add (a b : Q) : Q := rnd (a + b).
Definition sub (a b : Q) : Q := rnd (a - b).
Definition mul (a b : Q) : Q := rnd (a * b).
Definition div (a b : Q) : Q := rnd (a / b).

End Operations.

(** Half the distance between 1 and the next binary64 number: 2 ^ -53. *)
Definition unit_roundoff : Q := 1 # 9007199254740992.

(** [floor(log2(x))] for a positive [x]. *)
Definition floor_log2 (x : Q) : Z :=
  let l := (Z.log2 (Qnum x) - Z.log2 (Zpos (Qden x)))%Z in
  if Qle_bool (2 ^ l) x then l else (l - 1)%Z.

(** Rounding to the nearest number with a 53-bit significand, ties to the
    even significand: the rounding of binary64 for every result in its normal
    range (no overflow, no subnormal number). *)
Definition round_binary64 (x : Q) : Q :=
  if Qeq_bool x 0 then 0
  else
    let e := (floor_log2 (Qabs x) - 52)%Z in
    let m := round_half_even (Qabs x / 2 ^ e) in
    (if Qle_bool 0 x then 1 else -1) * (inject_Z m * 2 ^ e).

End Rounding.

(** ** PyMuPDF geometry *)

Module Fitz.

(** [fitz.Rect]: corner coordinates. *)
Record Rect := mkRect { x0 : Q; y0 : Q; x1 : Q; y1 : Q }.

(** [Rect.width] and [Rect.height], which PyMuPDF documents as
    [max(x1 - x0, 0)] and [max(y1 - y0, 0)]. *)
Definition width (r : Rect) : Q := Py.py_max 0 (x1 r - x0 r).
Definition height (r : Rect) : Q := Py.py_max 0 (y1 r - y0 r).

(** [QPointF] and [fitz.Point]. *)
Record Point := mkPoint { px : Q; py : Q }.

End Fitz.

(** ** [collections.OrderedDict] *)

Module OrderedDict.

Section Dict.
Context {K V : Type} (eqb : K -> K -> bool).

(** Entries from the oldest position to the newest. *)
Definition t := list (K * V).

Definition keys (d : t) : list K := map fst d.

(** [key in d]. *)
Definition contains (k : K) (d : t) : bool := existsb (fun e => eqb k (fst e)) d.

(** [d[key]], [None] for a [KeyError]. *)
Fixpoint get (k : K) (d : t) : option V :=
  match d with
  | [] => None
  | (k', v) :: rest => if eqb k k' then Some v else get k rest
  end.

(** [d[key] = value]: a key already present keeps its position, a new key goes
    to the end. *)
Fixpoint set_item (k : K) (v : V) (d : t) : t :=
  match d with
  | [] => [(k, v)]
  | (k', v') :: rest =>
      if eqb k k' then (k', v) :: rest else (k', v') :: set_item k v rest
  end.

(** [del d[key]]. *)
Definition del_item (k : K) (d : t) : t :=
  filter (fun e => negb (eqb k (fst e))) d.

(** [d.move_to_end(key)].  The widget only calls it on a key that is present;
    on an absent key the dictionary is left as it is. *)
Definition move_to_end (k : K) (d : t) : t :=
  match get k d with
  | Some v => del_item k d ++ [(k, v)]
  | None => d
  end.

(** [d.popitem(last=False)]: drops the entry at the oldest position. *)
Definition popitem_first (d : t) : t := tl d.

(** [while len(d) > cap: d.popitem(last=False)]. *)
Fixpoint enforce_limit (cap : nat) (d : t) : t :=
  match d with
  | [] => []
  | _ :: rest => if (cap <? length d)%nat then enforce_limit cap rest else d
  end.

End Dict.

End OrderedDict.

(** ** The widget's data *)

Module Viewer.

Import Py Fitz.

(** [PAGE_GAP]: pixels between pages. *)
Definition PAGE_GAP : Z := 16.

(** The interaction modes. *)
Inductive Mode := MODE_NORMAL | MODE_TEXT_PLACEMENT | MODE_CROP | MODE_TEXT_EDIT.

(** A rendered image: [QImage] as the worker emits it, [QPixmap] as the cache
    keeps it.  [pixels] stands for the raster. *)
Record QImage := mkImage { isNull : bool; pixels : Z; devicePixelRatio : Q }.

Record QPixmap := mkPixmap {
  pm_pixels : Z;
  pm_devicePixelRatio : Q;
  pm_size : option (Z * Z)   (* set by [scaled(w, h)] *)
}.

(** [QPixmap.fromImage(image)] followed by [setDevicePixelRatio]. *)
Definition pixmap_of_image (image : QImage) : QPixmap :=
  mkPixmap (pixels image) (devicePixelRatio image) None.

(** [pixmap.scaled(target_w, target_h, ...)]. *)
Definition scaled (target_w target_h : Z) (p : QPixmap) : QPixmap :=
  mkPixmap (pm_pixels p) (pm_devicePixelRatio p) (Some (target_w, target_h)).

(** A cache key: [(page_index, round(zoom, 3))]. *)
Definition Key := (Z * Qc)%type.

Definition Qc_eqb (a b : Qc) : bool := Qeq_bool a b.

(** Python's [==] on keys. *)
Definition key_eqb (a b : Key) : bool := Z.eqb (fst a) (fst b) && Qc_eqb (snd a) (snd b).

Definition make_key (page_index : Z) (zoom : Q) : Key := (page_index, Q2Qc (py_round3 zoom)).

Definition Cache := @OrderedDict.t Key QPixmap.

(** A set of keys ([set[tuple[int, float]]]). *)
Definition KeySet := list Key.
Definition set_mem (k : Key) (s : KeySet) : bool := existsb (key_eqb k) s.
Definition set_add (k : Key) (s : KeySet) : KeySet := if set_mem k s then s else k :: s.
Definition set_remove (k : Key) (s : KeySet) : KeySet := filter (fun k' => negb (key_eqb k k')) s.

(** What [page.draw_rect], [page.insert_text] and [page.insert_image] add to a
    page. *)
Definition Color := (Q * Q * Q)%type.

Record FontArgs := mkFontArgs { fontname : str; fontfile : option str }.

Inductive ContentOp :=
| DrawRect (rect : Rect) (fill : Color)
| InsertText (at_point : Point) (text : str) (fontsize : Q) (color : Color) (font : FontArgs)
| InsertImage (rect : Rect) (filename : str).

(** A page: its rectangle and what has been drawn over its original content.
    Annotations stay in the PDF engine's object model and are not part of it. *)
Record Page := mkPage { page_rect : Rect; drawn : list ContentOp }.

Definition Document := list Page.

Definition page_count (d : Document) : Z := Z.of_nat (length d).

(** A line of native text as [_get_text_lines_for_page] records it. *)
Record LineInfo := mkLineInfo {
  line_text : str;
  line_bbox : Rect;
  line_font : str;
  line_size : Q;
  line_color : Z;
  line_origin : Q * Q;
  line_first_char_x : option Q
}.

(** The [QLineEdit] of a native text edit, with the text typed so far. *)
Record QLineEdit := mkLineEdit { editor_text : str }.

(** A text style ([config: dict]); [{}] has no entry. *)
Record TextConfig := mkTextConfig {
  cfg_text : option str;
  cfg_font_name : option str;
  cfg_font_size : option Q;
  cfg_color : option Color
}.

Definition empty_config : TextConfig := mkTextConfig None None None None.

(** An overlay stamp ([dict] with [id], [page], [rect], [path], [selected]). *)
Record Stamp := mkStamp {
  stamp_id : Z;
  stamp_page : Z;
  stamp_rect : Rect;
  stamp_path : str;
  stamp_selected : bool
}.

(** What is being dragged: an annotation of the engine (by xref) or a stamp of
    [_overlay_stamps] (the dictionary object itself, named here by its id). *)
Inductive DragTarget := DragAnnot (xref : Z) | DragStamp (id : Z).

(** The fields of [PDFViewWidget], grouped. *)
Record DocState := mkDocState {
  _doc : option Document;
  _file_path : str;
  _doc_bytes_snapshot : option Document;
  _page_rects : list Rect
}.

Record Layout := mkLayout {
  _page_offsets : list Z;
  _page_heights : list Z;
  widget_width : Z           (* [self.width()], kept by Qt *)
}.

Record ZoomState := mkZoomState {
  _zoom : Q;
  _visual_zoom : Q;
  _zoom_target : Q;
  _is_zooming : bool;
  _zoom_timer : option Z;         (* single shot, [Some ms] while running *)
  _zoom_settle_timer : option Z;  (* single shot *)
  _lerp_timer : bool              (* repeating, 16 ms *)
}.

Record RenderState := mkRenderState {
  _render_cache : Cache;
  _low_res_cache : Cache;
  _pending_renders : KeySet
}.

Record ModeState := mkModeState {
  mode : Mode;
  pending_text_config : TextConfig;
  _crop_start_pos : option Point;
  _crop_current_pos : option Point;
  _crop_callback : option Z       (* the callable, by name *)
}.

Record TextEdit := mkTextEdit {
  _text_edit_lines_cache : list (Z * list LineInfo);
  _text_edit_hover_line : option LineInfo;
  _text_edit_hover_page : Z;
  _text_edit_widget : option QLineEdit;
  _text_edit_line_info : option LineInfo;
  _text_edit_page : Z
}.

Record Selection := mkSelection {
  _selected_annot : option Z;
  _selected_page : Z;
  _overlay_stamps : list Stamp;
  _drag_annot : option DragTarget;
  _drag_page : Z;
  _drag_start : Point;
  _orig_rect : option Rect;
  _is_resizing : bool;
  _resize_corner : Z;
  _resize_anchor : Point
}.

Record Widget := mkWidget {
  docs : DocState;
  layout : Layout;
  zs : ZoomState;
  rs : RenderState;
  ms : ModeState;
  te : TextEdit;
  sel : Selection
}.

Definition with_docs (x : DocState) (w : Widget) : Widget :=
  mkWidget x (layout w) (zs w) (rs w) (ms w) (te w) (sel w).
Definition with_layout (x : Layout) (w : Widget) : Widget :=
  mkWidget (docs w) x (zs w) (rs w) (ms w) (te w) (sel w).
Definition with_zs (x : ZoomState) (w : Widget) : Widget :=
  mkWidget (docs w) (layout w) x (rs w) (ms w) (te w) (sel w).
Definition with_rs (x : RenderState) (w : Widget) : Widget :=
  mkWidget (docs w) (layout w) (zs w) x (ms w) (te w) (sel w).
Definition with_ms (x : ModeState) (w : Widget) : Widget :=
  mkWidget (docs w) (layout w) (zs w) (rs w) x (te w) (sel w).
Definition with_te (x : TextEdit) (w : Widget) : Widget :=
  mkWidget (docs w) (layout w) (zs w) (rs w) (ms w) x (sel w).
Definition with_sel (x : Selection) (w : Widget) : Widget :=
  mkWidget (docs w) (layout w) (zs w) (rs w) (ms w) (te w) x.

(** [__init__]. *)
Definition init : Widget :=
  mkWidget
    (mkDocState None [] None [])
    (mkLayout [] [] 0)
    (mkZoomState 1.0 1.0 1.0 false None None false)
    (mkRenderState [] [] [])
    (mkModeState MODE_NORMAL empty_config None None None)
    (mkTextEdit [] None (-1) None None (-1))
    (mkSelection None (-1) [] None (-1) (mkPoint 0 0) None false (-1) (mkPoint 0 0)).

(** Truth value of [self._doc]: a document is false when absent, and, having a
    length, when it has no page. *)
Definition doc_truthy (d : option Document) : bool :=
  match d with
  | Some (_ :: _) => true
  | _ => false
  end.

Definition opt_truthy {A} (o : option A) : bool := match o with Some _ => true | None => false end.

(** ** Layout *)

(** The loop of [_recalculate_layout]: offsets and heights of the pages from
    [y] downwards. *)
Fixpoint layout_loop (zoom : Q) (y : Z) (rects : list Rect) : list Z * list Z :=
  match rects with
  | [] => ([], [])
  | rect :: rest =>
      let h := py_int (height rect * zoom) in
      let '(offsets, heights) := layout_loop zoom (y + (h + PAGE_GAP)) rest in
      (y :: offsets, h :: heights)
  end.

(** [_recalculate_layout]: both lists are cleared, then refilled when a
    document is set. *)
Definition _recalculate_layout (w : Widget) : Widget :=
  if negb (doc_truthy (_doc (docs w))) then
    with_layout (mkLayout [] [] (widget_width (layout w))) w
  else
    let '(offsets, heights) := layout_loop (_zoom (zs w)) PAGE_GAP (_page_rects (docs w)) in
    with_layout (mkLayout offsets heights (widget_width (layout w))) w.

(** [bisect.bisect_right(a, x)]: the loop of the standard library,
    [while lo < hi: mid = (lo + hi) // 2; if x < a[mid]: hi = mid else: lo = mid + 1]. *)
Equations? bisect_loop (a : list Z) (x : Z) (lo hi : nat) : nat by wf (hi - lo)%nat lt :=
  bisect_loop a x lo hi with lt_dec lo hi => {
    | left _ =>
        if (x <? nth ((lo + hi) / 2)%nat a 0)%Z
        then bisect_loop a x lo ((lo + hi) / 2)%nat
        else bisect_loop a x (S ((lo + hi) / 2)%nat) hi;
    | right _ => lo }.
Proof.
  all: change (fst (Nat.divmod (lo + hi) 1 0 1)) with ((lo + hi) / 2)%nat.
  all: pose proof (Nat.div_mod_eq (lo + hi) 2);
    pose proof (Nat.mod_upper_bound (lo + hi) 2); lia.
Qed.

Definition bisect_right (a : list Z) (x : Z) : nat := bisect_loop a x 0 (length a).

(** [page_at_y]. *)
Definition page_at_y (w : Widget) (y : Z) : Z :=
  match _page_offsets (layout w) with
  | [] => 0%Z
  | offsets =>
      let idx := (Z.of_nat (bisect_right offsets y) - 1)%Z in
      Z.max 0 (Z.min idx (Z.of_nat (length offsets) - 1))
  end.

(** [set_document]. *)
Definition set_document (doc : option Document) (file_path : str) (keep_snapshot : bool)
    (w : Widget) : Widget :=
  let snapshot := if keep_snapshot then _doc_bytes_snapshot (docs w) else None in
  let rects := if doc_truthy doc
               then match doc with Some d => map page_rect d | None => [] end
               else [] in
  let w := with_docs (mkDocState doc file_path snapshot rects) w in
  let w := with_rs (mkRenderState [] [] (_pending_renders (rs w))) w in
  let s := sel w in
  let w := with_sel (mkSelection None (-1) [] (_drag_annot s) (_drag_page s) (_drag_start s)
                       (_orig_rect s) (_is_resizing s) (_resize_corner s) (_resize_anchor s)) w in
  _recalculate_layout w.

(** ** Zoom *)

(** The limits of the zoom factor. *)
Definition clamp_zoom (z : Q) : Q := py_max 0.1 (py_min z 8.0).

(** [set_zoom]. *)
Definition set_zoom (z : Q) (w : Widget) : Widget :=
  let z := clamp_zoom z in
  let s := zs w in
  if Qltb (Qabs (z - _zoom s)) 0.001 then w
  else
    let w := with_zs (mkZoomState z z z true (_zoom_timer s) (_zoom_settle_timer s)
                        (_lerp_timer s)) w in
    let w := _recalculate_layout w in
    let s := zs w in
    with_zs (mkZoomState (_zoom s) (_visual_zoom s) (_zoom_target s) (_is_zooming s)
               (Some 100%Z) (_zoom_settle_timer s) (_lerp_timer s)) w.

(** [_on_zoom_finished]: the commit after the debounce.  The scroll bar is
    Qt's and is not part of the state. *)
Definition _on_zoom_finished (w : Widget) : Widget :=
  let s := zs w in
  let w :=
    if Qgtb (Qabs (_zoom_target s - _zoom s)) 0.001 then
      let z := py_round3 (_zoom_target s) in
      _recalculate_layout
        (with_zs (mkZoomState z z (_zoom_target s) (_is_zooming s) (_zoom_timer s)
                    (_zoom_settle_timer s) false) w)
    else w in
  let w := with_rs (mkRenderState (_render_cache (rs w)) (_low_res_cache (rs w)) []) w in
  let s := zs w in
  with_zs (mkZoomState (_zoom s) (_visual_zoom s) (_zoom_target s) (_is_zooming s)
             (_zoom_timer s) (Some 250%Z) (_lerp_timer s)) w.

(** [_lerp_zoom]: one tick of the animation. *)
Definition _lerp_zoom (w : Widget) : Widget :=
  let s := zs w in
  let diff := _zoom_target s - _visual_zoom s in
  if Qltb (Qabs diff) 0.0005 then
    with_zs (mkZoomState (_zoom s) (_zoom_target s) (_zoom_target s) (_is_zooming s)
               (_zoom_timer s) (_zoom_settle_timer s) false) w
  else
    with_zs (mkZoomState (_zoom s) (_visual_zoom s + diff * 0.22) (_zoom_target s)
               (_is_zooming s) (_zoom_timer s) (_zoom_settle_timer s) (_lerp_timer s)) w.

(** [_on_zoom_settled]. *)
Definition _on_zoom_settled (w : Widget) : Widget :=
  let s := zs w in
  with_zs (mkZoomState (_zoom s) (_visual_zoom s) (_zoom_target s) false
             (_zoom_timer s) (_zoom_settle_timer s) (_lerp_timer s)) w.

(** [wheelEvent]: [ctrl] is the Control modifier, [pixel_y] and [angle_y] the
    event's [pixelDelta().y()] and [angleDelta().y()].  The snapshot of the
    scroll position taken at the first event of a gesture is Qt state and is
    left out. *)
Definition wheelEvent (ctrl : bool) (pixel_y angle_y : Z) (w : Widget) : Widget :=
  if ctrl then
    let factor :=
      if negb (pixel_y =? 0)%Z then 1.0 + inject_Z pixel_y * 0.004
      else 1.0 + (inject_Z angle_y / 120.0) * 0.07 in
    let s := zs w in
    let target := clamp_zoom (_zoom_target s * factor) in
    with_zs (mkZoomState (_zoom s) (_visual_zoom s) target true
               (Some 150%Z) (_zoom_settle_timer s) true) w
  else w.

(** ** Render cache *)

(** [_start_render_task]: the key becomes pending and a worker is queued; the
    worker's results come back later as calls of [_on_render_finished]. *)
Definition _start_render_task (page_index : Z) (key : Key) (w : Widget) : Widget :=
  let d := docs w in
  if negb (doc_truthy (_doc d))
     || (negb (str_truthy (_file_path d)) && negb (opt_truthy (_doc_bytes_snapshot d)))
  then w
  else
    let r := rs w in
    with_rs (mkRenderState (_render_cache r) (_low_res_cache r)
               (set_add key (_pending_renders r))) w.

(** [_get_page_pixmap]: what is painted for the page, and the widget after the
    call. *)
Definition _get_page_pixmap (page_index target_w target_h : Z) (w : Widget)
    : option QPixmap * Widget :=
  let key := make_key page_index (_zoom (zs w)) in
  let r := rs w in
  if OrderedDict.contains key_eqb key (_render_cache r) then
    let cache := OrderedDict.move_to_end key_eqb key (_render_cache r) in
    (OrderedDict.get key_eqb key cache,
     with_rs (mkRenderState cache (_low_res_cache r) (_pending_renders r)) w)
  else
    let w := if negb (set_mem key (_pending_renders r))
             then _start_render_task page_index key w else w in
    match OrderedDict.get key_eqb key (_low_res_cache r) with
    | Some low => (Some (scaled target_w target_h low), w)
    | None =>
        if _is_zooming (zs w) then
          match rev (filter (fun e => Z.eqb (fst (fst e)) page_index) (_render_cache r)) with
          | (_, best_pixmap) :: _ => (Some (scaled target_w target_h best_pixmap), w)
          | [] => (None, w)
          end
        else (None, w)
    end.

(** [_on_render_finished]: the delivery of a worker's result. *)
Definition _on_render_finished (image : QImage) (is_high_res : bool) (page_index : Z)
    (key : Key) (w : Widget) : Widget :=
  let r := rs w in
  let pending :=
    if is_high_res && set_mem key (_pending_renders r)
    then set_remove key (_pending_renders r) else _pending_renders r in
  let w := with_rs (mkRenderState (_render_cache r) (_low_res_cache r) pending) w in
  let current_key := make_key page_index (_zoom (zs w)) in
  if negb (key_eqb key current_key) then w
  else if negb (isNull image) then
    let pixmap := pixmap_of_image image in
    if is_high_res then
      let hi := OrderedDict.set_item key_eqb key pixmap (_render_cache r) in
      let hi := OrderedDict.move_to_end key_eqb key hi in
      let lo := if OrderedDict.contains key_eqb key (_low_res_cache r)
                then OrderedDict.del_item key_eqb key (_low_res_cache r)
                else _low_res_cache r in
      let hi := OrderedDict.enforce_limit 30 hi in
      with_rs (mkRenderState hi lo pending) w
    else
      let lo := OrderedDict.set_item key_eqb key pixmap (_low_res_cache r) in
      let lo := OrderedDict.enforce_limit 150 lo in
      with_rs (mkRenderState (_render_cache r) lo pending) w
  else w.

(** [_is_render_valid]: the worker's own check between its two passes. *)
Definition _is_render_valid (page_index : Z) (zoom : Q) (w : Widget) : bool :=
  Qltb (Qabs (_zoom (zs w) - zoom)) 0.001.

(** [_invalidate_page]. *)
Definition _invalidate_page (page_index : Z) (w : Widget) : Widget :=
  let r := rs w in
  let other := fun e : Key * QPixmap => negb (Z.eqb (fst (fst e)) page_index) in
  with_rs (mkRenderState (filter other (_render_cache r)) (filter other (_low_res_cache r))
             (_pending_renders r)) w.

(** [invalidate_all_pages]. *)
Definition invalidate_all_pages (w : Widget) : Widget :=
  let r := rs w in
  with_rs (mkRenderState [] (_low_res_cache r) (_pending_renders r)) w.

(** [_snapshot_doc_bytes]: [tobytes()] freezes the document as it is now. *)
Definition _snapshot_doc_bytes (w : Widget) : Widget :=
  let d := docs w in
  if doc_truthy (_doc d)
  then with_docs (mkDocState (_doc d) (_file_path d) (_doc d) (_page_rects d)) w
  else w.

(** ** Native text edit and the interaction modes *)

(** What the widget obtains from outside itself during a commit: the font the
    resolution settles on ([_extract_embedded_font], else [_map_to_fitz_font],
    which read the document's fonts and the system's font files), the colour
    [_sample_background_color] reads, and whether a call of the PDF engine
    returns ([true]) or raises ([false]). *)
Record Env := mkEnv {
  resolve_font : Page -> str -> str -> FontArgs;
  sample_background : Page -> Rect -> Color;
  engine_accepts : Page -> ContentOp -> bool
}.

(** [doc[page_index]] for an index below [page_count]: the engine counts a
    negative index from the end. *)
Definition page_slot (d : Document) (page_index : Z) : nat :=
  Z.to_nat (page_index mod page_count d).

Fixpoint replace_nth {A} (n : nat) (x : A) (l : list A) : list A :=
  match l, n with
  | [], _ => []
  | _ :: rest, O => x :: rest
  | y :: rest, S n' => y :: replace_nth n' x rest
  end.

Definition add_op (op : ContentOp) (p : Page) : Page :=
  mkPage (page_rect p) (drawn p ++ [op]).

(** The channels of a colour integer, each over 255. *)
Definition color_of_int (color_int : Z) : Color :=
  (inject_Z (Z.land (Z.shiftr color_int 16) 255) / 255.0,
   inject_Z (Z.land (Z.shiftr color_int 8) 255) / 255.0,
   inject_Z (Z.land color_int 255) / 255.0).

(** The [try] block of [_commit_text_edit]: cover the old line, insert the new
    text.  A call the engine refuses raises; what was drawn before stays. *)
Definition rewrite_line (env : Env) (d : Document) (page_index : Z) (li : LineInfo)
    (new_text : str) : Document :=
  match nth_error d (page_slot d page_index) with
  | None => d
  | Some page =>
      let bbox := line_bbox li in
      let font_kwargs := resolve_font env page (line_font li) new_text in
      let bg_color := sample_background env page bbox in
      let cover_rect := mkRect (x0 bbox - 1) (y0 bbox - 1) (x1 bbox + 1) (y1 bbox + 1) in
      let cover := DrawRect cover_rect bg_color in
      if engine_accepts env page cover then
        let page1 := add_op cover page in
        let insert_x := match line_first_char_x li with
                        | Some fx => fx
                        | None => fst (line_origin li)
                        end in
        let insert := InsertText (mkPoint insert_x (snd (line_origin li))) new_text
                        (line_size li) (color_of_int (line_color li)) font_kwargs in
        if engine_accepts env page1 insert
        then replace_nth (page_slot d page_index) (add_op insert page1) d
        else replace_nth (page_slot d page_index) page1 d
      else d
  end.

(** [_commit_text_edit]. *)
Definition _commit_text_edit (env : Env) (w : Widget) : Widget :=
  let t := te w in
  match _text_edit_widget t with
  | None => w
  | Some widget =>
      let line_info := _text_edit_line_info t in
      let page_index := _text_edit_page t in
      let w := with_te (mkTextEdit (_text_edit_lines_cache t) (_text_edit_hover_line t)
                          (_text_edit_hover_page t) None None (-1)) w in
      match line_info with
      | None => w
      | Some li =>
          let new_text := editor_text widget in
          let old_text := line_text li in
          if str_eqb new_text old_text || negb (str_truthy (strip new_text)) then w
          else
            match _doc (docs w) with
            | Some ((_ :: _) as d) =>
                if (page_count d <=? page_index)%Z then w
                else
                  let d' := rewrite_line env d page_index li new_text in
                  let dd := docs w in
                  let w := with_docs (mkDocState (Some d') (_file_path dd)
                                        (_doc_bytes_snapshot dd) (_page_rects dd)) w in
                  let w := _snapshot_doc_bytes w in
                  let t := te w in
                  let w := with_te (mkTextEdit
                                      (filter (fun e => negb (Z.eqb (fst e) page_index))
                                         (_text_edit_lines_cache t))
                                      (_text_edit_hover_line t) (_text_edit_hover_page t)
                                      (_text_edit_widget t) (_text_edit_line_info t)
                                      (_text_edit_page t)) w in
                  _invalidate_page page_index w
            | _ => w
            end
      end
  end.

(** [_exit_current_mode]. *)
Definition _exit_current_mode (env : Env) (w : Widget) : Widget :=
  match mode (ms w) with
  | MODE_NORMAL => w
  | m =>
      let w :=
        match m with
        | MODE_TEXT_EDIT =>
            let w := if opt_truthy (_text_edit_widget (te w))
                     then _commit_text_edit env w else w in
            let t := te w in
            with_te (mkTextEdit [] None (-1) (_text_edit_widget t) (_text_edit_line_info t)
                       (_text_edit_page t)) w
        | MODE_TEXT_PLACEMENT =>
            let s := ms w in
            with_ms (mkModeState (mode s) empty_config (_crop_start_pos s)
                       (_crop_current_pos s) (_crop_callback s)) w
        | MODE_CROP =>
            let s := ms w in
            with_ms (mkModeState (mode s) (pending_text_config s) None None None) w
        | MODE_NORMAL => w
        end in
      let s := ms w in
      with_ms (mkModeState MODE_NORMAL (pending_text_config s) (_crop_start_pos s)
                 (_crop_current_pos s) (_crop_callback s)) w
  end.

Definition clear_selection (w : Widget) : Widget :=
  let s := sel w in
  with_sel (mkSelection None (-1) (_overlay_stamps s) (_drag_annot s) (_drag_page s)
              (_drag_start s) (_orig_rect s) (_is_resizing s) (_resize_corner s)
              (_resize_anchor s)) w.

(** [enter_text_placement_mode]. *)
Definition enter_text_placement_mode (env : Env) (config : TextConfig) (w : Widget) : Widget :=
  let w := _exit_current_mode env w in
  let w := clear_selection w in
  let s := ms w in
  with_ms (mkModeState MODE_TEXT_PLACEMENT config (_crop_start_pos s)
             (_crop_current_pos s) (_crop_callback s)) w.

(** [enter_crop_mode]. *)
Definition enter_crop_mode (env : Env) (callback : Z) (w : Widget) : Widget :=
  let w := _exit_current_mode env w in
  let w := clear_selection w in
  let s := ms w in
  with_ms (mkModeState MODE_CROP (pending_text_config s) (_crop_start_pos s)
             (_crop_current_pos s) (Some callback)) w.

(** [enter_text_edit_mode]. *)
Definition enter_text_edit_mode (env : Env) (w : Widget) : Widget :=
  let w := _exit_current_mode env w in
  let w := clear_selection w in
  let s := ms w in
  let w := with_ms (mkModeState MODE_TEXT_EDIT (pending_text_config s) (_crop_start_pos s)
                      (_crop_current_pos s) (_crop_callback s)) w in
  let t := te w in
  with_te (mkTextEdit [] (_text_edit_hover_line t) (_text_edit_hover_page t)
             (_text_edit_widget t) (_text_edit_line_info t) (_text_edit_page t)) w.

(** ** Overlay stamps *)

(** One turn of the loop of [burn_overlay_stamps]: the stamp is drawn into its
    page; a call the engine refuses is skipped. *)
Definition burn_stamp (env : Env) (d : Document) (s : Stamp) : Document :=
  if (stamp_page s <? page_count d)%Z then
    match nth_error d (page_slot d (stamp_page s)) with
    | Some page =>
        let image := InsertImage (stamp_rect s) (stamp_path s) in
        if engine_accepts env page image
        then replace_nth (page_slot d (stamp_page s)) (add_op image page) d
        else d
    | None => d
    end
  else d.

(** [burn_overlay_stamps]. *)
Definition burn_overlay_stamps (env : Env) (w : Widget) : Widget :=
  match _doc (docs w) with
  | Some ((_ :: _) as d) =>
      let d' := fold_left (burn_stamp env) (_overlay_stamps (sel w)) d in
      let dd := docs w in
      let w := with_docs (mkDocState (Some d') (_file_path dd) (_doc_bytes_snapshot dd)
                            (_page_rects dd)) w in
      let s := sel w in
      let w := with_sel (mkSelection (_selected_annot s) (_selected_page s) [] (_drag_annot s)
                           (_drag_page s) (_drag_start s) (_orig_rect s) (_is_resizing s)
                           (_resize_corner s) (_resize_anchor s)) w in
      let r := rs w in
      with_rs (mkRenderState [] (_low_res_cache r) (_pending_renders r)) w
  | _ => w
  end.

(** ** Dragging and resizing an overlay stamp *)

(** [l[i]] on a Python list: a negative index counts from the end, an index out
    of range raises ([None]). *)
Definition py_index {A} (l : list A) (i : Z) : option A :=
  let n := Z.of_nat (length l) in
  if (0 <=? i)%Z then nth_error l (Z.to_nat i)
  else if (- n <=? i)%Z then nth_error l (Z.to_nat (n + i))
  else None.

(** Truth value of a [fitz.Rect]: false only when all four coordinates are 0. *)
Definition rect_truthy (r : Rect) : bool :=
  negb (Qeq_bool (x0 r) 0 && Qeq_bool (y0 r) 0 && Qeq_bool (x1 r) 0 && Qeq_bool (y1 r) 0).

(** [_page_x_offset]. *)
Definition _page_x_offset (page_index : Z) (w : Widget) : option Z :=
  let rects := _page_rects (docs w) in
  match rects with
  | [] => Some 0%Z
  | _ =>
      if (Z.of_nat (length rects) <=? page_index)%Z then Some 0%Z
      else
        match py_index rects page_index with
        | None => None
        | Some r =>
            let pw := py_int (width r * _zoom (zs w)) in
            let widget_w := widget_width (layout w) in
            if (widget_w - 20 <=? pw)%Z then Some 10%Z
            else Some ((widget_w - pw) / 2)%Z
        end
  end.

(** [_screen_to_page_coords]. *)
Definition _screen_to_page_coords (screen_pos : Point) (page_index : Z) (w : Widget)
    : option Point :=
  match _page_x_offset page_index w, py_index (_page_offsets (layout w)) page_index with
  | Some ox, Some oy =>
      Some (mkPoint ((px screen_pos - inject_Z ox) / _zoom (zs w))
                    ((py screen_pos - inject_Z oy) / _zoom (zs w)))
  | _, _ => None
  end.

(** The rectangle of the aspect-preserving resize: [anchor] is the corner
    opposite the dragged one, [p] the pointer, both in page coordinates.
    [None] when the original rectangle has no area (the stamp is left alone). *)
Definition stamp_resize_rect (orig : Rect) (anchor p : Point) (zoom : Q) : option Rect :=
  let orig_w := width orig in
  let orig_h := height orig in
  if Qgtb orig_w 0 && Qgtb orig_h 0 then
    let aspect := orig_w / orig_h in
    let dx := Qabs (px p - px anchor) in
    let dy := Qabs (py p - py anchor) in
    let '(new_w, new_h) :=
      if Qgtb (dx / aspect) dy
      then (py_max dx (20 / zoom), py_max dx (20 / zoom) / aspect)
      else (py_max dy (20 / zoom) * aspect, py_max dy (20 / zoom)) in
    let nx0 := if Qltb (px p) (px anchor) then px anchor - new_w else px anchor in
    let ny0 := if Qltb (py p) (py anchor) then py anchor - new_h else py anchor in
    Some (mkRect nx0 ny0 (nx0 + new_w) (ny0 + new_h))
  else None.

(** [stamp["rect"] = new_rect] on the dragged dictionary, which is an element
    of [_overlay_stamps]. *)
Definition set_stamp_rect (id : Z) (r : Rect) (stamps : list Stamp) : list Stamp :=
  map (fun s => if Z.eqb (stamp_id s) id
                then mkStamp (stamp_id s) (stamp_page s) r (stamp_path s) (stamp_selected s)
                else s) stamps.

Definition with_stamps (stamps : list Stamp) (w : Widget) : Widget :=
  let s := sel w in
  with_sel (mkSelection (_selected_annot s) (_selected_page s) stamps (_drag_annot s)
              (_drag_page s) (_drag_start s) (_orig_rect s) (_is_resizing s)
              (_resize_corner s) (_resize_anchor s)) w.

(** The corner opposite to corner [0=TL, 1=TR, 2=BR, 3=BL], as
    [mousePressEvent] stores it in [_resize_anchor]. *)
Definition opposite_corner (r : Rect) (corner : Z) : option Point :=
  py_index [mkPoint (x1 r) (y1 r); mkPoint (x0 r) (y1 r);
            mkPoint (x0 r) (y0 r); mkPoint (x1 r) (y0 r)] corner.

(** [mouseMoveEvent] in [MODE_NORMAL] while something is dragged (the block
    under [if self._drag_annot:]).  [None] is an [IndexError] of the coordinate
    conversion.  A dragged annotation is moved and redrawn inside the PDF
    engine, which touches no field of the widget. *)
Definition mouseMoveEvent_drag (pos : Point) (w : Widget) : option Widget :=
  let s := sel w in
  match _drag_annot s with
  | None => Some w
  | Some target =>
      match _screen_to_page_coords pos (_drag_page s) w with
      | None => None
      | Some page_pos =>
          match target, _orig_rect s with
          | DragAnnot _, _ => Some w
          | DragStamp id, Some orig =>
              if _is_resizing s && rect_truthy orig then
                match stamp_resize_rect orig (_resize_anchor s) page_pos (_zoom (zs w)) with
                | Some new_rect => Some (with_stamps (set_stamp_rect id new_rect (_overlay_stamps s)) w)
                | None => Some w
                end
              else if rect_truthy orig then
                let dx := px page_pos - px (_drag_start s) in
                let dy := py page_pos - py (_drag_start s) in
                let new_rect := mkRect (x0 orig + dx) (y0 orig + dy) (x1 orig + dx) (y1 orig + dy) in
                Some (with_stamps (set_stamp_rect id new_rect (_overlay_stamps s)) w)
              else Some w
          | DragStamp _, None => Some w
          end
      end
  end.

(** ** The events that reach the widget *)

Inductive Event :=
| EvSetDocument (doc : option Document) (file_path : str) (keep_snapshot : bool)
| EvSetZoom (z : Q)
| EvWheel (ctrl : bool) (pixel_y angle_y : Z)
| EvLerpTimer
| EvZoomTimer
| EvZoomSettleTimer
| EvPaintPage (page_index target_w target_h : Z)
| EvRenderFinished (image : QImage) (is_high_res : bool) (page_index : Z) (key : Key)
| EvInvalidatePage (page_index : Z)
| EvInvalidateAllPages
| EvBurnOverlayStamps
| EvEnterTextPlacement (config : TextConfig)
| EvEnterCrop (callback : Z)
| EvEnterTextEdit.

(** A single-shot timer stops when it fires; a timer that is not running does
    not fire. *)
Definition fire_zoom_timer (w : Widget) : Widget :=
  let s := zs w in
  match _zoom_timer s with
  | None => w
  | Some _ =>
      _on_zoom_finished
        (with_zs (mkZoomState (_zoom s) (_visual_zoom s) (_zoom_target s) (_is_zooming s)
                    None (_zoom_settle_timer s) (_lerp_timer s)) w)
  end.

Definition fire_settle_timer (w : Widget) : Widget :=
  let s := zs w in
  match _zoom_settle_timer s with
  | None => w
  | Some _ =>
      _on_zoom_settled
        (with_zs (mkZoomState (_zoom s) (_visual_zoom s) (_zoom_target s) (_is_zooming s)
                    (_zoom_timer s) None (_lerp_timer s)) w)
  end.

Definition fire_lerp_timer (w : Widget) : Widget :=
  if _lerp_timer (zs w) then _lerp_zoom w else w.

(** The event loop's dispatch. *)
Definition handle (env : Env) (e : Event) (w : Widget) : Widget :=
  match e with
  | EvSetDocument doc file_path keep => set_document doc file_path keep w
  | EvSetZoom z => set_zoom z w
  | EvWheel ctrl pixel_y angle_y => wheelEvent ctrl pixel_y angle_y w
  | EvLerpTimer => fire_lerp_timer w
  | EvZoomTimer => fire_zoom_timer w
  | EvZoomSettleTimer => fire_settle_timer w
  | EvPaintPage page_index target_w target_h => snd (_get_page_pixmap page_index target_w target_h w)
  | EvRenderFinished image is_high_res page_index key =>
      _on_render_finished image is_high_res page_index key w
  | EvInvalidatePage page_index => _invalidate_page page_index w
  | EvInvalidateAllPages => invalidate_all_pages w
  | EvBurnOverlayStamps => burn_overlay_stamps env w
  | EvEnterTextPlacement config => enter_text_placement_mode env config w
  | EvEnterCrop callback => enter_crop_mode env callback w
  | EvEnterTextEdit => enter_text_edit_mode env w
  end.

(** The widget after a sequence of events, oldest first. *)
Definition run (env : Env) (events : list Event) (w : Widget) : Widget :=
  fold_left (fun w e => handle env e w) events w.

End Viewer.

(** ** Character-level wrapping ([_char_wrap_text], [_fitz_char_wrap_text]) *)

Module TextWrap.

Import Py.

(** The Qt font families [_char_wrap_text] maps a PDF font name to. *)
Inductive Family := Helvetica | Courier | Times.

(** The glyph metrics the two functions ask for: PyMuPDF's
    [fitz.get_text_length(ch, fontname, fontsize)], the advance of [ch] in Qt's
    default font at a point size, and its advance in a named Qt family at a
    pixel size. *)
Record Metrics := mkMetrics {
  get_text_length : char -> str -> Q -> Q;
  qt_default_advance : Q -> char -> Q;
  qt_family_advance : Family -> Z -> char -> Q
}.

(** The inner loop both functions share: [cur] is the line being filled,
    [cur_w] its measured width, [limit] the width a line may reach. *)
Fixpoint wrap_chars (char_w : char -> Q) (limit : Q) (cur : str) (cur_w : Q) (line : str)
    : list str :=
  match line with
  | [] => if str_truthy cur then [cur] else []
  | ch :: rest =>
      let ch_w := char_w ch in
      if Qgtb (cur_w + ch_w) limit && str_truthy cur
      then cur :: wrap_chars char_w limit [ch] ch_w rest
      else wrap_chars char_w limit (cur ++ [ch]) (cur_w + ch_w) rest
  end.

(** The body of [for line in text.split("\n")]: an empty line is kept. *)
Definition wrap_line (char_w : char -> Q) (limit : Q) (line : str) : list str :=
  match line with
  | [] => [[]]
  | _ => wrap_chars char_w limit [] 0.0 line
  end.

Definition wrap_lines (char_w : char -> Q) (limit : Q) (text : str) : list str :=
  flat_map (wrap_line char_w limit) (split_lines text).

(** [fontname.lower()], exact on the ASCII names it is compared with. *)
Definition lower (s : str) : str :=
  map (fun c => if (65 <=? c)%N && (c <=? 90)%N then (c + 32)%N else c) s.

Definition name_cour : str := [99; 111; 117; 114]%N.
Definition name_courier : str := [99; 111; 117; 114; 105; 101; 114]%N.
Definition name_tiro : str := [116; 105; 114; 111]%N.
Definition name_times : str := [116; 105; 109; 101; 115]%N.

(** [_char_wrap_text]. *)
Definition _char_wrap_text (m : Metrics) (text : str) (max_width fontsize : Q) (fontname : str)
    : str :=
  if negb (str_truthy text) || Qle_bool max_width 0 || Qle_bool fontsize 0 then text
  else
    let family :=
      if str_eqb (lower fontname) name_cour || str_eqb (lower fontname) name_courier
      then Courier
      else if str_eqb (lower fontname) name_tiro || str_eqb (lower fontname) name_times
      then Times
      else Helvetica in
    let pixel_size := Z.max (py_int fontsize) 1 in
    join_lines (wrap_lines (qt_family_advance m family pixel_size) (max_width + 0.1) text).

(** The nested [_char_width]: PyMuPDF's width, Qt's when the font has no glyph. *)
Definition _char_width (m : Metrics) (fontname : str) (fontsize : Q) (ch : char) : Q :=
  let w := get_text_length m ch fontname fontsize in
  if Qgtb w 0 then w else qt_default_advance m fontsize ch.

(** [_fitz_char_wrap_text]. *)
Definition _fitz_char_wrap_text (m : Metrics) (text : str) (max_width fontsize : Q)
    (fontname : str) : str :=
  if negb (str_truthy text) || Qle_bool max_width 0 || Qle_bool fontsize 0 then text
  else
    let effective_width :=
      if Qle_bool (max_width - 4.0) 0 then max_width else max_width - 4.0 in
    join_lines (wrap_lines (_char_width m fontname fontsize) effective_width text).

End TextWrap.

(** ** Line text from glyph boxes ([_extract_line_text_from_chars]) *)

Module TextLines.

Import Py.

(** A character of [rawdict]: [ch.get("c", "")] and [ch.get("bbox")]
    ([x0, y0, x1, y1], [None] when absent). *)
Record CharInfo := mkChar { c : str; bbox : option (Q * Q * Q * Q) }.

Definition bbox_x0 (b : Q * Q * Q * Q) : Q := fst (fst (fst b)).
Definition bbox_x1 (b : Q * Q * Q * Q) : Q := snd (fst b).

(** A span: [span.get("size", 12)], [span.get("chars", [])],
    [span.get("text", "")]. *)
Record Span := mkSpan { size : Q; chars : list CharInfo; text : str }.

(** [all_chars]: every character with the font size of its span. *)
Definition all_chars (spans : list Span) : list (CharInfo * Q) :=
  flat_map (fun span => map (fun ch => (ch, size span)) (chars span)) spans.

(** [widths]: the positive widths of the boxes. *)
Fixpoint widths (l : list (CharInfo * Q)) : list Q :=
  match l with
  | [] => []
  | (ch, _) :: rest =>
      match bbox ch with
      | Some cb =>
          let w := bbox_x1 cb - bbox_x0 cb in
          if Qgtb w 0 then w :: widths rest else widths rest
      | None => widths rest
      end
  end.

Definition py_sum (l : list Q) : Q := fold_left Qplus l 0.

Definition avg_char_w (l : list (CharInfo * Q)) : Q :=
  match widths l with
  | [] => 5.0
  | ws => py_sum ws / inject_Z (Z.of_nat (length ws))
  end.

Definition space_threshold (l : list (CharInfo * Q)) : Q := avg_char_w l * 0.35.

(** The final loop: [parts] from the characters left, [prev_x1] being the
    trailing edge of the last character kept. *)
Fixpoint build_parts (threshold : Q) (prev_x1 : option Q) (l : list (CharInfo * Q))
    : list str :=
  match l with
  | [] => []
  | (ch, _) :: rest =>
      match bbox ch with
      | Some cb =>
          if str_truthy (c ch) then
            let gap_space :=
              match prev_x1 with
              | Some p => if Qgtb (bbox_x0 cb - p) threshold then [[space]] else []
              | None => []
              end in
            gap_space ++ c ch :: build_parts threshold (Some (bbox_x1 cb)) rest
          else build_parts threshold prev_x1 rest
      | None => build_parts threshold prev_x1 rest
      end
  end.

(** [_extract_line_text_from_chars]. *)
Definition _extract_line_text_from_chars (spans : list Span) : str :=
  match spans with
  | [] => []
  | _ =>
      match all_chars spans with
      | [] => join_empty (map text spans)
      | l => strip (join_empty (build_parts (space_threshold l) None l))
      end
  end.

End TextLines.

(** ** Navigation and pre-rendering *)

Module Navigation.

Import Py Fitz Viewer.

(** [y_for_page]. *)
Definition y_for_page (page_index : Z) (w : Widget) : Z :=
  let offsets := _page_offsets (layout w) in
  if (0 <=? page_index)%Z && (page_index <? Z.of_nat (length offsets))%Z
  then nth (Z.to_nat page_index) offsets 0%Z
  else 0%Z.

(** The [QScrollArea] above the widget, as far as the widget reads it: the
    value of its vertical scroll bar and the height of its viewport. *)
Record ScrollArea := mkScrollArea { vbar_value : Z; viewport_height : Z }.

(** [_visible_page_range]: [(start, end_exclusive)].  [scroll_area] is [None]
    when the widget has no scroll area above it. *)
Definition _visible_page_range (scroll_area : option ScrollArea) (w : Widget) : Z * Z :=
  let offsets := _page_offsets (layout w) in
  let n := Z.of_nat (length offsets) in
  if (n =? 0)%Z then (0, 0)%Z
  else
    match scroll_area with
    | None => (0%Z, n)
    | Some sa =>
        let top := (vbar_value sa - 500)%Z in
        let bottom := (vbar_value sa + viewport_height sa + 500)%Z in
        let start := (Z.of_nat (bisect_right offsets top) - 1)%Z in
        let start := Z.max 0 start in
        let end_ := Z.of_nat (bisect_right offsets bottom) in
        let end_ := Z.min n end_ in
        (start, end_)
    end.

(** [visible_page]: the page at the centre of the viewport. *)
Definition visible_page (scroll_area : option ScrollArea) (w : Widget) : Z :=
  match scroll_area with
  | None => 0%Z
  | Some sa => page_at_y w (vbar_value sa + viewport_height sa / 2)%Z
  end.

(** [range(a, b)]. *)
Definition py_range (a b : Z) : list Z :=
  map (fun k => (a + Z.of_nat k)%Z) (seq 0 (Z.to_nat (b - a))).

(** [_prerender_near_pages]. *)
Definition _prerender_near_pages (center_page lookahead lookbehind : Z) (w : Widget) : Widget :=
  if negb (doc_truthy (_doc (docs w))) then w
  else
    let page_count := Z.of_nat (length (_page_offsets (layout w))) in
    fold_left
      (fun w i =>
         let key := make_key i (_zoom (zs w)) in
         if negb (OrderedDict.contains key_eqb key (_render_cache (rs w)))
            && negb (set_mem key (_pending_renders (rs w)))
         then _start_render_task i key w
         else w)
      (py_range (Z.max 0 (center_page - lookbehind))
                (Z.min page_count (center_page + lookahead + 1)))
      w.

(** [PDFScrollView._on_scroll]: the scroll view is the widget's scroll area;
    [lookahead] and [lookbehind] take their defaults, 10 and 4. *)
Definition _on_scroll (sa : ScrollArea) (w : Widget) : Widget :=
  let visible := visible_page (Some sa) w in
  _prerender_near_pages visible 10 4 w.

End Navigation.

(** ** The text lines of a page ([_get_text_lines_for_page]) *)

Module PageLines.

Import Py Fitz Viewer TextLines.

(** A span of [rawdict]: what [_extract_line_text_from_chars] reads of it,
    and [span.get("font")], [span.get("color")], [span.get("origin")]. *)
Record RawSpan := mkRawSpan {
  span : Span;
  span_font : option str;
  span_color : option Z;
  span_origin : option (Q * Q)
}.

(** A line of a block: [line.get("spans", [])] and [line["bbox"]]. *)
Record RawLine := mkRawLine { spans : list RawSpan; raw_bbox : Rect }.

(** A block: [block.get("type")] and [block.get("lines", [])]. *)
Record Block := mkBlock { block_type : option Z; block_lines : list RawLine }.

(** [d.get(key, default)]. *)
Definition get_default {A} (o : option A) (default : A) : A :=
  match o with
  | Some x => x
  | None => default
  end.

(** The left edge of the first character that is not blank and has a box. *)
Definition first_char_x (spans : list RawSpan) : option Q :=
  match find (fun ch => str_truthy (c ch) && str_truthy (strip (c ch)) && opt_truthy (bbox ch))
             (flat_map (fun sp => chars (span sp)) spans) with
  | Some ch => option_map bbox_x0 (bbox ch)
  | None => None
  end.

(** The body of the loop over the lines of a block: the entry appended for a
    line, [None] for a line that is passed over. *)
Definition line_info (line : RawLine) : option LineInfo :=
  match spans line with
  | [] => None
  | first_span :: _ =>
      let bbox := raw_bbox line in
      let text := _extract_line_text_from_chars (map span (spans line)) in
      if negb (str_truthy text) then None
      else
        Some (mkLineInfo text bbox
                (get_default (span_font first_span) [])
                (size (span first_span))
                (get_default (span_color first_span) 0%Z)
                (get_default (span_origin first_span) (x0 bbox, y1 bbox))
                (first_char_x (spans line)))
  end.

(** The lines of the text blocks, in reading order. *)
Definition extract_lines (blocks : list Block) : list LineInfo :=
  flat_map
    (fun block =>
       match block_type block with
       | Some 0%Z =>
           flat_map (fun line => match line_info line with
                                 | Some li => [li]
                                 | None => []
                                 end) (block_lines block)
       | _ => []
       end) blocks.

(** Two boxes at nearly the same height whose horizontal extents overlap. *)
Definition is_duplicate (bi bj : Rect) : bool :=
  Qltb (Qabs (y0 bi - y0 bj)) 3 && Qltb (Qabs (y1 bi - y1 bj)) 3
  && Qltb (x0 bi) (x1 bj) && Qltb (x0 bj) (x1 bi).

(** The removal of duplicates: a line is kept when no later line duplicates
    it. *)
Fixpoint deduped (lines : list LineInfo) : list LineInfo :=
  match lines with
  | [] => []
  | line_i :: rest =>
      if existsb (fun line_j => is_duplicate (line_bbox line_i) (line_bbox line_j)) rest
      then deduped rest
      else line_i :: deduped rest
  end.

(** [page_index in self._text_edit_lines_cache] and the entry. *)
Fixpoint cached_lines (page_index : Z) (cache : list (Z * list LineInfo))
    : option (list LineInfo) :=
  match cache with
  | [] => None
  | (k, lines) :: rest => if Z.eqb page_index k then Some lines else cached_lines page_index rest
  end.

(** [_get_text_lines_for_page]: the lines, and the widget after the call.
    [get_text_rawdict] is the engine's [page.get_text("rawdict")["blocks"]]. *)
Definition _get_text_lines_for_page (get_text_rawdict : Page -> list Block)
    (page_index : Z) (w : Widget) : list LineInfo * Widget :=
  let t := te w in
  match cached_lines page_index (_text_edit_lines_cache t) with
  | Some lines => (lines, w)
  | None =>
      match _doc (docs w) with
      | Some ((_ :: _) as d) =>
          if (page_count d <=? page_index)%Z then ([], w)
          else
            match nth_error d (page_slot d page_index) with
            | None => ([], w)
            | Some page =>
                let lines := deduped (extract_lines (get_text_rawdict page)) in
                (lines,
                 with_te (mkTextEdit (_text_edit_lines_cache t ++ [(page_index, lines)])
                            (_text_edit_hover_line t) (_text_edit_hover_page t)
                            (_text_edit_widget t) (_text_edit_line_info t)
                            (_text_edit_page t)) w)
            end
      | _ => ([], w)
      end
  end.

End PageLines.

(** ** Leaving the native text edit *)

Module TextEditExit.

Import Py Fitz Viewer.

(** [_cancel_text_edit]. *)
Definition _cancel_text_edit (w : Widget) : Widget :=
  let t := te w in
  match _text_edit_widget t with
  | None => w
  | Some _ =>
      with_te (mkTextEdit (_text_edit_lines_cache t) (_text_edit_hover_line t)
                 (_text_edit_hover_page t) None None (-1)) w
  end.

(** [exit_text_edit_mode]. *)
Definition exit_text_edit_mode (env : Env) (w : Widget) : Widget :=
  let w := if opt_truthy (_text_edit_widget (te w)) then _commit_text_edit env w else w in
  let s := ms w in
  let w := with_ms (mkModeState MODE_NORMAL (pending_text_config s) (_crop_start_pos s)
                      (_crop_current_pos s) (_crop_callback s)) w in
  let t := te w in
  with_te (mkTextEdit [] None (-1) (_text_edit_widget t) (_text_edit_line_info t)
             (_text_edit_page t)) w.

End TextEditExit.

(** ** Placing and deleting overlay stamps *)

Module Stamps.

Import Py Fitz Viewer.

(** Truth value of a [QPointF]: false when both coordinates are 0. *)
Definition point_truthy (p : Point) : bool :=
  negb (Qeq_bool (px p) 0 && Qeq_bool (py p) 0).

(** [place_stamp_on_page].  [image] is the size of [QPixmap(image_path)],
    [None] when the pixmap is null or cannot be made; [stamp_id] stands for
    the fresh [uuid4()].  [None] is an exception that leaves the method: the
    [IndexError] of the coordinate conversion, or the [ZeroDivisionError] of
    an aspect ratio of 0. *)
Definition place_stamp_on_page (image : option (Z * Z)) (stamp_id : Z) (page_index : Z)
    (image_path : str) (screen_pos : option Point) (w : Widget) : option Widget :=
  match _doc (docs w) with
  | Some ((_ :: _) as d) =>
      if (page_count d <=? page_index)%Z then Some w
      else
        match nth_error d (page_slot d page_index) with
        | None => Some w
        | Some page =>
            let pr := page_rect page in
            let stamp_w := width pr * 0.15 in
            let centre :=
              match screen_pos with
              | Some pos =>
                  if point_truthy pos
                  then option_map (fun page_pos => (px page_pos, py page_pos))
                         (_screen_to_page_coords pos page_index w)
                  else Some (width pr / 2, height pr / 2)
              | None => Some (width pr / 2, height pr / 2)
              end in
            match centre with
            | None => None
            | Some (cx, cy) =>
                let aspect :=
                  match image with
                  | Some (iw, ih) => inject_Z iw / inject_Z (Z.max ih 1)
                  | None => 1.0
                  end in
                if Qeq_bool aspect 0 then None
                else
                  let stamp_h := stamp_w / aspect in
                  let rect := mkRect (cx - stamp_w / 2) (cy - stamp_h / 2)
                                     (cx + stamp_w / 2) (cy + stamp_h / 2) in
                  let w := with_stamps (_overlay_stamps (sel w)
                                        ++ [mkStamp stamp_id page_index rect image_path false])
                             w in
                  Some (_snapshot_doc_bytes w)
            end
        end
  | _ => Some w
  end.

(** [==] on two stamp dictionaries. *)
Definition stamp_eqb (a b : Stamp) : bool :=
  Z.eqb (stamp_id a) (stamp_id b) && Z.eqb (stamp_page a) (stamp_page b)
  && Qeq_bool (x0 (stamp_rect a)) (x0 (stamp_rect b))
  && Qeq_bool (y0 (stamp_rect a)) (y0 (stamp_rect b))
  && Qeq_bool (x1 (stamp_rect a)) (x1 (stamp_rect b))
  && Qeq_bool (y1 (stamp_rect a)) (y1 (stamp_rect b))
  && str_eqb (stamp_path a) (stamp_path b)
  && Bool.eqb (stamp_selected a) (stamp_selected b).

(** [list.remove(x)]: the first element equal to [x] goes. *)
Fixpoint list_remove (x : Stamp) (l : list Stamp) : list Stamp :=
  match l with
  | [] => []
  | y :: rest => if stamp_eqb x y then rest else y :: list_remove x rest
  end.

(** [_delete_stamp]. *)
Definition _delete_stamp (stamp : Stamp) (w : Widget) : Widget :=
  let s := sel w in
  let stamps := if existsb (stamp_eqb stamp) (_overlay_stamps s)
                then list_remove stamp (_overlay_stamps s)
                else _overlay_stamps s in
  let w := with_sel (mkSelection None (-1) stamps (_drag_annot s) (_drag_page s)
                       (_drag_start s) (_orig_rect s) (_is_resizing s) (_resize_corner s)
                       (_resize_anchor s)) w in
  _snapshot_doc_bytes w.

End Stamps.

(** ** The main window's calls into the page view ([main_window.py]) *)

Module MainWindow.

Import Py Fitz Viewer.

(** [PDFTab], as far as [_on_doc_changed] reads it. *)
Record PDFTab := mkPDFTab { document : option Document; file_path : str }.

(** [MainWindow._on_doc_changed], the part that acts on the page view:
    [tab] is the active tab, [None] when there is none. *)
Definition _on_doc_changed (tab : option PDFTab) (w : Widget) : Widget :=
  match tab with
  | None => w
  | Some t =>
      if negb (doc_truthy (document t)) then w
      else
        let d := docs w in
        let w := with_docs (mkDocState (document t) (_file_path d) (_doc_bytes_snapshot d)
                              (_page_rects d)) w in
        let w := _snapshot_doc_bytes w in
        let w := set_document (document t) (file_path t) true w in
        invalidate_all_pages w
  end.

End MainWindow.

(** ** Choosing a font ([_resolve_freetext_font], [_map_to_fitz_font]) *)

Module Fonts.

Import Py Viewer.
Import String.

(** A string literal as a [str]. *)
Definition lit (s : String.string) : str :=
  map Ascii.N_of_ascii (String.list_ascii_of_string s).

Arguments lit s%_string.

(** [_resolve_freetext_font]: the [fontname] of the keyword arguments. *)
Definition _resolve_freetext_font (text font_name : str) : FontArgs :=
  let has_cjk := existsb (fun c => (0x2E7F <? c)%N) text in
  if negb has_cjk then
    let name := if str_truthy font_name then font_name else lit "helv" in
    let name :=
      if str_eqb (TextWrap.lower name) (lit "helvetica")
         || str_eqb (TextWrap.lower name) (lit "arial")
      then lit "helv" else name in
    mkFontArgs name None
  else mkFontArgs (lit "korea") None.

(** What [_map_to_fitz_font] reads from the system: [str.lower], the [WINDIR]
    variable, [os.path.join] and [os.path.exists]. *)
Record System := mkSystem {
  py_lower : str -> str;
  windir : option str;
  path_join : str -> str -> str;
  path_exists : str -> bool
}.

(** [s.replace(ch, "")] for a single character. *)
Definition remove_char (ch : char) (s : str) : str :=
  filter (fun c => negb (N.eqb c ch)) s.

(** [needle in hay] on strings. *)
Fixpoint starts_with (prefix s : str) : bool :=
  match prefix, s with
  | [], _ => true
  | p :: ps, c :: cs => N.eqb p c && starts_with ps cs
  | _ :: _, [] => false
  end.

Fixpoint contains_str (needle hay : str) : bool :=
  starts_with needle hay
  || match hay with
     | [] => false
     | _ :: rest => contains_str needle rest
     end.

(** [s.split(".")[0]]. *)
Fixpoint before_dot (s : str) : str :=
  match s with
  | [] => []
  | c :: rest => if N.eqb c 46%N then [] else c :: before_dot rest
  end.

(** A Hangul syllable or compatibility jamo. *)
Definition is_hangul (cp : char) : bool :=
  ((0xAC00 <=? cp) && (cp <=? 0xD7AF) || (0x3131 <=? cp) && (cp <=? 0x318E))%N.

(** The loop over the text: [(has_korean, has_cjk)].  It stops at the first
    Hangul character. *)
Fixpoint scan_text (text : str) (has_cjk : bool) : bool * bool :=
  match text with
  | [] => (false, has_cjk)
  | c :: rest =>
      if is_hangul c then (true, true)
      else scan_text rest (has_cjk || (0x2E7F <? c)%N)
  end.

(** [font_map]: keyword, regular, bold, light. *)
Definition font_map : list (str * str * str * str) :=
  [(lit "malgun", lit "malgun.ttf", lit "malgunbd.ttf", lit "malgunsl.ttf");
   (lit "gothic", lit "malgun.ttf", lit "malgunbd.ttf", lit "malgunsl.ttf");
   (lit "gulim", lit "gulim.ttc", lit "gulim.ttc", lit "gulim.ttc");
   (lit "dotum", lit "gulim.ttc", lit "gulim.ttc", lit "gulim.ttc");
   (lit "batang", lit "batang.ttc", lit "batang.ttc", lit "batang.ttc");
   (lit "gungsuh", lit "batang.ttc", lit "batang.ttc", lit "batang.ttc");
   (lit "myeongjo", lit "batang.ttc", lit "batang.ttc", lit "batang.ttc");
   (lit "nanum", lit "NanumGothic.ttf", lit "NanumGothicBold.ttf", lit "NanumGothicLight.ttf")].

(** [latin_font_map]: keyword, regular, bold, italic, bold italic. *)
Definition latin_font_map : list (str * str * str * str * str) :=
  [(lit "arial", lit "arial.ttf", lit "arialbd.ttf", lit "ariali.ttf", lit "arialbi.ttf");
   (lit "helvetica", lit "arial.ttf", lit "arialbd.ttf", lit "ariali.ttf", lit "arialbi.ttf");
   (lit "calibri", lit "calibri.ttf", lit "calibrib.ttf", lit "calibrii.ttf", lit "calibriz.ttf");
   (lit "cambria", lit "cambria.ttc", lit "cambriab.ttf", lit "cambriai.ttf", lit "cambriaz.ttf");
   (lit "times", lit "times.ttf", lit "timesbd.ttf", lit "timesi.ttf", lit "timesbi.ttf");
   (lit "georgia", lit "georgia.ttf", lit "georgiab.ttf", lit "georgiai.ttf", lit "georgiaz.ttf");
   (lit "verdana", lit "verdana.ttf", lit "verdanab.ttf", lit "verdanai.ttf", lit "verdanaz.ttf");
   (lit "tahoma", lit "tahoma.ttf", lit "tahomabd.ttf", lit "tahoma.ttf", lit "tahomabd.ttf");
   (lit "trebuchet", lit "trebuc.ttf", lit "trebucbd.ttf", lit "trebucit.ttf", lit "trebucbi.ttf");
   (lit "segoeui", lit "segoeui.ttf", lit "segoeuib.ttf", lit "segoeuii.ttf", lit "segoeuiz.ttf");
   (lit "segoe", lit "segoeui.ttf", lit "segoeuib.ttf", lit "segoeuii.ttf", lit "segoeuiz.ttf");
   (lit "consola", lit "consola.ttf", lit "consolab.ttf", lit "consolai.ttf", lit "consolaz.ttf");
   (lit "courier", lit "cour.ttf", lit "courbd.ttf", lit "couri.ttf", lit "courbi.ttf");
   (lit "mono", lit "consola.ttf", lit "consolab.ttf", lit "consolai.ttf", lit "consolaz.ttf");
   (lit "garamond", lit "GARA.TTF", lit "GARABD.TTF", lit "GARAIT.TTF", lit "GARABD.TTF");
   (lit "bookantiqua", lit "BKANT.TTF", lit "ANTQUAB.TTF", lit "ANTQUAI.TTF", lit "ANTQUABI.TTF")].

(** A font file of the system, when it exists. *)
Definition font_file (sys : System) (fonts_dir file : str) : option FontArgs :=
  if path_exists sys (path_join sys fonts_dir file)
  then Some (mkFontArgs (before_dot file) (Some (path_join sys fonts_dir file)))
  else None.

(** [_map_to_fitz_font]. *)
Definition _map_to_fitz_font (sys : System) (original_font text : str) : FontArgs :=
  let '(has_korean, has_cjk) := scan_text text false in
  let fonts_dir :=
    path_join sys (match windir sys with Some d => d | None => lit "C:\Windows" end)
      (lit "Fonts") in
  let lower :=
    remove_char 95%N (remove_char 32%N (remove_char 45%N (py_lower sys original_font))) in
  let is_bold :=
    contains_str (lit "bold") lower || contains_str (lit "heavy") lower
    || contains_str (lit "black") lower in
  if has_cjk then
    let is_light :=
      contains_str (lit "light") lower || contains_str (lit "thin") lower
      || contains_str (lit "semilight") lower in
    let matched :=
      match find (fun e => contains_str (fst (fst (fst e))) lower) font_map with
      | Some (_, reg, bold, light) =>
          Some (if is_bold then bold else if is_light then light else reg)
      | None => None
      end in
    match match matched with
          | Some file => font_file sys fonts_dir file
          | None => None
          end with
    | Some found => found
    | None =>
        let default_file :=
          if is_bold then lit "malgunbd.ttf"
          else if is_light then lit "malgunsl.ttf"
          else lit "malgun.ttf" in
        match font_file sys fonts_dir default_file with
        | Some found => found
        | None =>
            if path_exists sys (path_join sys fonts_dir (lit "malgun.ttf"))
            then mkFontArgs (lit "malgun")
                   (Some (path_join sys fonts_dir (lit "malgun.ttf")))
            else if has_korean then mkFontArgs (lit "korea") None
            else mkFontArgs (lit "china-s") None
        end
    end
  else
    let is_italic :=
      contains_str (lit "italic") lower || contains_str (lit "oblique") lower in
    let from_map :=
      match find (fun e => contains_str (fst (fst (fst (fst e)))) lower) latin_font_map with
      | Some (_, reg, bold, italic, bolditalic) =>
          let chosen :=
            if is_bold && is_italic then bolditalic
            else if is_bold then bold
            else if is_italic then italic
            else reg in
          match font_file sys fonts_dir chosen with
          | Some found => Some found
          | None => font_file sys fonts_dir reg
          end
      | None => None
      end in
    match from_map with
    | Some found => found
    | None =>
        let fallback := if is_bold then lit "arialbd.ttf" else lit "arial.ttf" in
        match font_file sys fonts_dir fallback with
        | Some found => found
        | None =>
            if contains_str (lit "courier") lower || contains_str (lit "mono") lower
               || contains_str (lit "consol") lower
            then mkFontArgs (lit "cour") None
            else if contains_str (lit "times") lower
                    || (contains_str (lit "serif") lower
                        && negb (contains_str (lit "sans") lower))
            then mkFontArgs (lit "tiro") None
            else mkFontArgs (lit "helv") None
        end
    end.

End Fonts.

(** ** The computations that depend on rounding *)

(** The stamp resize of [mouseMoveEvent] and [_extract_line_text_from_chars]
    once more, with every float addition, subtraction, multiplication and
    division of the source followed by the rounding [rnd].  Comparisons,
    [abs], [max] and the conversion of an [int] to a [float] are exact. *)

Module Rounded.

Import Py Fitz Rounding.

Section WithRounding.

Variable rnd : Q -> Q.

(** [Rect.width] and [Rect.height]. *)
Definition width (r : Rect) : Q := py_max 0 (sub rnd (x1 r) (x0 r)).
Definition height (r : Rect) : Q := py_max 0 (sub rnd (y1 r) (y0 r)).

(** The aspect-preserving resize of [mouseMoveEvent]: [anchor] is
    [_resize_anchor], [p] is [page_pos], [zoom] is [_zoom]; the result is
    [new_rect], [None] when the original rectangle has no area. *)
Definition stamp_resize_rect (orig : Rect) (anchor p : Point) (zoom : Q) : option Rect :=
  let orig_w := width orig in
  let orig_h := height orig in
  if Qgtb orig_w 0 && Qgtb orig_h 0 then
    let aspect := div rnd orig_w orig_h in
    let dx := Qabs (sub rnd (px p) (px anchor)) in
    let dy := Qabs (sub rnd (py p) (py anchor)) in
    let '(new_w, new_h) :=
      if Qgtb (div rnd dx aspect) dy
      then (py_max dx (div rnd 20 zoom), div rnd (py_max dx (div rnd 20 zoom)) aspect)
      else (mul rnd (py_max dy (div rnd 20 zoom)) aspect, py_max dy (div rnd 20 zoom)) in
    let nx0 := if Qltb (px p) (px anchor) then sub rnd (px anchor) new_w else px anchor in
    let ny0 := if Qltb (py p) (py anchor) then sub rnd (py anchor) new_h else py anchor in
    Some (mkRect nx0 ny0 (add rnd nx0 new_w) (add rnd ny0 new_h))
  else None.

Import TextLines.

(** [widths]: the positive widths of the boxes. *)
Fixpoint widths (l : list (CharInfo * Q)) : list Q :=
  match l with
  | [] => []
  | (ch, _) :: rest =>
      match bbox ch with
      | Some cb =>
          let w := sub rnd (bbox_x1 cb) (bbox_x0 cb) in
          if Qgtb w 0 then w :: widths rest else widths rest
      | None => widths rest
      end
  end.

(** [sum(widths)]: from 0, one addition per width, left to right. *)
Definition py_sum (l : list Q) : Q := fold_left (add rnd) l 0.

(** [avg_char_w]: [sum(widths) / len(widths)], 5.0 when there is no width. *)
Definition avg_char_w (l : list (CharInfo * Q)) : Q :=
  match widths l with
  | [] => 5.0
  | ws => div rnd (py_sum ws) (inject_Z (Z.of_nat (length ws)))
  end.

(** [avg_char_w * 0.35]; the literal is the float nearest to 0.35. *)
Definition space_threshold (l : list (CharInfo * Q)) : Q := mul rnd (avg_char_w l) (rnd 0.35).

(** The final loop: [parts] from the characters left, [prev_x1] being the
    trailing edge of the last character kept. *)
Fixpoint build_parts (threshold : Q) (prev_x1 : option Q) (l : list (CharInfo * Q))
    : list str :=
  match l with
  | [] => []
  | (ch, _) :: rest =>
      match bbox ch with
      | Some cb =>
          if str_truthy (c ch) then
            let gap_space :=
              match prev_x1 with
              | Some p => if Qgtb (sub rnd (bbox_x0 cb) p) threshold then [[space]] else []
              | None => []
              end in
            gap_space ++ c ch :: build_parts threshold (Some (bbox_x1 cb)) rest
          else build_parts threshold prev_x1 rest
      | None => build_parts threshold prev_x1 rest
      end
  end.

(** [_extract_line_text_from_chars]. *)
Definition _extract_line_text_from_chars (spans : list Span) : str :=
  match spans with
  | [] => []
  | _ =>
      match all_chars spans with
      | [] => join_empty (map text spans)
      | l => strip (join_empty (build_parts (space_threshold l) None l))
      end
  end.

End WithRounding.

End Rounded.

(** * The vocabulary of the properties *)

(** ** Zoom *)

Section ZoomVocabulary.

Import Py Viewer.

(** The three zoom factors are within the limits. *)
Definition zoom_in_range (z : Q) : Prop := 0.1 <= z /\ z <= 8.0.

Definition zooms_in_range (w : Widget) : Prop :=
  zoom_in_range (_zoom (zs w)) /\ zoom_in_range (_visual_zoom (zs w))
  /\ zoom_in_range (_zoom_target (zs w)).

End ZoomVocabulary.

(** ** Layout *)

Section LayoutVocabulary.

Import Py Fitz Viewer.

(** The widget shows document [d]: [set_document] has cached its page
    rectangles. *)
Definition loaded (d : Document) (w : Widget) : Prop :=
  _doc (docs w) = Some d /\ _page_rects (docs w) = map page_rect d.

(** Two pages of 600 x 800 and 600 x 400 at zoom 1.5. *)
Definition two_pages : Document :=
  [mkPage (mkRect 0 0 600 800) []; mkPage (mkRect 0 0 600 400) []].

Definition two_pages_widget : Widget :=
  set_document (Some two_pages) [97%N] false (set_zoom 1.5 init).

End LayoutVocabulary.

(** ** Overlay stamps *)

Section StampVocabulary.

Import Py Fitz Viewer.

(** The 100 x 50 stamp of page 0 at the origin of a 600 x 800 page, zoom 1:
    the bottom-right handle, at (100, 50), is dragged by (40, 10). *)
Definition stamp_scene : Widget :=
  let w := set_document (Some [mkPage (mkRect 0 0 600 800) []]) [97%N] false
             (with_layout (mkLayout [] [] 800) init) in
  with_sel (mkSelection None 0 [mkStamp 1 0 (mkRect 0 0 100 50) [115%N] true]
              (Some (DragStamp 1)) 0 (mkPoint 100 50) (Some (mkRect 0 0 100 50)) true 2
              (mkPoint 0 0)) w.

End StampVocabulary.

(** ** Character wrapping *)

Section WrapVocabulary.

Import Py TextWrap.

Definition no_newline (s : str) : Prop := Forall (fun ch => ch <> newline) s.

(** A piece [seg] is stable when wrapping it alone gives it back. *)
Definition stable (char_w : char -> Q) (limit : Q) (seg : str) : Prop :=
  seg <> [] /\ wrap_chars char_w limit [] 0.0 seg = [seg].

(** [cur], measured [cur_w], continues a wrap started on an empty line. *)
Definition continues (char_w : char -> Q) (limit : Q) (cur : str) (cur_w : Q) : Prop :=
  forall rest, wrap_chars char_w limit [] 0.0 (cur ++ rest)
               = wrap_chars char_w limit cur cur_w rest.

(** Every glyph 6 units wide: ["abcdefg"] in a box 24 wide (20 usable) wraps to
    ["abc"], ["def"], ["g"]. *)
Definition six_wide : Metrics :=
  mkMetrics (fun _ _ _ => 6) (fun _ _ => 6) (fun _ _ _ => 6).

Definition abcdefg : str := [97; 98; 99; 100; 101; 102; 103]%N.

End WrapVocabulary.

(** ** Line text *)

Section LineTextVocabulary.

Import Py TextLines.

(** [prev_x1] after the loop has gone through [l]. *)
Fixpoint prev_after (prev_x1 : option Q) (l : list (CharInfo * Q)) : option Q :=
  match l with
  | [] => prev_x1
  | (ch, _) :: rest =>
      match bbox ch with
      | Some cb => if str_truthy (c ch) then prev_after (Some (bbox_x1 cb)) rest
                   else prev_after prev_x1 rest
      | None => prev_after prev_x1 rest
      end
  end.

(** Glyphs 10 wide: ["H"] at 0..10, ["i"] at 12..22 (gap 2, threshold 3.5), then
    ["w"] at 60..70 (gap 38). *)
Definition glyph (code : N) (left right : Q) : CharInfo :=
  mkChar [code] (Some (left, 0, right, 12)).

Definition line_hi_w : list Span :=
  [mkSpan 12 [glyph 72 0 10; glyph 105 12 22; glyph 119 60 70] []].

End LineTextVocabulary.

(** ** Native text edit *)

Section ModeVocabulary.

Import Py Fitz Viewer.

(** The text [txt] is the last thing drawn on page [page_index] of [d]. *)
Definition reflects_text (d : option Document) (page_index : Z) (txt : str) : Prop :=
  exists (pages : Document) (page : Page) (ops : list ContentOp) (at_point : Point)
         (size : Q) (color : Color) (font : FontArgs),
    d = Some pages
    /\ nth_error pages (Z.to_nat page_index) = Some page
    /\ drawn page = ops ++ [InsertText at_point txt size color font].

(** The cover rectangle and the insertion of a commit. *)
Definition cover_op (env : Env) (page : Page) (li : LineInfo) : ContentOp :=
  DrawRect (mkRect (x0 (line_bbox li) - 1) (y0 (line_bbox li) - 1)
              (x1 (line_bbox li) + 1) (y1 (line_bbox li) + 1))
           (sample_background env page (line_bbox li)).

Definition insert_op (env : Env) (page : Page) (li : LineInfo) (new_text : str) : ContentOp :=
  InsertText (mkPoint (match line_first_char_x li with
                       | Some fx => fx
                       | None => fst (line_origin li)
                       end) (snd (line_origin li)))
             new_text (line_size li) (color_of_int (line_color li))
             (resolve_font env page (line_font li) new_text).

(** The scenario: page 0 shows the line ["Hi"]; in TextEdit mode its editor
    holds ["Ho"] when [enter_crop_mode] is called. *)
Definition plain_env : Env :=
  mkEnv (fun _ _ _ => mkFontArgs [104; 101; 108; 118]%N None)
        (fun _ _ => (1, 1, 1)) (fun _ _ => true).

Definition line_hi : LineInfo :=
  mkLineInfo [72; 105]%N (mkRect 10 10 30 22) [65]%N 12 0 (10, 20) (Some 10).

Definition editing_scene : Widget :=
  let w := set_document (Some [mkPage (mkRect 0 0 600 800) []]) [97%N] false init in
  let w := enter_text_edit_mode plain_env w in
  with_te (mkTextEdit [] None (-1) (Some (mkLineEdit [72; 111]%N)) (Some line_hi) 0) w.

End ModeVocabulary.

(** ** Recency in the render cache *)

Section CacheVocabulary.

Import Py Viewer OrderedDict.

(** The keys besides [k], in their order. *)
Definition others {K : Type} (eqb : K -> K -> bool) (k : K) (l : list K) : list K := filter (fun k' => negb (eqb k k')) l.

(** A time stamp per key, and the order it induces on a list of keys. *)
Definition Stamps := Key -> nat.

Definition upd (f : Stamps) (k : Key) (n : nat) : Stamps :=
  fun k' => if key_eqb k k' then n else f k'.

Definition ordered_by (f : Stamps) (l : list Key) : Prop :=
  StronglySorted (fun a b => (f a < f b)%nat) l.

(** The entries of [c] lie in the order of their stamps, oldest first, and all
    stamps are in the past. *)
Definition stamped (f : Stamps) (now : nat) (c : Cache) : Prop :=
  ordered_by f (keys c) /\ Forall (fun k => (f k < now)%nat) (keys c).

(** Bookkeeping beside the widget, to speak about recency: a clock that counts
    the events, the time each key was last used in the high-res tier (inserted,
    or hit by [_get_page_pixmap] under its exact key), the time each key was
    last used in the low-res tier (inserted or read), and the time each key
    entered the low-res tier. *)
Record Ghost := mkGhost {
  now : nat;
  hi_used : Stamps;
  lo_used : Stamps;
  lo_inserted : Stamps
}.

Definition ghost_init : Ghost := mkGhost 0 (fun _ => 0%nat) (fun _ => 0%nat) (fun _ => 0%nat).

Definition tick (g : Ghost) : Ghost :=
  mkGhost (S (now g)) (hi_used g) (lo_used g) (lo_inserted g).

Definition ghost_step (e : Event) (w : Widget) (g : Ghost) : Ghost :=
  match e with
  | EvRenderFinished image is_high_res page_index key =>
      if key_eqb key (make_key page_index (_zoom (zs w))) && negb (isNull image) then
        if is_high_res then
          mkGhost (S (now g)) (upd (hi_used g) key (now g)) (lo_used g) (lo_inserted g)
        else
          mkGhost (S (now g)) (hi_used g) (upd (lo_used g) key (now g))
            (if contains key_eqb key (_low_res_cache (rs w)) then lo_inserted g
             else upd (lo_inserted g) key (now g))
      else tick g
  | EvPaintPage page_index _ _ =>
      let key := make_key page_index (_zoom (zs w)) in
      if contains key_eqb key (_render_cache (rs w)) then
        mkGhost (S (now g)) (upd (hi_used g) key (now g)) (lo_used g) (lo_inserted g)
      else if contains key_eqb key (_low_res_cache (rs w)) then
        mkGhost (S (now g)) (hi_used g) (upd (lo_used g) key (now g)) (lo_inserted g)
      else tick g
  | _ => tick g
  end.

(** The widget and the bookkeeping after a sequence of events. *)
Fixpoint ghost_run (env : Env) (events : list Event) (w : Widget) (g : Ghost) : Widget * Ghost :=
  match events with
  | [] => (w, g)
  | e :: rest => ghost_run env rest (handle env e w) (ghost_step e w g)
  end.

(** Both tiers within capacity and in the order of their stamps. *)
Definition cache_inv (w : Widget) (g : Ghost) : Prop :=
  stamped (hi_used g) (now g) (_render_cache (rs w))
  /\ (length (_render_cache (rs w)) <= 30)%nat
  /\ stamped (lo_inserted g) (now g) (_low_res_cache (rs w))
  /\ (length (_low_res_cache (rs w)) <= 150)%nat.

(** [w'] holds a part of the entries of [w], in their order. *)
Definition narrowed (w w' : Widget) : Prop :=
  exists P1 P2 : Key * QPixmap -> bool,
    _render_cache (rs w') = filter P1 (_render_cache (rs w))
    /\ _low_res_cache (rs w') = filter P2 (_low_res_cache (rs w)).

Definition valid_result (image : QImage) (page_index : Z) (key : Key) (w : Widget) : bool :=
  key_eqb key (make_key page_index (_zoom (zs w))) && negb (isNull image).

(** The widget and the bookkeeping after [events], from a fresh widget. *)
Definition widget_after (env : Env) (events : list Event) : Widget := run env events init.

Definition ghost_after (env : Env) (events : list Event) : Ghost :=
  snd (ghost_run env events init ghost_init).

(** The claim for the low-res tier, with recency refreshed by every insertion
    and every read: what a low-res completion evicts was used before
    everything that stays. *)
Definition low_res_eviction_is_lru (env : Env) (events : list Event) (image : QImage)
    (page_index : Z) (key : Key) : Prop :=
  forall k k' : Key,
    In k (keys (_low_res_cache (rs (widget_after env events)))) ->
    ~ In k (keys (_low_res_cache (rs (_on_render_finished image false page_index key
                                        (widget_after env events))))) ->
    In k' (keys (_low_res_cache (rs (_on_render_finished image false page_index key
                                       (widget_after env events))))) ->
    (lo_used (ghost_step (EvRenderFinished image false page_index key)
                (widget_after env events) (ghost_after env events)) k
     < lo_used (ghost_step (EvRenderFinished image false page_index key)
                  (widget_after env events) (ghost_after env events)) k')%nat.

(** The low-res preview of page [p] at zoom 1.0 arrives. *)
Definition preview (p : nat) : Event :=
  EvRenderFinished (mkImage false (Z.of_nat p) 0.4) false (Z.of_nat p)
    (make_key (Z.of_nat p) 1.0).

(** Previews of pages 0 to 149 arrive, then the preview of page 0 again. *)
Definition previews_then_page_0_again : list Event := map preview (seq 0 150) ++ [preview 0].

(** The high-res render of page [p] at zoom 1.0 arrives. *)
Definition final_render (p : nat) : Event :=
  EvRenderFinished (mkImage false (Z.of_nat p) 2.0) true (Z.of_nat p)
    (make_key (Z.of_nat p) 1.0).

(** Renders of pages 0 to 29 arrive, then page 0 is painted. *)
Definition renders_then_page_0_painted : list Event :=
  map final_render (seq 0 30) ++ [EvPaintPage 0 600 800].

End CacheVocabulary.

(** ** Coordinates and navigation *)

Section NavigationVocabulary.

Import Py Fitz Viewer Navigation.

(** Two rectangles with equal coordinates. *)
Definition rect_eq (a b : Rect) : Prop :=
  x0 a == x0 b /\ y0 a == y0 b /\ x1 a == x1 b /\ y1 a == y1 b.

(** The two pages of [two_pages_widget] in a widget 1000 pixels wide: the
    first page is 900 wide, the second one too. *)
Definition wide_two_pages_widget : Widget :=
  with_layout (mkLayout (_page_offsets (layout two_pages_widget))
                 (_page_heights (layout two_pages_widget)) 1000) two_pages_widget.

(** A worker can be started: there is a document, and a file or a snapshot to
    render it from (the guard of [_start_render_task]). *)
Definition can_render (w : Widget) : Prop :=
  doc_truthy (_doc (docs w)) = true
  /\ (str_truthy (_file_path (docs w)) = true
      \/ opt_truthy (_doc_bytes_snapshot (docs w)) = true).

(** The pages [_prerender_near_pages] goes through. *)
Definition in_window (center_page lookahead lookbehind : Z) (w : Widget) (i : Z) : Prop :=
  (Z.max 0 (center_page - lookbehind) <= i
   < Z.min (Z.of_nat (length (_page_offsets (layout w)))) (center_page + lookahead + 1))%Z.

(** Page [i] has its high-res pixmap, or a render of it is pending. *)
Definition cached_or_pending (i : Z) (w : Widget) : Prop :=
  OrderedDict.contains key_eqb (make_key i (_zoom (zs w))) (_render_cache (rs w)) = true
  \/ set_mem (make_key i (_zoom (zs w))) (_pending_renders (rs w)) = true.

(** One turn of the loop of [_prerender_near_pages]. *)
Definition prerender_step (w : Widget) (i : Z) : Widget :=
  let key := make_key i (_zoom (zs w)) in
  if negb (OrderedDict.contains key_eqb key (_render_cache (rs w)))
     && negb (set_mem key (_pending_renders (rs w)))
  then _start_render_task i key w
  else w.

(** A scroll position: the bar at 700, a viewport 600 high. *)
Definition scrolled : ScrollArea := mkScrollArea 700 600.

End NavigationVocabulary.

(** ** Painting from the cache *)

Section PaintVocabulary.

Import Py Fitz Viewer.

(** A worker's result for the page at the zoom the widget has now arrives. *)
Definition delivered (image : QImage) (is_high_res : bool) (page_index : Z) (w : Widget)
    : Widget :=
  _on_render_finished image is_high_res page_index (make_key page_index (_zoom (zs w))) w.

(** What [_get_page_pixmap] hands to the painter. *)
Definition painted (page_index target_w target_h : Z) (w : Widget) : option QPixmap :=
  fst (_get_page_pixmap page_index target_w target_h w).

End PaintVocabulary.

(** ** Widths of wrapped lines *)

Section WrapWidthVocabulary.

Import Py TextWrap.

(** The width of a line as the loops measure it: the widths of its characters
    added up. *)
Fixpoint line_width (char_w : char -> Q) (line : str) : Q :=
  match line with
  | [] => 0
  | ch :: rest => char_w ch + line_width char_w rest
  end.

(** [effective_width] of [_fitz_char_wrap_text]: the width of the box less the
    padding of a FreeText annotation. *)
Definition effective_width (max_width : Q) : Q :=
  if Qle_bool (max_width - 4.0) 0 then max_width else max_width - 4.0.

(** Every break between two pieces was needed: the piece before it, with the
    first character of the piece after it, is wider than [limit]. *)
Fixpoint forced (char_w : char -> Q) (limit : Q) (pieces : list str) : Prop :=
  match pieces with
  | p :: ((next :: _) as rest) =>
      match next with
      | ch :: _ => limit < line_width char_w p + char_w ch
      | [] => True
      end /\ forced char_w limit rest
  | _ => True
  end.

End WrapWidthVocabulary.

(** ** The characters of a reconstructed line *)

Section LineContentVocabulary.

Import Py TextLines.

(** The characters that have a box; the loop passes over the others. *)
Definition boxed (l : list (CharInfo * Q)) : list (CharInfo * Q) :=
  filter (fun e => match bbox (fst e) with Some _ => true | None => false end) l.

(** The characters of [l], written one after the other. *)
Definition written (l : list (CharInfo * Q)) : str := concat (map (fun e => c (fst e)) l).

(** A string without its white space. *)
Definition without_spaces (s : str) : str := filter (fun ch => negb (isspace ch)) s.

(** The glyphs touch or overlap: no character the loop keeps starts beyond the
    trailing edge of the character kept before it. *)
Fixpoint touching (prev_x1 : option Q) (l : list (CharInfo * Q)) : Prop :=
  match l with
  | [] => True
  | (ch, _) :: rest =>
      match bbox ch with
      | Some cb =>
          if str_truthy (c ch) then
            match prev_x1 with
            | Some p => bbox_x0 cb <= p
            | None => True
            end /\ touching (Some (bbox_x1 cb)) rest
          else touching prev_x1 rest
      | None => touching prev_x1 rest
      end
  end.

(** Three glyphs 10 wide set tight: ["a"] at 0..10, ["b"] at 10..20, ["c"] at
    19..29. *)
Definition line_abc : list Span :=
  [mkSpan 12 [glyph 97 0 10; glyph 98 10 20; glyph 99 19 29] []].

End LineContentVocabulary.

(** ** What is drawn into the document *)

Section DocumentVocabulary.

Import Py Fitz Viewer.

(** Page [p'] is page [p] with more drawn over it. *)
Definition page_extends (p p' : Page) : Prop :=
  page_rect p' = page_rect p /\ exists ops, drawn p' = drawn p ++ ops.

(** Document [d'] has the pages of [d], each with what it had and possibly
    more drawn over it. *)
Definition doc_extends (d d' : option Document) : Prop :=
  match d, d' with
  | Some a, Some b => Forall2 page_extends a b
  | None, None => True
  | _, _ => False
  end.

(** The events that do not replace the document. *)
Definition keeps_document (e : Event) : bool :=
  match e with
  | EvSetDocument _ _ _ => false
  | _ => true
  end.

(** What [burn_overlay_stamps] draws for a stamp. *)
Definition image_op (s : Stamp) : ContentOp := InsertImage (stamp_rect s) (stamp_path s).

(** The stamps of [stamps] that go to the page at position [i] of [d]. *)
Definition stamps_on (d : Document) (i : nat) (stamps : list Stamp) : list Stamp :=
  filter (fun s => Nat.eqb (page_slot d (stamp_page s)) i) stamps.

(** The widget after the pointer has moved to [pos] during a drag. *)
Definition dragged_to (pos : Point) (w : Widget) : Widget :=
  match mouseMoveEvent_drag pos w with
  | Some w1 => w1
  | None => w
  end.

(** Three stamps on the two pages, two of them on the first page. *)
Definition stamped_two_pages : Widget :=
  with_stamps [mkStamp 1 0 (mkRect 0 0 100 50) [115%N] false;
               mkStamp 2 1 (mkRect 10 10 60 60) [116%N] false;
               mkStamp 3 0 (mkRect 200 200 260 230) [117%N] false] two_pages_widget.

End DocumentVocabulary.

(** ** The text lines of a page *)

Section PageLinesVocabulary.

Import Py Fitz Viewer TextLines PageLines.

(** No line of [lines] is duplicated by a later one. *)
Definition no_duplicates (lines : list LineInfo) : Prop :=
  ForallOrdPairs (fun a b => is_duplicate (line_bbox a) (line_bbox b) = false) lines.

(** A page on which the line ["Hi w"] was replaced by ["abc"]: the engine
    reports both, the newer one last, at nearly the same place. *)
Definition edited_rawdict (page : Page) : list Block :=
  [mkBlock (Some 0%Z)
     [mkRawLine [mkRawSpan (mkSpan 12 [glyph 72 0 10; glyph 105 12 22; glyph 119 60 70] [])
                   None None None] (mkRect 0 0 70 12);
      mkRawLine [mkRawSpan (mkSpan 12 [glyph 97 0 10; glyph 98 10 20; glyph 99 19 29] [])
                   None None None] (mkRect 0 1 29 12)]].

End PageLinesVocabulary.

(** ** Fonts, stamps and the document *)

Section FontVocabulary.

Import Py Fitz Viewer Fonts.
Import String.

(** The fonts PyMuPDF has built in, as [_map_to_fitz_font] names them. *)
Definition built_in_fonts : list str :=
  [lit "korea"; lit "china-s"; lit "cour"; lit "tiro"; lit "helv"].

(** A system that lowers ASCII letters, has no [WINDIR], joins paths with a
    slash, and has the font files [present]. *)
Definition system_with (present : list str) : System :=
  mkSystem TextWrap.lower None (fun a b => a ++ 47%N :: b)
    (fun path => existsb (str_eqb path) present).

(** The path of Arial on that system. *)
Definition arial_path : str := lit "C:\Windows/Fonts/arial.ttf".

(** The stamp [place_stamp_on_page] has appended, if it has. *)
Definition placed_stamps (id : Z) (w : Widget) : list Stamp :=
  filter (fun s => Z.eqb (stamp_id s) id) (_overlay_stamps (sel w)).

(** The stamp that [place_stamp_on_page] gives the second page of
    [stamped_two_pages] for an image of 200 x 100 pixels, and the widget with
    it. *)
Definition placed_on_page_1 (id : Z) : Stamp :=
  mkStamp id 1
    (mkRect (width (mkRect 0 0 600 400) / 2 - width (mkRect 0 0 600 400) * 0.15 / 2)
            (height (mkRect 0 0 600 400) / 2
             - width (mkRect 0 0 600 400) * 0.15 / (inject_Z 200 / inject_Z (Z.max 100 1)) / 2)
            (width (mkRect 0 0 600 400) / 2 + width (mkRect 0 0 600 400) * 0.15 / 2)
            (height (mkRect 0 0 600 400) / 2
             + width (mkRect 0 0 600 400) * 0.15 / (inject_Z 200 / inject_Z (Z.max 100 1)) / 2))
    [115%N] false.

Definition with_placed_stamp (id : Z) : Widget :=
  _snapshot_doc_bytes
    (with_stamps (_overlay_stamps (sel stamped_two_pages) ++ [placed_on_page_1 id])
       stamped_two_pages).

End FontVocabulary.

(** ** Rounding *)

Section RoundingVocabulary.

Import Py Fitz Rounding TextLines.

(** A rounding function with a relative error of at most [unit_roundoff], as
    binary64 has for every result in its normal range. *)
Definition accurate (rnd : Q -> Q) : Prop :=
  forall x : Q, Qabs (rnd x - x) <= unit_roundoff * Qabs x.

(** The rectangle lies within a million times its own width and height of
    the origin. *)
Definition near_origin (r : Rect) : Prop :=
  Qabs (x0 r) <= 1000000 * width r /\ Qabs (y0 r) <= 1000000 * height r.

(** One part in a thousand million. *)
Definition ratio_tolerance : Q := 1 # 1000000000.

(** The resize returns a rectangle with exactly the width/height ratio of the
    original one. *)
Definition ratio_preserved (rnd : Q -> Q) (orig : Rect) (anchor p : Point) (zoom : Q) : Prop :=
  forall r : Rect,
    Rounded.stamp_resize_rect rnd orig anchor p zoom = Some r ->
    width r / height r == width orig / height orig.

(** A 100 x 50 stamp whose bottom-right corner is the float nearest to
    (0.8, 50.3). *)
Definition anchored_corner : Point := mkPoint (round_binary64 0.8) (round_binary64 50.3).

Definition anchored_stamp : Rect :=
  mkRect (round_binary64 (-99.2)) (round_binary64 0.3) (round_binary64 0.8)
    (round_binary64 50.3).

(** The widths of the glyph boxes of a line. *)
Definition box_widths (rnd : Q -> Q) (l : list (CharInfo * Q)) : list Q :=
  flat_map (fun chfs => match bbox (fst chfs) with
                        | Some cb => [sub rnd (bbox_x1 cb) (bbox_x0 cb)]
                        | None => []
                        end) l.

(** The average glyph width of a line: the mean of the positive box widths,
    5.0 when there is none. *)
Definition average_glyph_width (rnd : Q -> Q) (l : list (CharInfo * Q)) : Q :=
  match filter (fun w => Qgtb w 0) (box_widths rnd l) with
  | [] => 5.0
  | ws => div rnd (fold_left (add rnd) ws 0) (inject_Z (Z.of_nat (length ws)))
  end.

(** 0.35 times the average glyph width. *)
Definition gap_threshold (rnd : Q -> Q) (l : list (CharInfo * Q)) : Q :=
  mul rnd (average_glyph_width rnd l) (rnd 0.35).

(** A character the loop writes nothing for: no box, or an empty [c]. *)
Definition not_written (ch : CharInfo) : Prop := bbox ch = None \/ c ch = [].

(** ["H"] at 0..10, ["i"] at 12..22, a character without a box, then ["w"] at
    60..70. *)
Definition line_hi_w_boxless : list Span :=
  [mkSpan 12 [glyph 72 0 10; glyph 105 12 22; mkChar [63%N] None; glyph 119 60 70] []].

End RoundingVocabulary.

(** Case analysis on the scrutinee of the first [match] of the goal. *)
Ltac break_match :=
  match goal with
  | |- context [match ?x with _ => _ end] => destruct x eqn:?
  end.

(** * Properties *)

(** ** Arithmetic of the embedding *)

Section NumberFacts.

Import Py.

Lemma Qltb_true (a b : Q) : Qltb a b = true <-> a < b.
Proof.
  unfold Qltb. destruct (Qlt_le_dec a b) as [H | H]; split; intro G; try easy.
  exfalso. apply (Qlt_irrefl a). apply Qlt_le_trans with b; assumption.
Qed.

Lemma Qltb_false (a b : Q) : Qltb a b = false <-> b <= a.
Proof.
  unfold Qltb. destruct (Qlt_le_dec a b) as [H | H]; split; intro G; try easy.
  exfalso. apply (Qlt_irrefl a). apply Qlt_le_trans with b; assumption.
Qed.

Lemma Qgtb_true (a b : Q) : Qgtb a b = true <-> b < a.
Proof. unfold Qgtb. apply Qltb_true. Qed.

Lemma Qgtb_false (a b : Q) : Qgtb a b = false <-> a <= b.
Proof. unfold Qgtb. apply Qltb_false. Qed.

Lemma Qltb_compat (a a' b b' : Q) : a == a' -> b == b' -> Qltb a b = Qltb a' b'.
Proof.
  intros Ha Hb. destruct (Qltb a' b') eqn:E.
  - apply Qltb_true. apply Qltb_true in E. rewrite Ha, Hb. exact E.
  - apply Qltb_false. apply Qltb_false in E. rewrite Ha, Hb. exact E.
Qed.

Lemma py_max_cases (a b : Q) : (a < b /\ py_max a b = b) \/ (b <= a /\ py_max a b = a).
Proof. unfold py_max. destruct (Qlt_le_dec a b); [left | right]; split; easy. Qed.

Lemma py_min_cases (a b : Q) : (b < a /\ py_min a b = b) \/ (a <= b /\ py_min a b = a).
Proof. unfold py_min. destruct (Qlt_le_dec b a); [left | right]; split; easy. Qed.

Lemma py_max_lb (a b : Q) : a <= py_max a b /\ b <= py_max a b.
Proof. destruct (py_max_cases a b) as [[H ->] | [H ->]]; split; lra. Qed.

End NumberFacts.

(** ** The render cache *)

Section RenderCacheFacts.

Import Py Viewer.

Lemma Qc_eqb_eq (a b : Qc) : Qc_eqb a b = true <-> a = b.
Proof.
  unfold Qc_eqb. rewrite Qeq_bool_iff. split.
  - apply Qc_is_canon.
  - intros ->. reflexivity.
Qed.

Lemma key_eqb_eq (a b : Key) : key_eqb a b = true <-> a = b.
Proof.
  destruct a as [p z], b as [p' z']. unfold key_eqb. simpl.
  rewrite andb_true_iff, Z.eqb_eq, Qc_eqb_eq. split.
  - intros [-> ->]. reflexivity.
  - intros H. inversion H. split; reflexivity.
Qed.

Lemma key_eqb_refl (a : Key) : key_eqb a a = true.
Proof. apply key_eqb_eq. reflexivity. Qed.

Lemma key_eqb_neq (a b : Key) : key_eqb a b = false <-> a <> b.
Proof.
  split.
  - intros E H. apply key_eqb_eq in H. congruence.
  - intros H. destruct (key_eqb a b) eqn:E; [| reflexivity].
    apply key_eqb_eq in E. contradiction.
Qed.

(** C1.  A render result delivered for a key that is no longer
    [(page_index, round(zoom, 3))] of the widget is discarded:
    [_on_render_finished] leaves the high-res cache and the low-res cache as
    they were. *)
Theorem stale_result_never_cached :
  forall (w : Widget) (image : QImage) (is_high_res : bool) (page_index : Z) (key : Key),
    key <> make_key page_index (_zoom (zs w)) ->
    _render_cache (rs (_on_render_finished image is_high_res page_index key w))
      = _render_cache (rs w)
    /\ _low_res_cache (rs (_on_render_finished image is_high_res page_index key w))
      = _low_res_cache (rs w).
Proof.
  intros w image is_high_res page_index key Hstale.
  apply key_eqb_neq in Hstale.
  unfold _on_render_finished. cbn [zs with_rs rs].
  rewrite Hstale. cbn. split; reflexivity.
Qed.

(** A result rendered for page 0 at zoom 2.0 arrives when the zoom is 1.0. *)
Lemma stale_result_never_cached_witness :
  _render_cache (rs (_on_render_finished (mkImage false 7 2.0) true 0 (make_key 0 2.0) init))
    = _render_cache (rs init)
  /\ _low_res_cache (rs (_on_render_finished (mkImage false 7 2.0) true 0 (make_key 0 2.0) init))
    = _low_res_cache (rs init).
Proof.
  apply (stale_result_never_cached init (mkImage false 7 2.0) true 0 (make_key 0 2.0)).
  intro H. apply key_eqb_eq in H. vm_compute in H. discriminate H.
Defined.


End RenderCacheFacts.

(** ** The zoom controller *)

Section ZoomFacts.

Import Py Viewer.

Lemma clamp_zoom_in_range (z : Q) : zoom_in_range (clamp_zoom z).
Proof.
  unfold clamp_zoom, zoom_in_range.
  destruct (py_min_cases z 8.0) as [[H1 ->] | [H1 ->]];
    [destruct (py_max_cases 0.1 8.0) as [[H2 ->] | [H2 ->]]
    | destruct (py_max_cases 0.1 z) as [[H2 ->] | [H2 ->]]]; lra.
Qed.

Lemma round_half_even_bounds (x : Q) (lo hi : Z) :
  inject_Z lo <= x -> x <= inject_Z hi -> (lo <= round_half_even x <= hi)%Z.
Proof.
  intros Hlo Hhi.
  assert (Hf1 : (lo <= Qfloor x)%Z).
  { rewrite <- (Qfloor_Z lo). apply Qfloor_resp_le. exact Hlo. }
  assert (Hf2 : (Qfloor x <= hi)%Z).
  { rewrite <- (Qfloor_Z hi). apply Qfloor_resp_le. exact Hhi. }
  unfold round_half_even.
  destruct (Z.eq_dec (Qfloor x) hi) as [E | E].
  - assert (Hx : x == inject_Z hi).
    { apply Qle_antisym; [exact Hhi |]. rewrite <- E. apply Qfloor_le. }
    assert (Hc : (x - inject_Z (Qfloor x) ?= 1 # 2) = Lt).
    { apply Qlt_alt. rewrite E, Hx.
      assert (Hz : inject_Z hi - inject_Z hi == 0) by ring.
      rewrite Hz. reflexivity. }
    rewrite Hc. lia.
  - destruct (x - inject_Z (Qfloor x) ?= 1 # 2); [destruct (Z.even (Qfloor x)) | |]; lia.
Qed.

Lemma py_round3_in_range (z : Q) : zoom_in_range z -> zoom_in_range (py_round3 z).
Proof.
  unfold zoom_in_range, py_round3. intros [H1 H2].
  destruct (round_half_even_bounds (z * 1000) 100 8000) as [G1 G2].
  - change (inject_Z 100) with 100%Q. lra.
  - change (inject_Z 8000) with 8000%Q. lra.
  - assert (K1 : inject_Z 100 <= inject_Z (round_half_even (z * 1000)))
      by (rewrite <- Zle_Qle; exact G1).
    assert (K2 : inject_Z (round_half_even (z * 1000)) <= inject_Z 8000)
      by (rewrite <- Zle_Qle; exact G2).
    change (inject_Z 100) with 100%Q in K1. change (inject_Z 8000) with 8000%Q in K2.
    split.
    + apply Qle_shift_div_l; lra.
    + apply Qle_shift_div_r; lra.
Qed.

(** What [_recalculate_layout] and the cache methods leave alone. *)
Lemma _recalculate_layout_zs (w : Widget) : zs (_recalculate_layout w) = zs w.
Proof.
  unfold _recalculate_layout.
  destruct (negb (doc_truthy (_doc (docs w)))); [reflexivity |].
  destruct (layout_loop _ _ _). reflexivity.
Qed.

Lemma set_zoom_in_range (z : Q) (w : Widget) : zooms_in_range w -> zooms_in_range (set_zoom z w).
Proof.
  intros H. unfold set_zoom.
  destruct (Qltb _ _); [exact H |].
  unfold zooms_in_range. cbn [zs with_zs _zoom _visual_zoom _zoom_target].
  rewrite _recalculate_layout_zs. cbn.
  pose proof (clamp_zoom_in_range z). tauto.
Qed.

Lemma wheelEvent_in_range (ctrl : bool) (pixel_y angle_y : Z) (w : Widget) :
  zooms_in_range w -> zooms_in_range (wheelEvent ctrl pixel_y angle_y w).
Proof.
  intros H. unfold wheelEvent. destruct ctrl; [| exact H].
  destruct H as (H1 & H2 & H3).
  unfold zooms_in_range. cbn [zs with_zs _zoom _visual_zoom _zoom_target].
  split; [exact H1 | split; [exact H2 | apply clamp_zoom_in_range]].
Qed.

Lemma _lerp_zoom_in_range (w : Widget) : zooms_in_range w -> zooms_in_range (_lerp_zoom w).
Proof.
  intros (H1 & H2 & H3). unfold _lerp_zoom.
  destruct (Qltb _ _); unfold zooms_in_range, zoom_in_range in *; cbn;
    repeat split; try tauto; lra.
Qed.

Lemma _on_zoom_finished_in_range (w : Widget) :
  zooms_in_range w -> zooms_in_range (_on_zoom_finished w).
Proof.
  intros (H1 & H2 & H3). unfold _on_zoom_finished.
  destruct (Qgtb _ _); unfold zooms_in_range; cbn [zs with_zs with_rs _zoom _visual_zoom _zoom_target].
  - rewrite _recalculate_layout_zs. cbn.
    pose proof (py_round3_in_range _ H3). tauto.
  - tauto.
Qed.

Lemma _on_zoom_settled_in_range (w : Widget) :
  zooms_in_range w -> zooms_in_range (_on_zoom_settled w).
Proof. intros H. exact H. Qed.

End ZoomFacts.

(** ** What each method leaves alone *)

Section FrameFacts.

Import Py Viewer.

Lemma _snapshot_doc_bytes_zs (w : Widget) : zs (_snapshot_doc_bytes w) = zs w.
Proof. unfold _snapshot_doc_bytes. destruct (doc_truthy _); reflexivity. Qed.

Lemma _snapshot_doc_bytes_rs (w : Widget) : rs (_snapshot_doc_bytes w) = rs w.
Proof. unfold _snapshot_doc_bytes. destruct (doc_truthy _); reflexivity. Qed.

Lemma _snapshot_doc_bytes_ms (w : Widget) : ms (_snapshot_doc_bytes w) = ms w.
Proof. unfold _snapshot_doc_bytes. destruct (doc_truthy _); reflexivity. Qed.

Lemma _snapshot_doc_bytes_te (w : Widget) : te (_snapshot_doc_bytes w) = te w.
Proof. unfold _snapshot_doc_bytes. destruct (doc_truthy _); reflexivity. Qed.

Lemma _snapshot_doc_bytes_doc (w : Widget) :
  _doc (docs (_snapshot_doc_bytes w)) = _doc (docs w).
Proof. unfold _snapshot_doc_bytes. destruct (doc_truthy _); reflexivity. Qed.

Lemma _commit_text_edit_zs (env : Env) (w : Widget) : zs (_commit_text_edit env w) = zs w.
Proof.
  unfold _commit_text_edit.
  repeat (break_match; try reflexivity).
  cbn [_invalidate_page zs with_rs with_te]. rewrite _snapshot_doc_bytes_zs. reflexivity.
Qed.

Lemma _exit_current_mode_zs (env : Env) (w : Widget) : zs (_exit_current_mode env w) = zs w.
Proof.
  unfold _exit_current_mode.
  repeat (break_match; try reflexivity); cbn [zs with_ms with_te];
    rewrite ?_commit_text_edit_zs; reflexivity.
Qed.

Lemma enter_text_placement_mode_zs (env : Env) (config : TextConfig) (w : Widget) :
  zs (enter_text_placement_mode env config w) = zs w.
Proof. unfold enter_text_placement_mode. cbn. apply _exit_current_mode_zs. Qed.

Lemma enter_crop_mode_zs (env : Env) (callback : Z) (w : Widget) :
  zs (enter_crop_mode env callback w) = zs w.
Proof. unfold enter_crop_mode. cbn. apply _exit_current_mode_zs. Qed.

Lemma enter_text_edit_mode_zs (env : Env) (w : Widget) :
  zs (enter_text_edit_mode env w) = zs w.
Proof. unfold enter_text_edit_mode. cbn. apply _exit_current_mode_zs. Qed.

Lemma burn_overlay_stamps_zs (env : Env) (w : Widget) : zs (burn_overlay_stamps env w) = zs w.
Proof. unfold burn_overlay_stamps. repeat (break_match; try reflexivity). Qed.

Lemma set_document_zs (doc : option Document) (file_path : str) (keep : bool) (w : Widget) :
  zs (set_document doc file_path keep w) = zs w.
Proof. unfold set_document. rewrite _recalculate_layout_zs. reflexivity. Qed.

Lemma _get_page_pixmap_zs (page_index target_w target_h : Z) (w : Widget) :
  zs (snd (_get_page_pixmap page_index target_w target_h w)) = zs w.
Proof.
  unfold _get_page_pixmap, _start_render_task.
  repeat (break_match; try reflexivity).
Qed.

Lemma _on_render_finished_zs (image : QImage) (is_high_res : bool) (page_index : Z)
    (key : Key) (w : Widget) :
  zs (_on_render_finished image is_high_res page_index key w) = zs w.
Proof. unfold _on_render_finished. repeat (break_match; try reflexivity). Qed.

End FrameFacts.

Section ZoomClamp.

Import Py Viewer.

Lemma handle_in_range (env : Env) (e : Event) (w : Widget) :
  zooms_in_range w -> zooms_in_range (handle env e w).
Proof.
  intros H. destruct e; cbn [handle].
  - unfold zooms_in_range. rewrite set_document_zs. exact H.
  - apply set_zoom_in_range. exact H.
  - apply wheelEvent_in_range. exact H.
  - unfold fire_lerp_timer. destruct (_lerp_timer (zs w)); [| exact H].
    apply _lerp_zoom_in_range. exact H.
  - unfold fire_zoom_timer. destruct (_zoom_timer (zs w)); [| exact H].
    apply _on_zoom_finished_in_range. exact H.
  - unfold fire_settle_timer. destruct (_zoom_settle_timer (zs w)); exact H.
  - unfold zooms_in_range. rewrite _get_page_pixmap_zs. exact H.
  - unfold zooms_in_range. rewrite _on_render_finished_zs. exact H.
  - exact H.
  - exact H.
  - unfold zooms_in_range. rewrite burn_overlay_stamps_zs. exact H.
  - unfold zooms_in_range. rewrite enter_text_placement_mode_zs. exact H.
  - unfold zooms_in_range. rewrite enter_crop_mode_zs. exact H.
  - unfold zooms_in_range. rewrite enter_text_edit_mode_zs. exact H.
Qed.

Lemma run_in_range (env : Env) (events : list Event) :
  forall w, zooms_in_range w -> zooms_in_range (run env events w).
Proof.
  induction events as [| e events IH]; intros w H.
  - exact H.
  - cbn. apply IH. apply handle_in_range. exact H.
Qed.

Lemma init_in_range : zooms_in_range init.
Proof. unfold zooms_in_range, zoom_in_range. cbn. lra. Qed.

(** C6.  Whatever sequence of events reaches a fresh widget ([set_zoom] calls,
    wheel events with or without the modifier, ticks of the interpolation,
    debounce commits, and the events that do not concern the zoom), the
    committed zoom, the visual zoom and the target zoom are within
    [[0.1, 8.0]] after each of them. *)
Theorem zoom_always_within_limits :
  forall (env : Env) (events : list Event),
    (0.1 <= _zoom (zs (run env events init)) /\ _zoom (zs (run env events init)) <= 8.0)
    /\ (0.1 <= _visual_zoom (zs (run env events init))
        /\ _visual_zoom (zs (run env events init)) <= 8.0)
    /\ (0.1 <= _zoom_target (zs (run env events init))
        /\ _zoom_target (zs (run env events init)) <= 8.0).
Proof.
  intros env events. apply (run_in_range env events init init_in_range).
Qed.

End ZoomClamp.

(** ** Resizing an overlay stamp *)

Section StampFacts.

Import Py Fitz Viewer.

Lemma py_max_0_pos (x : Q) : 0 < x -> py_max 0 x = x.
Proof. intros H. destruct (py_max_cases 0 x) as [[_ E] | [G _]]; [exact E | lra]. Qed.

Lemma width_pos_inv (r : Rect) : 0 < width r -> width r = x1 r - x0 r /\ 0 < x1 r - x0 r.
Proof.
  unfold width. intros H.
  destruct (py_max_cases 0 (x1 r - x0 r)) as [[G E] | [G E]]; rewrite E in *; [easy | lra].
Qed.

Lemma rect_truthy_of_width (r : Rect) : 0 < width r -> rect_truthy r = true.
Proof.
  intros H. apply width_pos_inv in H. destruct H as [_ H].
  unfold rect_truthy. apply negb_true_iff.
  destruct (Qeq_bool (x0 r) 0) eqn:E0; [| reflexivity].
  destruct (Qeq_bool (x1 r) 0) eqn:E1; [| now rewrite !andb_false_r].
  apply Qeq_bool_iff in E0, E1. lra.
Qed.

Lemma py_max_floor_pos (d m : Q) : 0 < m -> 0 < py_max d m.
Proof. intros H. pose proof (py_max_lb d m). lra. Qed.

Lemma Qdiv_pos (a b : Q) : 0 < a -> 0 < b -> 0 < a / b.
Proof. intros Ha Hb. apply Qlt_shift_div_l; [exact Hb | lra]. Qed.

(** [stamp_scene] is what [mousePressEvent] leaves on the bottom-right handle:
    the anchor is the top-left corner. *)
Example stamp_scene_anchor :
  opposite_corner (mkRect 0 0 100 50) (_resize_corner (sel stamp_scene))
  = Some (_resize_anchor (sel stamp_scene)).
Proof. reflexivity. Qed.

(** The scenario of the specification: the result is 140 x 70, not 140 x 60. *)
Lemma stamp_resize_scenario :
  exists r : Rect,
    stamp_resize_rect (mkRect 0 0 100 50) (mkPoint 0 0) (mkPoint 140 60) 1 = Some r
    /\ width r == 140 /\ height r == 70.
Proof. eexists. split; [vm_compute; reflexivity |]. split; vm_compute; reflexivity. Qed.

End StampFacts.

(** ** Rounding to binary64 *)

Section RoundingFacts.

Import Py Rounding.

Lemma round_half_even_near (y : Q) : Qabs (inject_Z (round_half_even y) - y) <= 1 # 2.
Proof.
  unfold round_half_even.
  pose proof (Qfloor_le y) as Hlo. pose proof (Qlt_floor y) as Hhi.
  rewrite inject_Z_plus in Hhi. change (inject_Z 1) with 1 in Hhi.
  apply Qabs_Qle_condition.
  destruct (Qcompare (y - inject_Z (Qfloor y)) (1 # 2)) eqn:E.
  - apply Qeq_alt in E.
    destruct (Z.even (Qfloor y)); [| rewrite inject_Z_plus; change (inject_Z 1) with 1];
      split; lra.
  - apply Qlt_alt in E. split; lra.
  - apply Qgt_alt in E. rewrite inject_Z_plus. change (inject_Z 1) with 1. split; lra.
Qed.

Lemma two_neq_0 : ~ 2 == 0.
Proof. intros H. discriminate H. Qed.

Lemma pow2_pos (e : Z) : 0 < 2 ^ e.
Proof. apply Qpower_0_lt. reflexivity. Qed.

Lemma pow2_log2_le (n : Z) : (0 < n)%Z -> 2 ^ Z.log2 n <= inject_Z n.
Proof.
  intros H. change 2 with (inject_Z 2).
  rewrite <- Zpower_Qpower by apply Z.log2_nonneg.
  rewrite <- Zle_Qle. apply Z.log2_spec. exact H.
Qed.

Lemma pow2_log2_gt (n : Z) : (0 < n)%Z -> inject_Z n <= 2 ^ (Z.log2 n + 1).
Proof.
  intros H. change 2 with (inject_Z 2).
  rewrite <- Zpower_Qpower by (pose proof (Z.log2_nonneg n); lia).
  rewrite <- Zle_Qle. pose proof (Z.log2_spec n H). unfold Z.succ in *. lia.
Qed.

Lemma floor_log2_le (x : Q) : 0 < x -> 2 ^ floor_log2 x <= x.
Proof.
  intros Hx. unfold floor_log2.
  destruct (Qle_bool (2 ^ (Z.log2 (Qnum x) - Z.log2 (Z.pos (Qden x)))) x) eqn:E.
  - apply Qle_bool_iff. exact E.
  - clear E. destruct x as [n d]. cbn [Qnum Qden] in *.
    assert (Hn : (0 < n)%Z) by (unfold Qlt in Hx; cbn in Hx; lia).
    replace (Z.log2 n - Z.log2 (Z.pos d) - 1)%Z
      with (Z.log2 n - (Z.log2 (Z.pos d) + 1))%Z by lia.
    rewrite Qpower_minus by exact two_neq_0.
    pose proof (pow2_log2_le n Hn) as H1.
    pose proof (pow2_log2_gt (Z.pos d) eq_refl) as H2.
    pose proof (pow2_pos (Z.log2 (Z.pos d) + 1)) as H3.
    apply Qle_shift_div_r; [exact H3 |].
    rewrite (Qmake_Qdiv n d).
    assert (Hd : 0 < inject_Z (Z.pos d)) by reflexivity.
    assert (Hn' : 0 < inject_Z n) by (rewrite Zlt_Qlt in Hn; exact Hn).
    apply Qle_trans with (inject_Z n); [exact H1 |].
    setoid_replace (inject_Z n / inject_Z (Z.pos d) * 2 ^ (Z.log2 (Z.pos d) + 1))
      with (inject_Z n * 2 ^ (Z.log2 (Z.pos d) + 1) / inject_Z (Z.pos d))
      by (field; lra).
    apply Qle_shift_div_l; [exact Hd |].
    apply Qmult_le_l; [exact Hn' | exact H2].
Qed.

Lemma Qabs_pos_of_neq (x : Q) : ~ x == 0 -> 0 < Qabs x.
Proof.
  intros H. apply Qabs_case; intros Hx.
  - apply Qle_lteq in Hx. destruct Hx as [Hx | Hx]; [exact Hx |].
    exfalso. apply H. symmetry. exact Hx.
  - apply Qle_lteq in Hx. destruct Hx as [Hx | Hx]; [lra |].
    exfalso. apply H. exact Hx.
Qed.

(** Rounding to binary64 moves a number by at most [unit_roundoff] times its
    magnitude. *)
Lemma round_binary64_accurate : accurate round_binary64.
Proof.
  intros x. unfold round_binary64.
  destruct (Qeq_bool x 0) eqn:E0.
  - apply Qeq_bool_iff in E0. rewrite E0. vm_compute. discriminate.
  - apply Qeq_bool_neq in E0.
    pose proof (Qabs_pos_of_neq x E0) as Hax.
    set (e := (floor_log2 (Qabs x) - 52)%Z).
    pose proof (pow2_pos e) as He.
    pose proof (round_half_even_near (Qabs x / 2 ^ e)) as Hm.
    set (m := inject_Z (round_half_even (Qabs x / 2 ^ e))) in *.
    pose proof (floor_log2_le (Qabs x) Hax) as Hlog.
    replace (floor_log2 (Qabs x)) with (e + 52)%Z in Hlog by (unfold e; lia).
    rewrite Qpower_plus in Hlog by exact two_neq_0.
    assert (Hd : Qabs (m * 2 ^ e - Qabs x) <= unit_roundoff * Qabs x).
    { setoid_replace (m * 2 ^ e - Qabs x) with ((m - Qabs x / 2 ^ e) * 2 ^ e)
        by (field; lra).
      rewrite Qabs_Qmult, (Qabs_pos (2 ^ e)) by lra.
      apply Qle_trans with ((1 # 2) * 2 ^ e).
      - apply Qmult_le_compat_r; [exact Hm | lra].
      - change (2 ^ 52) with (inject_Z 4503599627370496) in Hlog.
        apply Qle_trans with (unit_roundoff * (2 ^ e * inject_Z 4503599627370496)).
        + setoid_replace (unit_roundoff * (2 ^ e * inject_Z 4503599627370496))
            with ((1 # 2) * 2 ^ e); [apply Qle_refl |].
          setoid_replace unit_roundoff with ((1 # 2) * / inject_Z 4503599627370496)
            by reflexivity.
          field.
        + apply Qmult_le_l; [reflexivity | exact Hlog]. }
    destruct (Qle_bool 0 x) eqn:Es.
    + apply Qle_bool_iff in Es. rewrite (Qabs_pos x Es) in *.
      setoid_replace (1 * (m * 2 ^ e) - x) with (m * 2 ^ e - x) by ring. exact Hd.
    + assert (Hneg : x <= 0).
      { destruct (Qlt_le_dec x 0) as [H | H]; [lra |].
        apply Qle_bool_iff in H. congruence. }
      rewrite (Qabs_neg x Hneg) in *.
      setoid_replace (-1 * (m * 2 ^ e) - x) with (- (m * 2 ^ e - - x)) by ring.
      rewrite Qabs_opp. exact Hd.
Qed.

(** The floats nearest to 20/3 and to 0.35. *)
Example round_binary64_of_20_thirds :
  round_binary64 (20 / 3) == 7505999378950827 # 1125899906842624.
Proof. vm_compute. reflexivity. Qed.

Example round_binary64_of_0_35 :
  round_binary64 0.35 == 3152519739159347 # 9007199254740992.
Proof. vm_compute. reflexivity. Qed.

End RoundingFacts.

(** ** The aspect ratio of a resized stamp *)

Section RatioAlgebra.

Lemma scale (k x y : Q) : 0 <= k -> x <= y -> k * x <= k * y.
Proof.
  intros Hk H. rewrite !(Qmult_comm k). apply Qmult_le_compat_r; assumption.
Qed.

Lemma Qdiv_le_compat (x y d : Q) : 0 < d -> x <= y -> x / d <= y / d.
Proof.
  intros Hd H. unfold Qdiv. apply Qmult_le_compat_r; [exact H |].
  apply Qlt_le_weak, Qinv_lt_0_compat. exact Hd.
Qed.

(** [W], [H]: the width and the height of the new rectangle; [nw], [nh]: the
    new width and height the resize computes; [a]: the aspect it computes;
    [s] and [t]: the least and the greatest factor of one rounding; [v]: the
    relative distance of [W] from [nw] and of [H] from [nh]. *)
Lemma ratio_chain_upper (W H ow oh nw nh a s t v : Q) :
  0 < W -> 0 < H -> 0 < ow -> 0 < oh -> 0 < nw -> 0 < nh -> 0 < a ->
  0 < s -> 0 < t -> 0 <= v -> v < 1 ->
  (1 - v) * W <= nw -> nh <= (1 + v) * H ->
  s * nw <= nh * a ->
  s * (a * oh) <= t * t * ow ->
  (1 - v) * s * s * (W * oh) <= (1 + v) * t * t * (ow * H).
Proof.
  intros HW HH How Hoh Hnw Hnh Ha Hs Ht Hv Hv1 H1 H2 H3 H4.
  assert (K1 : 0 <= s * s * oh)
    by (apply Qlt_le_weak; repeat apply Qmult_lt_0_compat; assumption).
  assert (K2 : 0 <= s * oh)
    by (apply Qlt_le_weak; repeat apply Qmult_lt_0_compat; assumption).
  assert (K3 : 0 <= nh) by lra.
  assert (K4 : 0 <= t * t * ow)
    by (apply Qlt_le_weak; repeat apply Qmult_lt_0_compat; assumption).
  pose proof (scale _ _ _ K1 H1) as S1.
  pose proof (scale _ _ _ K2 H3) as S2.
  pose proof (scale _ _ _ K3 H4) as S3.
  pose proof (scale _ _ _ K4 H2) as S4.
  lra.
Qed.

Lemma ratio_chain_lower (W H ow oh nw nh a s t v : Q) :
  0 < W -> 0 < H -> 0 < ow -> 0 < oh -> 0 < nw -> 0 < nh -> 0 < a ->
  0 < s -> 0 < t -> 0 <= v -> v < 1 ->
  (1 - v) * H <= nh -> nw <= (1 + v) * W ->
  s * (nh * a) <= nw ->
  s * s * ow <= t * (a * oh) ->
  (1 - v) * s * s * s * (ow * H) <= (1 + v) * t * (W * oh).
Proof.
  intros HW HH How Hoh Hnw Hnh Ha Hs Ht Hv Hv1 H1 H2 H3 H4.
  assert (K1 : 0 <= s * s * s * ow)
    by (apply Qlt_le_weak; repeat apply Qmult_lt_0_compat; assumption).
  assert (K2 : 0 <= s * nh)
    by (apply Qlt_le_weak; repeat apply Qmult_lt_0_compat; assumption).
  assert (K3 : 0 <= t * oh)
    by (apply Qlt_le_weak; repeat apply Qmult_lt_0_compat; assumption).
  pose proof (scale _ _ _ K1 H1) as S1.
  pose proof (scale _ _ _ K2 H4) as S2.
  pose proof (scale _ _ _ K3 H3) as S3.
  pose proof (scale _ _ _ K3 H2) as S4.
  lra.
Qed.

End RatioAlgebra.

Section StampRatio.

Import Py Fitz Rounding.

Variable rnd : Q -> Q.
Hypothesis Hacc : accurate rnd.

Lemma accurate_pos (x : Q) :
  0 < x -> (1 - unit_roundoff) * x <= rnd x /\ rnd x <= (1 + unit_roundoff) * x.
Proof.
  intros Hx. pose proof (Hacc x) as H.
  rewrite (Qabs_pos x) in H by lra.
  apply Qabs_Qle_condition in H. unfold unit_roundoff in *. split; lra.
Qed.

Lemma accurate_gt_0 (x : Q) : 0 < x -> 0 < rnd x.
Proof.
  intros Hx. destruct (accurate_pos x Hx) as [H _].
  unfold unit_roundoff in H. lra.
Qed.

Lemma rounded_width (r : Rect) :
  0 < width r ->
  Rounded.width rnd r = rnd (x1 r - x0 r)
  /\ 0 < rnd (x1 r - x0 r)
  /\ (1 - unit_roundoff) * width r <= rnd (x1 r - x0 r)
  /\ rnd (x1 r - x0 r) <= (1 + unit_roundoff) * width r.
Proof.
  unfold width, Rounded.width, sub. intros H.
  destruct (py_max_cases 0 (x1 r - x0 r)) as [[G E] | [G E]]; rewrite E in *; [| lra].
  pose proof (accurate_gt_0 _ G) as Hp. destruct (accurate_pos _ G) as [Hl Hh].
  rewrite (py_max_0_pos _ Hp). repeat split; assumption.
Qed.

Lemma rounded_height (r : Rect) :
  0 < height r ->
  Rounded.height rnd r = rnd (y1 r - y0 r)
  /\ 0 < rnd (y1 r - y0 r)
  /\ (1 - unit_roundoff) * height r <= rnd (y1 r - y0 r)
  /\ rnd (y1 r - y0 r) <= (1 + unit_roundoff) * height r.
Proof.
  unfold height, Rounded.height, sub. intros H.
  destruct (py_max_cases 0 (y1 r - y0 r)) as [[G E] | [G E]]; rewrite E in *; [| lra].
  pose proof (accurate_gt_0 _ G) as Hp. destruct (accurate_pos _ G) as [Hl Hh].
  rewrite (py_max_0_pos _ Hp). repeat split; assumption.
Qed.

(** The aspect the resize computes from the rounded width [owc] and height
    [ohc], against the exact width [ow] and height [oh]. *)
Lemma rounded_aspect (ow oh owc ohc : Q) :
  0 < ow -> 0 < oh -> 0 < owc -> 0 < ohc ->
  (1 - unit_roundoff) * ow <= owc -> owc <= (1 + unit_roundoff) * ow ->
  (1 - unit_roundoff) * oh <= ohc -> ohc <= (1 + unit_roundoff) * oh ->
  0 < div rnd owc ohc
  /\ (1 - unit_roundoff) * (div rnd owc ohc * oh)
     <= (1 + unit_roundoff) * (1 + unit_roundoff) * ow
  /\ (1 - unit_roundoff) * (1 - unit_roundoff) * ow
     <= (1 + unit_roundoff) * (div rnd owc ohc * oh).
Proof.
  intros How Hoh Howc Hohc L1 U1 L2 U2. unfold div.
  assert (Hq : 0 < owc / ohc) by (apply Qlt_shift_div_l; lra).
  pose proof (accurate_gt_0 _ Hq) as Ha. destruct (accurate_pos _ Hq) as [La Ua].
  set (a := rnd (owc / ohc)) in *. set (q := owc / ohc) in *.
  assert (Eq : q * ohc == owc) by (unfold q; field; lra).
  split; [exact Ha |].
  assert (S1 : ohc * ((1 - unit_roundoff) * q) <= ohc * a) by (apply scale; lra).
  assert (S2 : ohc * a <= ohc * ((1 + unit_roundoff) * q)) by (apply scale; lra).
  assert (S3 : a * ((1 - unit_roundoff) * oh) <= a * ohc) by (apply scale; lra).
  assert (S4 : a * ohc <= a * ((1 + unit_roundoff) * oh)) by (apply scale; lra).
  assert (S5 : (1 - unit_roundoff) * ((1 - unit_roundoff) * ow) <= (1 - unit_roundoff) * owc)
    by (apply scale; [unfold unit_roundoff |]; lra).
  assert (S6 : (1 + unit_roundoff) * owc <= (1 + unit_roundoff) * ((1 + unit_roundoff) * ow))
    by (apply scale; [unfold unit_roundoff |]; lra).
  assert (E1 : ohc * ((1 - unit_roundoff) * q) == (1 - unit_roundoff) * owc)
    by (rewrite <- Eq; ring).
  assert (E2 : ohc * ((1 + unit_roundoff) * q) == (1 + unit_roundoff) * owc)
    by (rewrite <- Eq; ring).
  rewrite E1 in S1. rewrite E2 in S2.
  unfold unit_roundoff in *. split; lra.
Qed.

(** The new width [nw] and height [nh] against the aspect [a] the resize
    computes, and that aspect against the exact one. *)
Lemma stamp_resize_rect_sizes (orig : Rect) (anchor p : Point) (zoom : Q) :
  0 < width orig -> 0 < height orig -> 0 < zoom ->
  exists nx0 ny0 nw nh a : Q,
    Rounded.stamp_resize_rect rnd orig anchor p zoom
      = Some (mkRect nx0 ny0 (add rnd nx0 nw) (add rnd ny0 nh))
    /\ nx0 = (if Qltb (px p) (px anchor) then sub rnd (px anchor) nw else px anchor)
    /\ ny0 = (if Qltb (py p) (py anchor) then sub rnd (py anchor) nh else py anchor)
    /\ 0 < nw /\ 0 < nh /\ 0 < a
    /\ (1 - unit_roundoff) * nw <= nh * a
    /\ (1 - unit_roundoff) * (nh * a) <= nw
    /\ (1 - unit_roundoff) * (a * height orig)
       <= (1 + unit_roundoff) * (1 + unit_roundoff) * width orig
    /\ (1 - unit_roundoff) * (1 - unit_roundoff) * width orig
       <= (1 + unit_roundoff) * (a * height orig).
Proof.
  intros Hw Hh Hz.
  destruct (rounded_width orig Hw) as (Ew & Pw & Lw & Uw).
  destruct (rounded_height orig Hh) as (Eh & Ph & Lh & Uh).
  destruct (rounded_aspect (width orig) (height orig) _ _ Hw Hh Pw Ph Lw Uw Lh Uh)
    as (Pa & Ua & La).
  unfold Rounded.stamp_resize_rect. rewrite Ew, Eh.
  rewrite (proj2 (Qgtb_true _ _) Pw), (proj2 (Qgtb_true _ _) Ph). cbn [andb].
  set (a := div rnd (rnd (x1 orig - x0 orig)) (rnd (y1 orig - y0 orig))) in *.
  assert (Pm : 0 < div rnd 20 zoom).
  { unfold div. apply accurate_gt_0. apply Qlt_shift_div_l; lra. }
  set (m := div rnd 20 zoom) in *.
  set (dx := Qabs (sub rnd (px p) (px anchor))).
  set (dy := Qabs (sub rnd (py p) (py anchor))).
  destruct (Qgtb (div rnd dx a) dy).
  - pose proof (py_max_floor_pos dx m Pm) as Pnw. set (nw := py_max dx m) in *.
    assert (Pq : 0 < nw / a) by (apply Qlt_shift_div_l; lra).
    pose proof (accurate_gt_0 _ Pq) as Pnh. destruct (accurate_pos _ Pq) as [Lq Uq].
    fold (div rnd nw a) in Pnh, Lq, Uq. set (nh := div rnd nw a) in *.
    exists (if Qltb (px p) (px anchor) then sub rnd (px anchor) nw else px anchor),
           (if Qltb (py p) (py anchor) then sub rnd (py anchor) nh else py anchor),
           nw, nh, a.
    split; [reflexivity |]. split; [reflexivity |]. split; [reflexivity |].
    split; [exact Pnw |]. split; [exact Pnh |]. split; [exact Pa |].
    assert (Eq : nw / a * a == nw) by (field; lra).
    assert (S1 : a * ((1 - unit_roundoff) * (nw / a)) <= a * nh) by (apply scale; lra).
    assert (S2 : a * nh <= a * ((1 + unit_roundoff) * (nw / a))) by (apply scale; lra).
    assert (E1 : a * ((1 - unit_roundoff) * (nw / a)) == (1 - unit_roundoff) * nw)
      by (rewrite <- Eq at 2; ring).
    assert (E2 : a * ((1 + unit_roundoff) * (nw / a)) == (1 + unit_roundoff) * nw)
      by (rewrite <- Eq at 2; ring).
    rewrite E1 in S1. rewrite E2 in S2.
    assert (S3 : (1 - unit_roundoff) * (a * nh)
                 <= (1 - unit_roundoff) * ((1 + unit_roundoff) * nw))
      by (apply scale; [unfold unit_roundoff |]; lra).
    unfold unit_roundoff in *. repeat split; lra.
  - pose proof (py_max_floor_pos dy m Pm) as Pnh. set (nh := py_max dy m) in *.
    assert (Pq : 0 < nh * a) by (apply Qmult_lt_0_compat; assumption).
    pose proof (accurate_gt_0 _ Pq) as Pnw. destruct (accurate_pos _ Pq) as [Lq Uq].
    fold (mul rnd nh a) in Pnw, Lq, Uq. set (nw := mul rnd nh a) in *.
    exists (if Qltb (px p) (px anchor) then sub rnd (px anchor) nw else px anchor),
           (if Qltb (py p) (py anchor) then sub rnd (py anchor) nh else py anchor),
           nw, nh, a.
    split; [reflexivity |]. split; [reflexivity |]. split; [reflexivity |].
    split; [exact Pnw |]. split; [exact Pnh |]. split; [exact Pa |].
    assert (S3 : (1 - unit_roundoff) * nw
                 <= (1 - unit_roundoff) * ((1 + unit_roundoff) * (nh * a)))
      by (apply scale; [unfold unit_roundoff |]; lra).
    unfold unit_roundoff in *. repeat split; lra.
Qed.

(** The width of [Rect(nx0, _, nx0 + new_w, _)] against [new_w], for a
    rectangle within a million widths of the origin: the sum [nx0 + new_w] is
    rounded, and 1000001 / (2 ^ 53 - 1) bounds what that takes from or adds to
    the width. *)
Lemma corner_size (X nw : Q) :
  0 < nw ->
  Qabs X <= 1000000 * py_max 0 (add rnd X nw - X) ->
  0 < py_max 0 (add rnd X nw - X)
  /\ (1 - (1000001 # 9007199254740991)) * py_max 0 (add rnd X nw - X) <= nw
  /\ nw <= (1 + (1000001 # 9007199254740991)) * py_max 0 (add rnd X nw - X).
Proof.
  intros Hnw. unfold add. pose proof (Hacc (X + nw)) as HE.
  apply Qabs_Qle_condition in HE. unfold unit_roundoff in HE.
  set (x1' := rnd (X + nw)) in *.
  revert HE.
  apply (Qabs_case (X + nw)); intros HS HE;
    apply (Qabs_case X); intros HX HK;
    destruct (py_max_cases 0 (x1' - X)) as [[G E] | [G E]]; rewrite E in *;
    repeat split; lra.
Qed.

(** The corner [ (ax - new_w) + new_w ] against [ax]: both the difference and
    the sum are rounded. *)
Lemma anchor_drift (ax nw : Q) :
  Qabs (add rnd (sub rnd ax nw) nw - ax)
  <= (1 # 4503599627370496)
     * (Qabs (sub rnd ax nw) + Qabs (add rnd (sub rnd ax nw) nw)).
Proof.
  unfold add, sub.
  pose proof (Hacc (ax - nw)) as H1. set (a0 := rnd (ax - nw)) in *.
  pose proof (Hacc (a0 + nw)) as H2. set (a1 := rnd (a0 + nw)) in *.
  apply Qabs_Qle_condition in H1, H2. unfold unit_roundoff in *.
  revert H1 H2.
  apply (Qabs_case (ax - nw)); intros G1 H1;
    apply (Qabs_case (a0 + nw)); intros G2 H2;
    apply (Qabs_case a0); intros G3;
    apply (Qabs_case a1); intros G4;
    apply Qabs_Qle_condition; split; lra.
Qed.

End StampRatio.

Section StampRatioTheorems.

Import Py Fitz Viewer Rounding.

(** With no rounding, [Rounded.stamp_resize_rect] is [stamp_resize_rect]. *)
Lemma stamp_resize_rect_exact (orig : Rect) (anchor p : Point) (zoom : Q) :
  Rounded.stamp_resize_rect (fun x => x) orig anchor p zoom
  = stamp_resize_rect orig anchor p zoom.
Proof. reflexivity. Qed.

(** C9.  When a stamp whose original rectangle has positive width and height
    is resized at a positive zoom, whatever corner anchors the resize and
    wherever the pointer is, the resize returns a rectangle, and the
    width/height ratio of that rectangle is the original ratio up to
    rounding: for float arithmetic with a relative error of at most 2 ^ -53
    per operation, and a rectangle within a million times its own width and
    height of the origin, the two ratios differ by at most one part in a
    thousand million. *)
Theorem stamp_resize_preserves_aspect_ratio_up_to_rounding :
  forall (rnd : Q -> Q) (orig : Rect) (anchor p : Point) (zoom : Q),
    accurate rnd -> 0 < width orig -> 0 < height orig -> 0 < zoom ->
    exists r : Rect,
      Rounded.stamp_resize_rect rnd orig anchor p zoom = Some r
      /\ (near_origin r ->
          0 < height r
          /\ Qabs (width r / height r - width orig / height orig)
             <= ratio_tolerance * (width orig / height orig)).
Proof.
  intros rnd orig anchor p zoom Hacc Hw Hh Hz.
  destruct (stamp_resize_rect_sizes rnd Hacc orig anchor p zoom Hw Hh Hz)
    as (nx0 & ny0 & nw & nh & a & Hr & _ & _ & Pnw & Pnh & Pa & B1 & B2 & A1 & A2).
  set (ow := width orig) in *. set (oh := height orig) in *.
  eexists. split; [exact Hr |].
  unfold near_origin, width, height. cbn [x0 y0 x1 y1].
  intros [Hx Hy].
  destruct (corner_size rnd Hacc nx0 nw Pnw Hx) as (PW & LW & UW).
  destruct (corner_size rnd Hacc ny0 nh Pnh Hy) as (PH & LH & UH).
  set (W := py_max 0 (add rnd nx0 nw - nx0)) in *.
  set (H := py_max 0 (add rnd ny0 nh - ny0)) in *.
  split; [exact PH |].
  assert (Up := ratio_chain_upper W H ow oh nw nh a (1 - unit_roundoff) (1 + unit_roundoff)
                  (1000001 # 9007199254740991) PW PH Hw Hh Pnw Pnh Pa).
  assert (Lo := ratio_chain_lower W H ow oh nw nh a (1 - unit_roundoff) (1 + unit_roundoff)
                  (1000001 # 9007199254740991) PW PH Hw Hh Pnw Pnh Pa).
  unfold unit_roundoff in *.
  assert (Up' : (1 - (1000001 # 9007199254740991)) * (1 - (1 # 9007199254740992))
                * (1 - (1 # 9007199254740992)) * (W * oh)
                <= (1 + (1000001 # 9007199254740991)) * (1 + (1 # 9007199254740992))
                   * (1 + (1 # 9007199254740992)) * (ow * H))
    by (apply Up; lra).
  assert (Lo' : (1 - (1000001 # 9007199254740991)) * (1 - (1 # 9007199254740992))
                * (1 - (1 # 9007199254740992)) * (1 - (1 # 9007199254740992)) * (ow * H)
                <= (1 + (1000001 # 9007199254740991)) * (1 + (1 # 9007199254740992))
                   * (W * oh))
    by (apply Lo; lra).
  clear Up Lo.
  assert (Pd : 0 < H * oh) by (apply Qmult_lt_0_compat; assumption).
  assert (Pn : 0 < ow * H) by (apply Qmult_lt_0_compat; assumption).
  setoid_replace (W / H - ow / oh) with ((W * oh - ow * H) / (H * oh)) by (field; lra).
  setoid_replace (ratio_tolerance * (ow / oh)) with (ratio_tolerance * (ow * H) / (H * oh))
    by (field; lra).
  apply Qabs_Qle_condition. split.
  - setoid_replace (- (ratio_tolerance * (ow * H) / (H * oh)))
      with ((- (ratio_tolerance * (ow * H))) / (H * oh)) by (field; lra).
    apply Qdiv_le_compat; [exact Pd |]. unfold ratio_tolerance. lra.
  - apply Qdiv_le_compat; [exact Pd |]. unfold ratio_tolerance. lra.
Qed.

(** In binary64, the rectangle (10, 20, 40, 30), ratio 3, is resized from its
    top-left corner with the pointer at (17, 21), zoom 1. *)
Lemma stamp_resize_preserves_aspect_ratio_up_to_rounding_witness :
  exists r : Rect,
    Rounded.stamp_resize_rect round_binary64 (mkRect 10 20 40 30) (mkPoint 10 20)
      (mkPoint 17 21) 1 = Some r
    /\ (near_origin r ->
        0 < height r
        /\ Qabs (width r / height r - width (mkRect 10 20 40 30) / height (mkRect 10 20 40 30))
           <= ratio_tolerance * (width (mkRect 10 20 40 30) / height (mkRect 10 20 40 30))).
Proof.
  apply (stamp_resize_preserves_aspect_ratio_up_to_rounding round_binary64
           (mkRect 10 20 40 30) (mkPoint 10 20) (mkPoint 17 21) 1).
  - exact round_binary64_accurate.
  - vm_compute. reflexivity.
  - vm_compute. reflexivity.
  - vm_compute. reflexivity.
Defined.

(** That rectangle becomes 20 wide and 6.666666666666668 high: the new height
    is the float nearest to 20/3, 6.666666666666667, and adding it to 20 rounds
    again. *)
Example stamp_resize_of_ratio_3 :
  exists r : Rect,
    Rounded.stamp_resize_rect round_binary64 (mkRect 10 20 40 30) (mkPoint 10 20)
      (mkPoint 17 21) 1 = Some r
    /\ x0 r == 10 /\ y0 r == 20 /\ x1 r == 30
    /\ y1 r == 7505999378950827 # 281474976710656
    /\ near_origin r.
Proof.
  eexists. split; [vm_compute; reflexivity |].
  repeat split; vm_compute; (reflexivity || discriminate).
Qed.

(** In binary64 the ratio of that rectangle is not 3: the ratio is not
    preserved exactly. *)
Lemma stamp_resize_ratio_is_not_exact :
  ~ ratio_preserved round_binary64 (mkRect 10 20 40 30) (mkPoint 10 20) (mkPoint 17 21) 1.
Proof.
  intros H.
  destruct (Rounded.stamp_resize_rect round_binary64 (mkRect 10 20 40 30) (mkPoint 10 20)
              (mkPoint 17 21) 1) as [r |] eqn:E.
  - specialize (H r E). vm_compute in E. injection E as <-.
    vm_compute in H. discriminate H.
  - vm_compute in E. discriminate E.
Qed.

(** The scenario of the specification in binary64: the 100 x 50 stamp dragged
    to (140, 60) becomes 140 x 70 exactly. *)
Example stamp_resize_scenario_binary64 :
  exists r : Rect,
    Rounded.stamp_resize_rect round_binary64 (mkRect 0 0 100 50) (mkPoint 0 0)
      (mkPoint 140 60) 1 = Some r
    /\ x0 r == 0 /\ y0 r == 0 /\ x1 r == 140 /\ y1 r == 70.
Proof. eexists. split; [vm_compute; reflexivity |]. repeat split; vm_compute; reflexivity. Qed.

(** X21.  While a stamp with a rectangle of positive width and height is
    resized, the corner opposite the handle stays where it is.  On an axis
    where the pointer is not before the anchor, the rectangle starts exactly
    at the anchor.  On an axis where the pointer is before the anchor, the
    far edge is the anchor up to the rounding of one difference and one sum:
    for float arithmetic with a relative error of at most 2 ^ -53 per
    operation it is off by at most 2 ^ -52 times the sum of the magnitudes of
    the two edges. *)
Theorem stamp_resize_keeps_the_anchor :
  forall (rnd : Q -> Q) (orig : Rect) (anchor p : Point) (zoom : Q),
    accurate rnd -> 0 < width orig -> 0 < height orig -> 0 < zoom ->
    exists r : Rect,
      Rounded.stamp_resize_rect rnd orig anchor p zoom = Some r
      /\ (px anchor <= px p -> x0 r = px anchor)
      /\ (py anchor <= py p -> y0 r = py anchor)
      /\ (px p < px anchor ->
          Qabs (x1 r - px anchor) <= (1 # 4503599627370496) * (Qabs (x0 r) + Qabs (x1 r)))
      /\ (py p < py anchor ->
          Qabs (y1 r - py anchor) <= (1 # 4503599627370496) * (Qabs (y0 r) + Qabs (y1 r))).
Proof.
  intros rnd orig anchor p zoom Hacc Hw Hh Hz.
  destruct (stamp_resize_rect_sizes rnd Hacc orig anchor p zoom Hw Hh Hz)
    as (nx0 & ny0 & nw & nh & a & Hr & Ex & Ey & _).
  eexists. split; [exact Hr |]. cbn [x0 y0 x1 y1].
  split; [| split; [| split]].
  - intros H. apply Qltb_false in H. rewrite H in Ex. exact Ex.
  - intros H. apply Qltb_false in H. rewrite H in Ey. exact Ey.
  - intros H. apply Qltb_true in H. rewrite H in Ex. subst nx0.
    apply (anchor_drift rnd Hacc).
  - intros H. apply Qltb_true in H. rewrite H in Ey. subst ny0.
    apply (anchor_drift rnd Hacc).
Qed.

(** In binary64, a 100 x 50 stamp is resized from its bottom-right corner
    (0.8, 50.3) with the pointer at (0.1, 10.1), before the anchor on both
    axes. *)
Lemma stamp_resize_keeps_the_anchor_witness :
  exists r : Rect,
    Rounded.stamp_resize_rect round_binary64 anchored_stamp anchored_corner
      (mkPoint (round_binary64 0.1) (round_binary64 10.1)) 1 = Some r
    /\ (px anchored_corner <= round_binary64 0.1 -> x0 r = px anchored_corner)
    /\ (py anchored_corner <= round_binary64 10.1 -> y0 r = py anchored_corner)
    /\ (round_binary64 0.1 < px anchored_corner ->
        Qabs (x1 r - px anchored_corner)
        <= (1 # 4503599627370496) * (Qabs (x0 r) + Qabs (x1 r)))
    /\ (round_binary64 10.1 < py anchored_corner ->
        Qabs (y1 r - py anchored_corner)
        <= (1 # 4503599627370496) * (Qabs (y0 r) + Qabs (y1 r))).
Proof.
  apply (stamp_resize_keeps_the_anchor round_binary64 anchored_stamp anchored_corner
           (mkPoint (round_binary64 0.1) (round_binary64 10.1)) 1).
  - exact round_binary64_accurate.
  - vm_compute. reflexivity.
  - vm_compute. reflexivity.
  - vm_compute. reflexivity.
Defined.

(** There the right edge of the new rectangle is 0.7999999999999972, not the
    0.8 of the anchor. *)
Example stamp_resize_anchor_drifts :
  exists r : Rect,
    Rounded.stamp_resize_rect round_binary64 anchored_stamp anchored_corner
      (mkPoint (round_binary64 0.1) (round_binary64 10.1)) 1 = Some r
    /\ x1 r < px anchored_corner
    /\ px anchored_corner - x1 r < 1 # 100000000000000.
Proof. eexists. split; [vm_compute; reflexivity |]. split; vm_compute; reflexivity. Qed.

End StampRatioTheorems.

(** ** The layout engine *)

Section LayoutFacts.

Import Py Fitz Viewer.

Local Open Scope Z_scope.

Lemma py_int_nonneg (x : Q) : (0 <= x)%Q -> 0 <= py_int x.
Proof.
  intros H. unfold py_int. apply Z.quot_pos; [| lia].
  unfold Qle in H. cbn in H. lia.
Qed.

Lemma height_nonneg (r : Rect) : (0 <= height r)%Q.
Proof. unfold height. apply py_max_lb. Qed.

Lemma page_height_nonneg (r : Rect) (zoom : Q) : (0 <= zoom)%Q -> 0 <= py_int (height r * zoom).
Proof. intros H. apply py_int_nonneg. apply Qmult_le_0_compat; [apply height_nonneg | exact H]. Qed.

Lemma layout_loop_length (zoom : Q) (rects : list Rect) :
  forall y, length (fst (layout_loop zoom y rects)) = length rects.
Proof.
  induction rects as [| r rects IH]; intros y; cbn; [reflexivity |].
  specialize (IH (y + (py_int (height r * zoom) + PAGE_GAP))).
  destruct (layout_loop _ _ rects). cbn in *. now rewrite IH.
Qed.

(** Offsets start at [y] and each lies above the one before. *)
Lemma layout_loop_sorted (zoom : Q) (rects : list Rect) :
  (0 <= zoom)%Q ->
  forall y, Forall (fun o => y <= o) (fst (layout_loop zoom y rects))
            /\ StronglySorted Z.lt (fst (layout_loop zoom y rects)).
Proof.
  intros Hz. induction rects as [| r rects IH]; intros y; cbn.
  - split; constructor.
  - pose proof (page_height_nonneg r zoom Hz) as Hh.
    destruct (IH (y + (py_int (height r * zoom) + PAGE_GAP))) as [Hlb Hs].
    destruct (layout_loop _ _ rects) as [offsets heights]. cbn in *.
    unfold PAGE_GAP in *. split.
    + constructor; [lia |]. eapply Forall_impl; [| exact Hlb]. cbn. intros; lia.
    + constructor; [exact Hs |]. eapply Forall_impl; [| exact Hlb]. cbn. intros; lia.
Qed.

(** Reading a strictly sorted list by index. *)
Lemma sorted_nth_lt (a : list Z) :
  StronglySorted Z.lt a ->
  forall i j, (i < j < length a)%nat -> nth i a 0 < nth j a 0.
Proof.
  induction 1 as [| x a Hs IH Hall]; intros i j Hij; cbn in Hij; [lia |].
  destruct j as [| j]; [lia |]. destruct i as [| i]; cbn.
  - rewrite Forall_forall in Hall. apply Hall. apply nth_In. lia.
  - apply IH. lia.
Qed.

Lemma sorted_nth_le (a : list Z) :
  StronglySorted Z.lt a ->
  forall i j, (i <= j < length a)%nat -> nth i a 0 <= nth j a 0.
Proof.
  intros Hs i j Hij. destruct (Nat.eq_dec i j) as [-> | Hne]; [lia |].
  pose proof (sorted_nth_lt a Hs i j). lia.
Qed.

(** The loop of [bisect_right] keeps its bracket: everything left of the result
    is at most [x], everything from the result on is above [x]. *)
Lemma bisect_loop_spec (a : list Z) (x : Z) (lo hi : nat) :
  StronglySorted Z.lt a ->
  (lo <= hi <= length a)%nat ->
  (forall j, (j < lo)%nat -> nth j a 0 <= x) ->
  (forall j, (hi <= j < length a)%nat -> x < nth j a 0) ->
  (lo <= bisect_loop a x lo hi <= hi)%nat
  /\ (forall j, (j < bisect_loop a x lo hi)%nat -> nth j a 0 <= x)
  /\ (forall j, (bisect_loop a x lo hi <= j < length a)%nat -> x < nth j a 0).
Proof.
  intros Hs. funelim (bisect_loop a x lo hi); intros Hb Hlo Hhi.
  - clear Heqcall.
    pose proof (Nat.div_mod_eq (lo + hi) 2) as Hd.
    pose proof (Nat.mod_upper_bound (lo + hi) 2) as Hm.
    set (mid := ((lo + hi) / 2)%nat) in *.
    assert (Hmid : (lo <= mid < hi)%nat) by lia.
    destruct (x <? nth mid a 0) eqn:E.
    + apply Z.ltb_lt in E.
      destruct H as (G1 & G2 & G3); [exact Hs | lia | exact Hlo | |].
      * intros j Hj. destruct (Nat.eq_dec j mid) as [-> | Hne]; [exact E |].
        pose proof (sorted_nth_lt a Hs mid j). lia.
      * repeat split; try lia; assumption.
    + apply Z.ltb_ge in E.
      destruct H0 as (G1 & G2 & G3); [exact Hs | lia | | exact Hhi |].
      * intros j Hj. pose proof (sorted_nth_le a Hs j mid). lia.
      * repeat split; try lia; assumption.
  - repeat split; try lia; try assumption.
    intros j Hj. apply Hhi. lia.
Qed.

Lemma bisect_right_of_element (a : list Z) (i : nat) :
  StronglySorted Z.lt a -> (i < length a)%nat -> bisect_right a (nth i a 0) = S i.
Proof.
  intros Hs Hi. unfold bisect_right.
  destruct (bisect_loop_spec a (nth i a 0) 0 (length a))
    as (G1 & G2 & G3); try assumption; try lia.
  set (r := bisect_loop a (nth i a 0) 0 (length a)) in *.
  destruct (Nat.lt_trichotomy r (S i)) as [Hlt | [Heq | Hgt]]; [| exact Heq |].
  - specialize (G3 i). lia.
  - specialize (G2 (S i)).
    pose proof (sorted_nth_lt a Hs i (S i)). lia.
Qed.

End LayoutFacts.

Section LayoutInvariant.

Import Py Fitz Viewer.

Local Open Scope Z_scope.

Lemma _recalculate_layout_docs (w : Widget) : docs (_recalculate_layout w) = docs w.
Proof.
  unfold _recalculate_layout.
  destruct (negb (doc_truthy (_doc (docs w)))); [reflexivity |].
  destruct (layout_loop _ _ _). reflexivity.
Qed.

Lemma set_document_loaded (d : Document) (file_path : str) (keep : bool) (w : Widget) :
  loaded d (set_document (Some d) file_path keep w).
Proof.
  unfold loaded, set_document. rewrite _recalculate_layout_docs. cbn.
  split; [reflexivity |]. destruct d; reflexivity.
Qed.

Lemma _recalculate_layout_offsets (w : Widget) (d : Document) :
  loaded d w ->
  _page_offsets (layout (_recalculate_layout w))
    = fst (layout_loop (_zoom (zs w)) PAGE_GAP (map page_rect d)).
Proof.
  intros [Hd Hr]. unfold _recalculate_layout. rewrite Hd, Hr.
  destruct d as [| p d]; [reflexivity |]. cbn [doc_truthy negb].
  destruct (layout_loop _ _ _). reflexivity.
Qed.

(** C5.  For a loaded document and a zoom within [[0.1, 8.0]],
    [_recalculate_layout] leaves one offset per page, each offset below the
    next one, and [page_at_y] of the offset of page [i] is [i]. *)
Theorem layout_offsets_increasing_and_consistent :
  forall (w : Widget) (d : Document),
    loaded d w ->
    (0.1 <= _zoom (zs w))%Q -> (_zoom (zs w) <= 8.0)%Q ->
    length (_page_offsets (layout (_recalculate_layout w))) = length d
    /\ (forall i : nat, (S i < length d)%nat ->
          nth i (_page_offsets (layout (_recalculate_layout w))) 0
          < nth (S i) (_page_offsets (layout (_recalculate_layout w))) 0)
    /\ (forall i : nat, (i < length d)%nat ->
          page_at_y (_recalculate_layout w)
            (nth i (_page_offsets (layout (_recalculate_layout w))) 0) = Z.of_nat i).
Proof.
  intros w d Hl Hz1 Hz2.
  assert (Hz : (0 <= _zoom (zs w))%Q) by lra.
  pose proof (_recalculate_layout_offsets w d Hl) as Ho.
  destruct (layout_loop_sorted (_zoom (zs w)) (map page_rect d) Hz PAGE_GAP) as [_ Hs].
  pose proof (layout_loop_length (_zoom (zs w)) (map page_rect d) PAGE_GAP) as Hlen.
  rewrite length_map in Hlen.
  unfold page_at_y. rewrite Ho.
  set (offsets := fst (layout_loop (_zoom (zs w)) PAGE_GAP (map page_rect d))) in *.
  split; [exact Hlen |]. split.
  - intros i Hi. apply (sorted_nth_lt offsets Hs). lia.
  - intros i Hi.
    destruct offsets as [| o offsets'] eqn:E; [cbn in Hlen; lia |].
    rewrite <- E in *. rewrite bisect_right_of_element by (assumption || lia).
    lia.
Qed.

Lemma layout_offsets_increasing_and_consistent_witness :
  length (_page_offsets (layout (_recalculate_layout two_pages_widget))) = length two_pages
  /\ (forall i : nat, (S i < length two_pages)%nat ->
        nth i (_page_offsets (layout (_recalculate_layout two_pages_widget))) 0
        < nth (S i) (_page_offsets (layout (_recalculate_layout two_pages_widget))) 0)
  /\ (forall i : nat, (i < length two_pages)%nat ->
        page_at_y (_recalculate_layout two_pages_widget)
          (nth i (_page_offsets (layout (_recalculate_layout two_pages_widget))) 0)
        = Z.of_nat i).
Proof.
  apply (layout_offsets_increasing_and_consistent two_pages_widget two_pages).
  - apply set_document_loaded.
  - vm_compute. discriminate.
  - vm_compute. discriminate.
Defined.

(** The offsets of that layout, and the page found at each. *)
Example two_pages_layout :
  _page_offsets (layout two_pages_widget) = [16; 1232]
  /\ page_at_y two_pages_widget 16 = 0 /\ page_at_y two_pages_widget 1232 = 1
  /\ page_at_y two_pages_widget 1231 = 0 /\ page_at_y two_pages_widget 5000 = 1.
Proof. vm_compute. repeat split; reflexivity. Qed.

End LayoutInvariant.

(** ** Character wrapping *)

Section WrapFacts.

Import Py TextWrap.

Lemma split_lines_no_newline (s : str) : no_newline s -> split_lines s = [s].
Proof.
  induction 1 as [| ch s Hc Hs IH]; [reflexivity |].
  cbn. apply N.eqb_neq in Hc. rewrite Hc, IH. reflexivity.
Qed.

Lemma split_lines_app_newline (l s : str) :
  no_newline l -> split_lines (l ++ newline :: s) = l :: split_lines s.
Proof.
  induction 1 as [| ch l Hc Hl IH]; [reflexivity |].
  cbn. apply N.eqb_neq in Hc. rewrite Hc, IH. reflexivity.
Qed.

(** Splitting what was joined gives the lines back. *)
Lemma split_join_lines (ls : list str) :
  ls <> [] -> Forall no_newline ls -> split_lines (join_lines ls) = ls.
Proof.
  intros Hne Hall. induction Hall as [| l ls Hl Hls IH]; [contradiction |].
  destruct ls as [| l2 rest].
  - cbn. apply split_lines_no_newline. exact Hl.
  - change (join_lines (l :: l2 :: rest)) with (l ++ newline :: join_lines (l2 :: rest)).
    rewrite split_lines_app_newline by exact Hl.
    rewrite IH by discriminate. reflexivity.
Qed.

Lemma split_lines_pieces (s : str) : Forall no_newline (split_lines s).
Proof.
  induction s as [| ch s IH]; cbn.
  - repeat constructor.
  - destruct (N.eqb ch newline) eqn:E.
    + constructor; [constructor | exact IH].
    + apply N.eqb_neq in E. destruct (split_lines s) as [| l ls].
      * repeat constructor. exact E.
      * inversion IH; subst. constructor; [constructor; assumption | assumption].
Qed.

Lemma split_lines_nonempty (s : str) : split_lines s <> [].
Proof.
  destruct s as [| ch s]; cbn; [discriminate |].
  destruct (N.eqb ch newline); [discriminate |].
  destruct (split_lines s); discriminate.
Qed.

Lemma concat_split_lines (s : str) : concat (split_lines s) = without_newlines s.
Proof.
  induction s as [| ch s IH]; [reflexivity |].
  unfold without_newlines in *. cbn [split_lines filter].
  destruct (N.eqb ch newline) eqn:E; cbn [negb concat app].
  - exact IH.
  - rewrite <- IH. destruct (split_lines s); reflexivity.
Qed.

Lemma without_newlines_app (a b : str) :
  without_newlines (a ++ b) = without_newlines a ++ without_newlines b.
Proof. apply filter_app. Qed.

Lemma without_newlines_join (ls : list str) :
  without_newlines (join_lines ls) = without_newlines (concat ls).
Proof.
  induction ls as [| l ls IH]; [reflexivity |].
  destruct ls as [| l2 rest].
  - cbn. rewrite app_nil_r. reflexivity.
  - change (join_lines (l :: l2 :: rest)) with (l ++ newline :: join_lines (l2 :: rest)).
    change (concat (l :: l2 :: rest)) with (l ++ concat (l2 :: rest)).
    rewrite !without_newlines_app. f_equal.
    change (without_newlines (newline :: join_lines (l2 :: rest)))
      with (without_newlines (join_lines (l2 :: rest))).
    exact IH.
Qed.

Lemma without_newlines_idem (s : str) : without_newlines (without_newlines s) = without_newlines s.
Proof.
  unfold without_newlines. induction s as [| ch s IH]; [reflexivity |].
  cbn. destruct (negb (N.eqb ch newline)) eqn:E; cbn; rewrite ?E, IH; reflexivity.
Qed.

Variable char_w : char -> Q.
Variable limit : Q.

(** The loop only cuts: its pieces, put end to end, are what it was given. *)
Lemma wrap_chars_concat (line : str) :
  forall cur cur_w, concat (wrap_chars char_w limit cur cur_w line) = cur ++ line.
Proof.
  induction line as [| ch rest IH]; intros cur cur_w; cbn.
  - destruct cur; cbn; rewrite ?app_nil_r; reflexivity.
  - destruct (Qgtb (cur_w + char_w ch) limit && str_truthy cur); cbn.
    + rewrite IH. reflexivity.
    + rewrite IH, <- app_assoc. reflexivity.
Qed.

Lemma wrap_line_concat (line : str) : concat (wrap_line char_w limit line) = line.
Proof.
  destruct line as [| ch rest]; [reflexivity |].
  unfold wrap_line. rewrite wrap_chars_concat. reflexivity.
Qed.

Lemma wrap_lines_concat (text : str) :
  concat (wrap_lines char_w limit text) = without_newlines text.
Proof.
  unfold wrap_lines. rewrite <- concat_split_lines.
  induction (split_lines text) as [| l ls IH]; [reflexivity |].
  cbn. rewrite concat_app, wrap_line_concat, IH. reflexivity.
Qed.

Lemma wrap_lines_content (text : str) :
  without_newlines (join_lines (wrap_lines char_w limit text)) = without_newlines text.
Proof.
  rewrite without_newlines_join, wrap_lines_concat. apply without_newlines_idem.
Qed.

(** The measured width matters only up to equality of numbers. *)
Lemma wrap_chars_compat (line : str) :
  forall cur a b, a == b ->
    wrap_chars char_w limit cur a line = wrap_chars char_w limit cur b line.
Proof.
  induction line as [| ch rest IH]; intros cur a b Hab; cbn; [reflexivity |].
  assert (E : Qgtb (a + char_w ch) limit = Qgtb (b + char_w ch) limit).
  { unfold Qgtb. apply Qltb_compat; [reflexivity | rewrite Hab; reflexivity]. }
  rewrite E. destruct (Qgtb (b + char_w ch) limit && str_truthy cur); [reflexivity |].
  apply IH. rewrite Hab. reflexivity.
Qed.

Lemma wrap_chars_stable (line : str) :
  forall cur cur_w, continues char_w limit cur cur_w ->
    Forall (stable char_w limit) (wrap_chars char_w limit cur cur_w line).
Proof.
  induction line as [| ch rest IH]; intros cur cur_w Hc; cbn.
  - destruct cur as [| c0 cur'] eqn:E; cbn; [constructor |].
    constructor; [| constructor]. split; [discriminate |].
    specialize (Hc []). rewrite app_nil_r in Hc. exact Hc.
  - destruct (Qgtb (cur_w + char_w ch) limit && str_truthy cur) eqn:B.
    + constructor.
      * apply andb_true_iff in B. destruct B as [_ B].
        split; [destruct cur; [discriminate B | discriminate] |].
        specialize (Hc []). rewrite app_nil_r in Hc. rewrite Hc.
        destruct cur; [discriminate B | reflexivity].
      * apply IH. intros rest'. cbn. rewrite andb_false_r. cbn.
        apply wrap_chars_compat. ring.
    + apply IH. intros rest'. rewrite <- app_assoc. cbn [app].
      rewrite Hc. cbn. rewrite B. reflexivity.
Qed.

Lemma wrap_line_stable (line : str) :
  Forall (fun seg => seg = [] \/ stable char_w limit seg) (wrap_line char_w limit line).
Proof.
  destruct line as [| ch rest].
  - constructor; [left; reflexivity | constructor].
  - unfold wrap_line. eapply Forall_impl; [| apply wrap_chars_stable].
    + intros seg H. right. exact H.
    + intros rest'. reflexivity.
Qed.

Lemma wrap_lines_stable (text : str) :
  Forall (fun seg => seg = [] \/ stable char_w limit seg) (wrap_lines char_w limit text).
Proof.
  unfold wrap_lines. induction (split_lines text) as [| l ls IH]; [constructor |].
  cbn. apply Forall_app. split; [apply wrap_line_stable | exact IH].
Qed.

(** The pieces hold no line break, and there is at least one. *)
Lemma wrap_line_no_newline (line : str) :
  no_newline line -> Forall no_newline (wrap_line char_w limit line).
Proof.
  intros Hl. apply Forall_forall. intros seg Hin.
  unfold no_newline. apply Forall_forall. intros ch Hch.
  unfold no_newline in Hl. rewrite Forall_forall in Hl. apply Hl.
  rewrite <- (wrap_line_concat line). apply in_concat. exists seg. split; assumption.
Qed.

Lemma wrap_lines_no_newline (text : str) :
  Forall no_newline (wrap_lines char_w limit text).
Proof.
  unfold wrap_lines. pose proof (split_lines_pieces text) as H.
  induction H as [| l ls Hl Hls IH]; [constructor |].
  cbn. apply Forall_app. split; [apply wrap_line_no_newline; exact Hl | exact IH].
Qed.

Lemma wrap_line_nonempty (line : str) : wrap_line char_w limit line <> [].
Proof.
  destruct line as [| ch rest]; [discriminate |].
  intros H. pose proof (wrap_line_concat (ch :: rest)) as C. rewrite H in C. discriminate C.
Qed.

Lemma wrap_lines_nonempty (text : str) : wrap_lines char_w limit text <> [].
Proof.
  unfold wrap_lines. pose proof (split_lines_nonempty text) as H.
  destruct (split_lines text) as [| l ls]; [contradiction |].
  cbn. intros E. apply app_eq_nil in E. destruct E as [E _].
  exact (wrap_line_nonempty l E).
Qed.

(** Every line of the wrapped text is empty or stable. *)
Lemma wrapped_lines_stable (text line : str) :
  In line (split_lines (join_lines (wrap_lines char_w limit text))) ->
  line = [] \/ stable char_w limit line.
Proof.
  rewrite split_join_lines
    by (apply wrap_lines_nonempty || apply wrap_lines_no_newline).
  intros Hin. pose proof (wrap_lines_stable text) as H.
  rewrite Forall_forall in H. apply H. exact Hin.
Qed.

Lemma stable_no_newline_rewrap (seg : str) :
  no_newline seg -> stable char_w limit seg -> join_lines (wrap_lines char_w limit seg) = seg.
Proof.
  intros Hn [Hne Hs]. unfold wrap_lines. rewrite split_lines_no_newline by exact Hn.
  cbn. rewrite app_nil_r. destruct seg as [| ch rest]; [contradiction |].
  unfold wrap_line. rewrite Hs. reflexivity.
Qed.

Lemma wrapped_lines_no_newline (text line : str) :
  In line (split_lines (join_lines (wrap_lines char_w limit text))) -> no_newline line.
Proof.
  intros Hin. pose proof (split_lines_pieces (join_lines (wrap_lines char_w limit text))) as H.
  rewrite Forall_forall in H. apply H. exact Hin.
Qed.

End WrapFacts.

Section WrapTheorems.

Import Py TextWrap.

(** C10.  Wrapping only inserts line breaks: with every line break removed,
    the output of [_fitz_char_wrap_text], and of [_char_wrap_text], is the
    input with every line break removed. *)
Theorem char_wrap_preserves_content :
  forall (m : Metrics) (text : str) (max_width fontsize : Q) (fontname : str),
    without_newlines (_fitz_char_wrap_text m text max_width fontsize fontname)
      = without_newlines text
    /\ without_newlines (_char_wrap_text m text max_width fontsize fontname)
      = without_newlines text.
Proof.
  intros m text max_width fontsize fontname. split.
  - unfold _fitz_char_wrap_text.
    destruct (negb (str_truthy text) || Qle_bool max_width 0 || Qle_bool fontsize 0);
      [reflexivity | apply wrap_lines_content].
  - unfold _char_wrap_text.
    destruct (negb (str_truthy text) || Qle_bool max_width 0 || Qle_bool fontsize 0);
      [reflexivity | apply wrap_lines_content].
Qed.

(** C7.  Wrapping a line of the wrapped text again, with the same width, font
    size and font name, returns the line unchanged. *)
Theorem fitz_char_wrap_idempotent_per_line :
  forall (m : Metrics) (text : str) (max_width fontsize : Q) (fontname : str) (line : str),
    In line (split_lines (_fitz_char_wrap_text m text max_width fontsize fontname)) ->
    _fitz_char_wrap_text m line max_width fontsize fontname = line.
Proof.
  intros m text max_width fontsize fontname line.
  unfold _fitz_char_wrap_text.
  destruct (Qle_bool max_width 0 || Qle_bool fontsize 0) eqn:Eguard.
  - rewrite <- !orb_assoc, Eguard, !orb_true_r. reflexivity.
  - rewrite <- !orb_assoc, Eguard, !orb_false_r.
    destruct line as [| ch rest]; [reflexivity |].
    cbn [str_truthy negb].
    destruct (negb (str_truthy text)) eqn:Etext.
    + destruct text; [| discriminate Etext]. cbn. intros [H | []]. discriminate H.
    + intros Hin.
      set (cw := _char_width m fontname fontsize) in *.
      set (eff := if Qle_bool (max_width - 4.0) 0 then max_width else max_width - 4.0) in *.
      pose proof (wrapped_lines_no_newline cw eff text (ch :: rest) Hin) as Hn.
      destruct (wrapped_lines_stable cw eff text (ch :: rest) Hin) as [H | H];
        [discriminate H |].
      apply stable_no_newline_rewrap; assumption.
Qed.

Example fitz_wrap_abcdefg :
  _fitz_char_wrap_text six_wide abcdefg 24 12 name_cour
    = [97; 98; 99; 10; 100; 101; 102; 10; 103]%N.
Proof. vm_compute. reflexivity. Qed.

Lemma fitz_char_wrap_idempotent_per_line_witness :
  _fitz_char_wrap_text six_wide [100; 101; 102]%N 24 12 name_cour = [100; 101; 102]%N.
Proof.
  apply (fitz_char_wrap_idempotent_per_line six_wide abcdefg 24 12 name_cour
           [100; 101; 102]%N).
  vm_compute. right. left. reflexivity.
Defined.

End WrapTheorems.

(** ** Line text from glyph boxes *)

Section LineTextFacts.

Import Py TextLines.

Lemma build_parts_app (threshold : Q) (l1 l2 : list (CharInfo * Q)) :
  forall prev_x1,
    build_parts threshold prev_x1 (l1 ++ l2)
    = build_parts threshold prev_x1 l1 ++ build_parts threshold (prev_after prev_x1 l1) l2.
Proof.
  induction l1 as [| [ch fs] l1 IH]; intros prev_x1; cbn; [reflexivity |].
  destruct (bbox ch) as [cb |]; [| apply IH].
  destruct (str_truthy (c ch)); [| apply IH].
  rewrite IH, <- app_assoc. reflexivity.
Qed.

Lemma prev_after_app (l1 l2 : list (CharInfo * Q)) :
  forall prev_x1, prev_after prev_x1 (l1 ++ l2) = prev_after (prev_after prev_x1 l1) l2.
Proof.
  induction l1 as [| [ch fs] l1 IH]; intros prev_x1; cbn; [reflexivity |].
  destruct (bbox ch) as [cb |]; [| apply IH].
  destruct (str_truthy (c ch)); apply IH.
Qed.

Lemma _extract_line_text_from_chars_parts (spans : list Span) :
  all_chars spans <> [] ->
  _extract_line_text_from_chars spans
  = strip (join_empty (build_parts (space_threshold (all_chars spans)) None (all_chars spans))).
Proof.
  intros H. unfold _extract_line_text_from_chars.
  destruct spans as [| sp spans]; [contradiction H; reflexivity |].
  destruct (all_chars (sp :: spans)); [contradiction H; reflexivity | reflexivity].
Qed.

Example line_hi_w_text : _extract_line_text_from_chars line_hi_w = [72; 105; 32; 119]%N.
Proof. vm_compute. reflexivity. Qed.

End LineTextFacts.

(** ** The space threshold *)

Section RoundedLineTextFacts.

Import Py TextLines Rounding.

Variable rnd : Q -> Q.

Lemma rounded_widths_box_widths (l : list (CharInfo * Q)) :
  Rounded.widths rnd l = filter (fun w => Qgtb w 0) (box_widths rnd l).
Proof.
  induction l as [| [ch fs] l IH]; cbn; [reflexivity |].
  destruct (bbox ch) as [cb |]; cbn; [| exact IH].
  destruct (Qgtb (sub rnd (bbox_x1 cb) (bbox_x0 cb)) 0); rewrite IH; reflexivity.
Qed.

(** When every box of the line has a positive width, the average is taken
    over all of them. *)
Lemma average_glyph_width_all_positive (l : list (CharInfo * Q)) :
  Forall (fun w => 0 < w) (box_widths rnd l) ->
  average_glyph_width rnd l
  = match box_widths rnd l with
    | [] => 5.0
    | ws => div rnd (fold_left (add rnd) ws 0) (inject_Z (Z.of_nat (length ws)))
    end.
Proof.
  intros H. unfold average_glyph_width.
  replace (filter (fun w => Qgtb w 0) (box_widths rnd l)) with (box_widths rnd l);
    [reflexivity |].
  induction H as [| w ws Hw _ IH]; cbn; [reflexivity |].
  rewrite (proj2 (Qgtb_true w 0) Hw), <- IH. reflexivity.
Qed.

Lemma rounded_space_threshold (l : list (CharInfo * Q)) :
  Rounded.space_threshold rnd l = gap_threshold rnd l.
Proof.
  unfold Rounded.space_threshold, gap_threshold, Rounded.avg_char_w, average_glyph_width,
    Rounded.py_sum.
  rewrite rounded_widths_box_widths. reflexivity.
Qed.

Lemma rounded_build_parts_app (threshold : Q) (l1 l2 : list (CharInfo * Q)) :
  forall prev_x1,
    Rounded.build_parts rnd threshold prev_x1 (l1 ++ l2)
    = Rounded.build_parts rnd threshold prev_x1 l1
      ++ Rounded.build_parts rnd threshold (prev_after prev_x1 l1) l2.
Proof.
  induction l1 as [| [ch fs] l1 IH]; intros prev_x1; cbn; [reflexivity |].
  destruct (bbox ch) as [cb |]; [| apply IH].
  destruct (str_truthy (c ch)); [| apply IH].
  rewrite IH, <- app_assoc. reflexivity.
Qed.

(** Characters without a box or without text write nothing and leave
    [prev_x1] alone. *)
Lemma rounded_build_parts_not_written (threshold : Q) (mid : list (CharInfo * Q)) :
  Forall (fun chfs => not_written (fst chfs)) mid ->
  forall prev_x1,
    Rounded.build_parts rnd threshold prev_x1 mid = []
    /\ prev_after prev_x1 mid = prev_x1.
Proof.
  induction 1 as [| [ch fs] mid Hch _ IH]; intros prev_x1; cbn; [split; reflexivity |].
  destruct Hch as [Hb | Hc]; cbn [fst] in *.
  - rewrite Hb. apply IH.
  - rewrite Hc. cbn [str_truthy]. destruct (bbox ch); apply IH.
Qed.

(** The part of a kept character is the last one written for the characters up
    to it. *)
Lemma rounded_build_parts_snoc_kept (threshold : Q) (pre : list (CharInfo * Q))
    (g : CharInfo) (fs : Q) (b : Q * Q * Q * Q) :
  bbox g = Some b -> str_truthy (c g) = true ->
  exists before,
    Rounded.build_parts rnd threshold None (pre ++ [(g, fs)]) = before ++ [c g]
    /\ prev_after None (pre ++ [(g, fs)]) = Some (bbox_x1 b).
Proof.
  intros Hb Hc. rewrite rounded_build_parts_app, prev_after_app. cbn. rewrite Hb, Hc.
  eexists. split; [| reflexivity].
  rewrite app_assoc. reflexivity.
Qed.

Lemma rounded_extract_parts (spans : list Span) :
  all_chars spans <> [] ->
  Rounded._extract_line_text_from_chars rnd spans
  = strip (join_empty (Rounded.build_parts rnd (gap_threshold rnd (all_chars spans)) None
                         (all_chars spans))).
Proof.
  intros H. unfold Rounded._extract_line_text_from_chars.
  rewrite <- rounded_space_threshold.
  destruct spans as [| sp spans]; [contradiction H; reflexivity |].
  destruct (all_chars (sp :: spans)); [contradiction H; reflexivity | reflexivity].
Qed.

End RoundedLineTextFacts.

Section RoundedLineTextTheorems.

Import Py TextLines Rounding.

Lemma widths_exact (l : list (CharInfo * Q)) : Rounded.widths (fun x => x) l = widths l.
Proof.
  induction l as [| [ch fs] l IH]; cbn; [reflexivity |].
  destruct (bbox ch) as [cb |]; [| exact IH].
  unfold sub. destruct (Qgtb (bbox_x1 cb - bbox_x0 cb) 0); rewrite IH; reflexivity.
Qed.

Lemma build_parts_exact (threshold : Q) (l : list (CharInfo * Q)) :
  forall prev_x1,
    Rounded.build_parts (fun x => x) threshold prev_x1 l = build_parts threshold prev_x1 l.
Proof.
  induction l as [| [ch fs] l IH]; intros prev_x1; cbn; [reflexivity |].
  destruct (bbox ch) as [cb |]; [| apply IH].
  destruct (str_truthy (c ch)); [| apply IH].
  rewrite IH. reflexivity.
Qed.

(** With no rounding, [Rounded._extract_line_text_from_chars] is
    [_extract_line_text_from_chars]. *)
Lemma _extract_line_text_from_chars_exact (spans : list Span) :
  Rounded._extract_line_text_from_chars (fun x => x) spans
  = _extract_line_text_from_chars spans.
Proof.
  unfold Rounded._extract_line_text_from_chars, _extract_line_text_from_chars.
  destruct spans as [| sp spans]; [reflexivity |].
  destruct (all_chars (sp :: spans)) as [| x l]; [reflexivity |].
  rewrite build_parts_exact.
  unfold Rounded.space_threshold, space_threshold, Rounded.avg_char_w, avg_char_w.
  rewrite widths_exact. reflexivity.
Qed.

(** C8.  Let [g] and [g'] be two characters of a line, both with a box and a
    non-empty [c], with nothing between them but characters that have no box
    or no text, and let the gap be the leading edge of [g'] minus the trailing
    edge of [g].  The reconstructed text is [strip] of the parts written up to
    [g], whose last part is [c g], then the separator, then [c g'] and the
    parts of the characters after it.  The separator is exactly one space when
    the gap exceeds 0.35 times the average glyph width of the line, and nothing
    when it does not, however large the gap is.  The average is the mean of the
    positive box widths of the line (5.0 when there is none); it, the threshold
    and the gap are the floats the program computes, whatever the rounding
    [rnd] of its arithmetic. *)
Theorem space_inserted_iff_gap_exceeds_threshold :
  forall (rnd : Q -> Q) (spans : list Span) (pre mid post : list (CharInfo * Q))
         (g g' : CharInfo) (fs fs' : Q) (b b' : Q * Q * Q * Q),
    all_chars spans = pre ++ (g, fs) :: mid ++ (g', fs') :: post ->
    bbox g = Some b -> bbox g' = Some b' ->
    c g <> [] -> c g' <> [] ->
    Forall (fun chfs => not_written (fst chfs)) mid ->
    exists (before separator : list str),
      Rounded.build_parts rnd (gap_threshold rnd (all_chars spans)) None (pre ++ [(g, fs)])
        = before ++ [c g]
      /\ Rounded._extract_line_text_from_chars rnd spans
         = strip (join_empty
             ((before ++ [c g]) ++ separator ++ c g'
                :: Rounded.build_parts rnd (gap_threshold rnd (all_chars spans))
                     (Some (bbox_x1 b')) post))
      /\ (gap_threshold rnd (all_chars spans) < sub rnd (bbox_x0 b') (bbox_x1 b) ->
          separator = [[space]])
      /\ (sub rnd (bbox_x0 b') (bbox_x1 b) <= gap_threshold rnd (all_chars spans) ->
          separator = []).
Proof.
  intros rnd spans pre mid post g g' fs fs' b b' Hall Hb Hb' Hc Hc' Hmid.
  assert (Hk : str_truthy (c g) = true) by (destruct (c g); [contradiction | reflexivity]).
  assert (Hk' : str_truthy (c g') = true) by (destruct (c g'); [contradiction | reflexivity]).
  set (thr := gap_threshold rnd (all_chars spans)).
  destruct (rounded_build_parts_snoc_kept rnd thr pre g fs b Hb Hk) as (before & Hbefore & Hprev).
  exists before.
  exists (if Qgtb (sub rnd (bbox_x0 b') (bbox_x1 b)) thr then [[space]] else []).
  split; [exact Hbefore |]. split; [| split].
  - rewrite rounded_extract_parts by (rewrite Hall; destruct pre; discriminate).
    fold thr. f_equal. f_equal.
    rewrite Hall.
    change (pre ++ (g, fs) :: mid ++ (g', fs') :: post)
      with (pre ++ [(g, fs)] ++ mid ++ (g', fs') :: post).
    rewrite app_assoc, rounded_build_parts_app, Hprev, Hbefore.
    rewrite rounded_build_parts_app.
    destruct (rounded_build_parts_not_written rnd thr mid Hmid (Some (bbox_x1 b)))
      as [-> ->].
    cbn [app Rounded.build_parts]. rewrite Hb', Hk'. reflexivity.
  - intros Hgap. apply Qgtb_true in Hgap. rewrite Hgap. reflexivity.
  - intros Hgap. apply Qgtb_false in Hgap. rewrite Hgap. reflexivity.
Qed.

(** In binary64: the glyphs are 10 wide, the threshold is 3.5; between ["i"]
    and ["w"], which a character without a box separates, the gap is 38. *)
Example line_hi_w_boxless_text :
  Rounded._extract_line_text_from_chars round_binary64 line_hi_w_boxless
  = [72; 105; 32; 119]%N
  /\ gap_threshold round_binary64 (all_chars line_hi_w_boxless) == 3.5.
Proof. split; vm_compute; reflexivity. Qed.

(** The threshold is the float the program computes: for a glyph 3 wide it is
    1.0499999999999998, the product of 3 and the float nearest to 0.35, not
    the rational 1.05. *)
Example gap_threshold_of_width_3 :
  gap_threshold round_binary64 [(glyph 72 0 3, 12)] == 1182194902184755 # 1125899906842624
  /\ gap_threshold round_binary64 [(glyph 72 0 3, 12)] < 0.35 * 3.
Proof. split; vm_compute; reflexivity. Qed.

Lemma space_inserted_iff_gap_exceeds_threshold_witness :
  exists (before separator : list str),
    Rounded.build_parts round_binary64
      (gap_threshold round_binary64 (all_chars line_hi_w_boxless)) None
      ([(glyph 72 0 10, 12)] ++ [(glyph 105 12 22, 12)]) = before ++ [c (glyph 105 12 22)]
    /\ Rounded._extract_line_text_from_chars round_binary64 line_hi_w_boxless
       = strip (join_empty
           ((before ++ [c (glyph 105 12 22)]) ++ separator ++ c (glyph 119 60 70)
              :: Rounded.build_parts round_binary64
                   (gap_threshold round_binary64 (all_chars line_hi_w_boxless))
                   (Some (bbox_x1 (60, 0, 70, 12))) []))
    /\ (gap_threshold round_binary64 (all_chars line_hi_w_boxless)
        < sub round_binary64 (bbox_x0 (60, 0, 70, 12)) (bbox_x1 (12, 0, 22, 12)) ->
        separator = [[space]])
    /\ (sub round_binary64 (bbox_x0 (60, 0, 70, 12)) (bbox_x1 (12, 0, 22, 12))
        <= gap_threshold round_binary64 (all_chars line_hi_w_boxless) ->
        separator = []).
Proof.
  apply (space_inserted_iff_gap_exceeds_threshold round_binary64 line_hi_w_boxless
           [(glyph 72 0 10, 12)] [(mkChar [63%N] None, 12)] []
           (glyph 105 12 22) (glyph 119 60 70) 12 12 (12, 0, 22, 12) (60, 0, 70, 12)).
  - reflexivity.
  - reflexivity.
  - reflexivity.
  - discriminate.
  - discriminate.
  - constructor; [left; reflexivity | constructor].
Defined.

End RoundedLineTextTheorems.

(** ** The interaction modes *)

Section ModeFacts.

Import Py Fitz Viewer.

Lemma _commit_text_edit_ms (env : Env) (w : Widget) : ms (_commit_text_edit env w) = ms w.
Proof.
  unfold _commit_text_edit.
  repeat (break_match; try reflexivity).
  cbn [_invalidate_page ms with_rs with_te]. rewrite _snapshot_doc_bytes_ms. reflexivity.
Qed.

Lemma _commit_text_edit_closes_editor (env : Env) (w : Widget) :
  _text_edit_widget (te (_commit_text_edit env w)) = None.
Proof.
  unfold _commit_text_edit.
  repeat (break_match; try reflexivity; try assumption).
  cbn [_invalidate_page te with_rs with_te _text_edit_widget].
  rewrite _snapshot_doc_bytes_te. reflexivity.
Qed.

Lemma _exit_current_mode_normal (env : Env) (w : Widget) :
  mode (ms (_exit_current_mode env w)) = MODE_NORMAL.
Proof. unfold _exit_current_mode. destruct (mode (ms w)) eqn:E; [exact E | | |]; reflexivity. Qed.

Lemma _exit_current_mode_of_normal (env : Env) (w : Widget) :
  mode (ms w) = MODE_NORMAL -> _exit_current_mode env w = w.
Proof. intros H. unfold _exit_current_mode. rewrite H. reflexivity. Qed.

Lemma _exit_current_mode_idempotent (env : Env) (w : Widget) :
  _exit_current_mode env (_exit_current_mode env w) = _exit_current_mode env w.
Proof. apply _exit_current_mode_of_normal. apply _exit_current_mode_normal. Qed.

Lemma nth_error_replace_nth {A} (l : list A) :
  forall (n : nat) (x y : A), nth_error l n = Some y -> nth_error (replace_nth n x l) n = Some x.
Proof.
  induction l as [| a l IH]; intros [| n] x y H; cbn in *; try discriminate; [reflexivity |].
  eapply IH. exact H.
Qed.

(** What a commit writes when the edit changes the line to a non-blank text
    and the engine accepts both drawing calls. *)
Lemma _commit_text_edit_writes (env : Env) (w : Widget) (editor : QLineEdit) (li : LineInfo)
    (d : Document) (page : Page) :
  _text_edit_widget (te w) = Some editor ->
  _text_edit_line_info (te w) = Some li ->
  _doc (docs w) = Some d ->
  nth_error d (Z.to_nat (_text_edit_page (te w))) = Some page ->
  (0 <= _text_edit_page (te w))%Z ->
  editor_text editor <> line_text li ->
  strip (editor_text editor) <> [] ->
  engine_accepts env page (cover_op env page li) = true ->
  engine_accepts env (add_op (cover_op env page li) page)
    (insert_op env page li (editor_text editor)) = true ->
  reflects_text (_doc (docs (_commit_text_edit env w))) (_text_edit_page (te w))
    (editor_text editor).
Proof.
  intros Hw Hli Hd Hpage Hp0 Hneq Hblank Hcover Hinsert.
  assert (Hlt : (_text_edit_page (te w) < page_count d)%Z).
  { unfold page_count.
    assert (Z.to_nat (_text_edit_page (te w)) < length d)%nat
      by (apply nth_error_Some; rewrite Hpage; discriminate).
    lia. }
  assert (Hslot : page_slot d (_text_edit_page (te w)) = Z.to_nat (_text_edit_page (te w))).
  { unfold page_slot. rewrite Z.mod_small by lia. reflexivity. }
  unfold _commit_text_edit. rewrite Hw, Hli. cbn [docs with_te].
  assert (E1 : str_eqb (editor_text editor) (line_text li) = false).
  { unfold str_eqb. destruct (list_eq_dec N.eq_dec _ _); [contradiction | reflexivity]. }
  assert (E2 : str_truthy (strip (editor_text editor)) = true).
  { unfold str_truthy. destruct (strip (editor_text editor)); [contradiction | reflexivity]. }
  rewrite E1, E2, Hd. cbn [orb negb].
  destruct d as [| p0 d0]; [destruct (Z.to_nat _); discriminate Hpage |].
  assert (E3 : (page_count (p0 :: d0) <=? _text_edit_page (te w))%Z = false)
    by (apply Z.leb_gt; exact Hlt).
  rewrite E3.
  cbn [_invalidate_page docs with_rs with_te].
  rewrite _snapshot_doc_bytes_doc. cbn [docs with_docs _doc].
  unfold rewrite_line. rewrite Hslot, Hpage.
  fold (cover_op env page li). rewrite Hcover.
  fold (insert_op env page li (editor_text editor)). rewrite Hinsert.
  unfold reflects_text.
  eexists _, _, (drawn page ++ [cover_op env page li]), _, _, _, _.
  split; [reflexivity |]. split.
  - eapply nth_error_replace_nth. exact Hpage.
  - reflexivity.
Qed.

End ModeFacts.

Section ModeEntry.

Import Py Fitz Viewer.

Lemma _exit_current_mode_docs_text_edit (env : Env) (w : Widget) :
  mode (ms w) = MODE_TEXT_EDIT ->
  docs (_exit_current_mode env w) = docs (_commit_text_edit env w).
Proof.
  intros H. unfold _exit_current_mode. rewrite H.
  destruct (_text_edit_widget (te w)) eqn:E; cbn [opt_truthy docs with_ms with_te].
  - reflexivity.
  - unfold _commit_text_edit. rewrite E. reflexivity.
Qed.

Lemma _exit_current_mode_te_text_edit (env : Env) (w : Widget) :
  mode (ms w) = MODE_TEXT_EDIT ->
  _text_edit_widget (te (_exit_current_mode env w)) = None
  /\ _text_edit_lines_cache (te (_exit_current_mode env w)) = []
  /\ _text_edit_hover_line (te (_exit_current_mode env w)) = None
  /\ _text_edit_hover_page (te (_exit_current_mode env w)) = (-1)%Z.
Proof.
  intros H. unfold _exit_current_mode. rewrite H.
  destruct (_text_edit_widget (te w)) eqn:E; cbn [opt_truthy te with_ms with_te
    _text_edit_widget _text_edit_lines_cache _text_edit_hover_line _text_edit_hover_page].
  - rewrite _commit_text_edit_closes_editor. repeat split; reflexivity.
  - rewrite E. repeat split; reflexivity.
Qed.

(** C4.  Each of [enter_text_placement_mode], [enter_crop_mode] and
    [enter_text_edit_mode] first exits the active mode: the widget it leaves is
    the one it would leave when called on the widget [_exit_current_mode]
    produces, which is in Normal mode with the left mode cleaned up (a pending
    native text edit committed and its editor closed, the line cache and the
    hover cleared; the pending text style dropped; the crop rectangle and its
    callback dropped).  In particular, when [enter_crop_mode] is called in
    TextEdit mode with an open editor whose text is not blank and differs from
    the line, on a page of the document, with an engine that accepts the two
    drawing calls, the document already holds the new text in the Normal-mode
    widget from which Crop mode is entered, and holds it afterwards. *)
Theorem mode_entry_exits_current_mode_first :
  forall (env : Env) (w : Widget),
    mode (ms (_exit_current_mode env w)) = MODE_NORMAL
    /\ (mode (ms w) = MODE_TEXT_EDIT ->
          docs (_exit_current_mode env w) = docs (_commit_text_edit env w)
          /\ _text_edit_widget (te (_exit_current_mode env w)) = None
          /\ _text_edit_lines_cache (te (_exit_current_mode env w)) = []
          /\ _text_edit_hover_line (te (_exit_current_mode env w)) = None
          /\ _text_edit_hover_page (te (_exit_current_mode env w)) = (-1)%Z)
    /\ (mode (ms w) = MODE_TEXT_PLACEMENT ->
          pending_text_config (ms (_exit_current_mode env w)) = empty_config)
    /\ (mode (ms w) = MODE_CROP ->
          _crop_start_pos (ms (_exit_current_mode env w)) = None
          /\ _crop_current_pos (ms (_exit_current_mode env w)) = None
          /\ _crop_callback (ms (_exit_current_mode env w)) = None)
    /\ (forall config : TextConfig,
          enter_text_placement_mode env config w
            = enter_text_placement_mode env config (_exit_current_mode env w)
          /\ mode (ms (enter_text_placement_mode env config w)) = MODE_TEXT_PLACEMENT)
    /\ (forall callback : Z,
          enter_crop_mode env callback w
            = enter_crop_mode env callback (_exit_current_mode env w)
          /\ mode (ms (enter_crop_mode env callback w)) = MODE_CROP
          /\ docs (enter_crop_mode env callback w) = docs (_exit_current_mode env w))
    /\ (enter_text_edit_mode env w = enter_text_edit_mode env (_exit_current_mode env w)
        /\ mode (ms (enter_text_edit_mode env w)) = MODE_TEXT_EDIT)
    /\ (forall (editor : QLineEdit) (li : LineInfo) (d : Document) (page : Page)
               (callback : Z),
          mode (ms w) = MODE_TEXT_EDIT ->
          _text_edit_widget (te w) = Some editor ->
          _text_edit_line_info (te w) = Some li ->
          _doc (docs w) = Some d ->
          nth_error d (Z.to_nat (_text_edit_page (te w))) = Some page ->
          (0 <= _text_edit_page (te w))%Z ->
          editor_text editor <> line_text li ->
          strip (editor_text editor) <> [] ->
          engine_accepts env page (cover_op env page li) = true ->
          engine_accepts env (add_op (cover_op env page li) page)
            (insert_op env page li (editor_text editor)) = true ->
          reflects_text (_doc (docs (_exit_current_mode env w))) (_text_edit_page (te w))
            (editor_text editor)
          /\ reflects_text (_doc (docs (enter_crop_mode env callback w)))
               (_text_edit_page (te w)) (editor_text editor)
          /\ _text_edit_widget (te (enter_crop_mode env callback w)) = None
          /\ mode (ms (enter_crop_mode env callback w)) = MODE_CROP).
Proof.
  intros env w.
  split; [apply _exit_current_mode_normal |].
  split.
  { intros H. split; [apply _exit_current_mode_docs_text_edit; exact H |].
    apply _exit_current_mode_te_text_edit. exact H. }
  split.
  { intros H. unfold _exit_current_mode. rewrite H. reflexivity. }
  split.
  { intros H. unfold _exit_current_mode. rewrite H. repeat split; reflexivity. }
  split.
  { intros config. split; [| reflexivity].
    unfold enter_text_placement_mode. rewrite _exit_current_mode_idempotent. reflexivity. }
  split.
  { intros callback. split; [| split; reflexivity].
    unfold enter_crop_mode. rewrite _exit_current_mode_idempotent. reflexivity. }
  split.
  { split; [| reflexivity].
    unfold enter_text_edit_mode. rewrite _exit_current_mode_idempotent. reflexivity. }
  intros editor li d page callback Hmode Hw Hli Hd Hpage Hp0 Hneq Hblank Hcover Hinsert.
  assert (Hdoc : reflects_text (_doc (docs (_exit_current_mode env w)))
                   (_text_edit_page (te w)) (editor_text editor)).
  { rewrite (_exit_current_mode_docs_text_edit env w Hmode).
    eapply _commit_text_edit_writes; eassumption. }
  split; [exact Hdoc |]. split; [exact Hdoc |]. split; [| reflexivity].
  unfold enter_crop_mode. cbn [te with_ms clear_selection with_sel].
  apply _exit_current_mode_te_text_edit. exact Hmode.
Qed.

Lemma mode_entry_exits_current_mode_first_witness :
  reflects_text (_doc (docs (_exit_current_mode plain_env editing_scene))) 0 [72; 111]%N
  /\ reflects_text (_doc (docs (enter_crop_mode plain_env 1 editing_scene))) 0 [72; 111]%N
  /\ _text_edit_widget (te (enter_crop_mode plain_env 1 editing_scene)) = None
  /\ mode (ms (enter_crop_mode plain_env 1 editing_scene)) = MODE_CROP.
Proof.
  destruct (mode_entry_exits_current_mode_first plain_env editing_scene)
    as (_ & _ & _ & _ & _ & _ & _ & H).
  apply (H (mkLineEdit [72; 111]%N) line_hi [mkPage (mkRect 0 0 600 800) []]
           (mkPage (mkRect 0 0 600 800) []) 1%Z);
    try reflexivity; try discriminate; vm_compute; discriminate.
Defined.

(** What the document holds after that call. *)
Example editing_scene_document :
  _doc (docs (enter_crop_mode plain_env 1 editing_scene))
  = Some [mkPage (mkRect 0 0 600 800)
            [DrawRect (mkRect (10 - 1) (10 - 1) (30 + 1) (22 + 1)) (1, 1, 1);
             InsertText (mkPoint 10 20) [72; 111]%N 12 (color_of_int 0)
               (mkFontArgs [104; 101; 108; 118]%N None)]].
Proof. reflexivity. Qed.

End ModeEntry.

(** ** Order of an [OrderedDict] *)

Section OrderedDictFacts.

Context {K V : Type} (eqb : K -> K -> bool).
Hypothesis eqb_eq : forall a b, eqb a b = true <-> a = b.

Import OrderedDict.

Lemma eqb_refl (a : K) : eqb a a = true.
Proof. apply eqb_eq. reflexivity. Qed.

Lemma eqb_false (a b : K) : eqb a b = false <-> a <> b.
Proof.
  split.
  - intros E H. apply eqb_eq in H. congruence.
  - intros H. destruct (eqb a b) eqn:E; [| reflexivity]. apply eqb_eq in E. contradiction.
Qed.

Lemma contains_In (k : K) (d : @t K V) : contains eqb k d = true <-> In k (keys d).
Proof.
  unfold contains, keys. rewrite existsb_exists, in_map_iff. split.
  - intros ((k', v) & Hin & E). apply eqb_eq in E. cbn in E. subst.
    exists (k', v). split; [reflexivity | exact Hin].
  - intros (e & E & Hin). exists e. split; [exact Hin |]. subst. apply eqb_refl.
Qed.

Lemma contains_not_In (k : K) (d : @t K V) : contains eqb k d = false <-> ~ In k (keys d).
Proof.
  rewrite <- contains_In. destruct (contains eqb k d); split; intros H; congruence.
Qed.

Lemma get_In (k : K) (d : @t K V) : In k (keys d) -> exists v, get eqb k d = Some v.
Proof.
  induction d as [| [k' v'] d IH]; cbn; [contradiction |].
  intros [E | Hin].
  - subst. rewrite eqb_refl. eexists. reflexivity.
  - destruct (eqb k k'); [eexists; reflexivity | apply IH; exact Hin].
Qed.

Lemma get_not_In (k : K) (d : @t K V) : ~ In k (keys d) -> get eqb k d = None.
Proof.
  induction d as [| [k' v'] d IH]; cbn; [reflexivity |].
  intros H. destruct (eqb k k') eqn:E.
  - apply eqb_eq in E. subst. exfalso. apply H. left. reflexivity.
  - apply IH. intros Hin. apply H. right. exact Hin.
Qed.

Lemma others_not_In (k : K) (l : list K) : ~ In k l -> others eqb k l = l.
Proof.
  induction l as [| a l IH]; cbn; [reflexivity |].
  intros H. assert (E : eqb k a = false).
  { apply eqb_false. intros ->. apply H. left. reflexivity. }
  rewrite E. cbn. f_equal. apply IH. intros Hin. apply H. right. exact Hin.
Qed.

Lemma keys_del_item (k : K) (d : @t K V) : keys (del_item eqb k d) = others eqb k (keys d).
Proof.
  unfold del_item, others, keys. induction d as [| [k' v'] d IH]; cbn; [reflexivity |].
  destruct (eqb k k'); cbn; rewrite IH; reflexivity.
Qed.

(** Assignment keeps the place of a key that is present and appends a new one. *)
Lemma keys_set_item (k : K) (v : V) (d : @t K V) :
  keys (set_item eqb k v d) = if contains eqb k d then keys d else keys d ++ [k].
Proof.
  unfold keys, contains. induction d as [| [k' v'] d IH]; cbn; [reflexivity |].
  destruct (eqb k k') eqn:E; cbn; [reflexivity |].
  rewrite IH. destruct (existsb _ d); reflexivity.
Qed.

Lemma contains_set_item (k : K) (v : V) (d : @t K V) :
  contains eqb k (set_item eqb k v d) = true.
Proof.
  apply contains_In. rewrite keys_set_item.
  destruct (contains eqb k d) eqn:E.
  - apply contains_In. exact E.
  - apply in_or_app. right. left. reflexivity.
Qed.

Lemma keys_move_to_end (k : K) (d : @t K V) :
  In k (keys d) -> keys (move_to_end eqb k d) = others eqb k (keys d) ++ [k].
Proof.
  intros Hin. unfold move_to_end. destruct (get_In k d Hin) as [v ->].
  unfold keys at 1. rewrite map_app. fold (keys (del_item eqb k d)).
  rewrite keys_del_item. reflexivity.
Qed.

(** [d[k] = v] followed by [d.move_to_end(k)]: [k] is the newest key. *)
Lemma keys_set_item_move_to_end (k : K) (v : V) (d : @t K V) :
  keys (move_to_end eqb k (set_item eqb k v d)) = others eqb k (keys d) ++ [k].
Proof.
  rewrite keys_move_to_end by (apply contains_In; apply contains_set_item).
  rewrite keys_set_item. destruct (contains eqb k d) eqn:E; [reflexivity |].
  unfold others. rewrite filter_app. cbn. rewrite eqb_refl. cbn. rewrite app_nil_r.
  reflexivity.
Qed.

(** The loop equation of [while len(d) > cap: d.popitem(last=False)]. *)
Lemma enforce_limit_loop (cap : nat) (d : @t K V) :
  enforce_limit cap d
  = if (cap <? length d)%nat then enforce_limit cap (popitem_first d) else d.
Proof.
  destruct d as [| e d]; [| reflexivity].
  cbn. destruct cap; reflexivity.
Qed.

(** The eviction loop drops entries from the oldest end only. *)
Lemma enforce_limit_skipn (cap : nat) (d : @t K V) :
  enforce_limit cap d = skipn (length d - cap) d.
Proof.
  induction d as [| e d IH]; [reflexivity |].
  cbn [enforce_limit]. destruct (cap <? length (e :: d))%nat eqn:E.
  - apply Nat.ltb_lt in E. cbn [length] in *. rewrite IH.
    replace (S (length d) - cap)%nat with (S (length d - cap)) by lia. reflexivity.
  - apply Nat.ltb_ge in E. replace (length (e :: d) - cap)%nat with 0%nat by lia.
    reflexivity.
Qed.

Lemma enforce_limit_length (cap : nat) (d : @t K V) :
  (length (enforce_limit cap d) <= cap)%nat.
Proof. rewrite enforce_limit_skipn, length_skipn. lia. Qed.

Lemma enforce_limit_split (cap : nat) (d : @t K V) :
  keys d = keys (firstn (length d - cap) d) ++ keys (enforce_limit cap d).
Proof.
  rewrite enforce_limit_skipn. unfold keys. rewrite <- map_app, firstn_skipn. reflexivity.
Qed.

Lemma enforce_limit_within (cap : nat) (d : @t K V) :
  (length d <= cap)%nat -> enforce_limit cap d = d.
Proof.
  intros H. rewrite enforce_limit_skipn. replace (length d - cap)%nat with 0%nat by lia.
  reflexivity.
Qed.

Lemma keys_filter_sub (P : K * V -> bool) (d : @t K V) :
  forall k, In k (keys (filter P d)) -> In k (keys d).
Proof.
  unfold keys. intros k H. apply in_map_iff in H. destruct H as (e & E & Hin).
  apply filter_In in Hin. apply in_map_iff. exists e. tauto.
Qed.

Lemma length_keys (d : @t K V) : length (keys d) = length d.
Proof. apply length_map. Qed.

End OrderedDictFacts.

(** ** Recency of cache entries *)

Section RecencyFacts.

Import Py Viewer OrderedDict.

Lemma upd_same (f : Stamps) (k : Key) (n : nat) : upd f k n k = n.
Proof. unfold upd. rewrite key_eqb_refl. reflexivity. Qed.

Lemma upd_other (f : Stamps) (k k' : Key) (n : nat) : k <> k' -> upd f k n k' = f k'.
Proof. intros H. unfold upd. apply key_eqb_neq in H. rewrite H. reflexivity. Qed.

Lemma ordered_by_ext (f f' : Stamps) (l : list Key) :
  (forall k, In k l -> f' k = f k) -> ordered_by f l -> ordered_by f' l.
Proof.
  intros Hext Hs. induction Hs as [| a l Hs IH Hall]; [constructor |].
  constructor.
  - apply IH. intros k Hk. apply Hext. right. exact Hk.
  - rewrite Forall_forall in *. intros b Hb.
    rewrite (Hext a), (Hext b); [apply Hall; exact Hb | right; exact Hb | left; reflexivity].
Qed.

Lemma ordered_by_filter (f : Stamps) (P : Key -> bool) (l : list Key) :
  ordered_by f l -> ordered_by f (filter P l).
Proof.
  intros Hs. induction Hs as [| a l Hs IH Hall]; [constructor |].
  cbn. destruct (P a); [| exact IH]. constructor; [exact IH |].
  rewrite Forall_forall in *. intros b Hb. apply Hall. apply filter_In in Hb. tauto.
Qed.

Lemma ordered_by_snoc (f : Stamps) (l : list Key) (x : Key) :
  ordered_by f l -> Forall (fun k => (f k < f x)%nat) l -> ordered_by f (l ++ [x]).
Proof.
  intros Hs Hx. induction Hs as [| a l Hs IH Hall]; cbn.
  - constructor; constructor.
  - inversion Hx; subst. constructor; [apply IH; assumption |].
    apply Forall_app. split; [exact Hall | constructor; [assumption | constructor]].
Qed.

Lemma ordered_by_app_lt (f : Stamps) (l1 l2 : list Key) :
  ordered_by f (l1 ++ l2) ->
  forall a b, In a l1 -> In b l2 -> (f a < f b)%nat.
Proof.
  induction l1 as [| x l1 IH]; cbn; intros Hs a b Ha Hb; [contradiction |].
  inversion Hs as [| ? ? Hs' Hall]; subst. destruct Ha as [-> | Ha].
  - rewrite Forall_forall in Hall. apply Hall. apply in_or_app. right. exact Hb.
  - apply IH; assumption.
Qed.

Lemma ordered_by_app_r (f : Stamps) (l1 l2 : list Key) :
  ordered_by f (l1 ++ l2) -> ordered_by f l2.
Proof.
  induction l1 as [| x l1 IH]; cbn; intros Hs; [exact Hs |].
  inversion Hs; subst. apply IH. assumption.
Qed.

(** Narrowing a cache (removing entries) keeps it stamped. *)
Lemma stamped_filter (f : Stamps) (now : nat) (P : Key * QPixmap -> bool) (c : Cache) :
  stamped f now c -> stamped f now (filter P c).
Proof.
  intros [Hs Hall]. unfold stamped, keys in *.
  induction c as [| e c IH]; cbn; [split; constructor |].
  inversion Hs as [| ? ? Hs' Hlt]; subst. inversion Hall as [| ? ? Ha Hall']; subst.
  destruct (IH Hs' Hall') as [IH1 IH2].
  destruct (P e); cbn; [| split; assumption].
  split; constructor; try assumption.
  rewrite Forall_forall in *. intros b Hb. apply Hlt.
  apply (keys_filter_sub P c). exact Hb.
Qed.

Lemma stamped_later (f : Stamps) (now now' : nat) (c : Cache) :
  (now <= now')%nat -> stamped f now c -> stamped f now' c.
Proof.
  intros Hle [Hs Hall]. split; [exact Hs |].
  eapply Forall_impl; [| exact Hall]. cbn. intros; lia.
Qed.

Lemma stamped_nil (f : Stamps) (now : nat) : stamped f now [].
Proof. split; constructor. Qed.

Lemma stamped_enforce_limit (f : Stamps) (now cap : nat) (c : Cache) :
  stamped f now c -> stamped f now (enforce_limit cap c).
Proof.
  intros [Hs Hall]. rewrite (enforce_limit_split cap c) in Hs, Hall.
  split.
  - eapply ordered_by_app_r. exact Hs.
  - apply Forall_app in Hall. tauto.
Qed.

(** Stamping [k] with the present time while it goes to the newest position. *)
Lemma stamped_touch (f : Stamps) (now : nat) (c c' : Cache) (k : Key) :
  stamped f now c ->
  keys c' = others key_eqb k (keys c) ++ [k] ->
  stamped (upd f k now) (S now) c'.
Proof.
  intros [Hs Hall] Hk. unfold stamped. rewrite Hk.
  assert (Hne : forall a, In a (others key_eqb k (keys c)) -> a <> k /\ In a (keys c)).
  { intros a Ha. unfold others in Ha. apply filter_In in Ha. destruct Ha as [Ha E].
    split; [| exact Ha]. apply negb_true_iff, key_eqb_neq in E. congruence. }
  split.
  - apply ordered_by_snoc.
    + apply ordered_by_ext with f.
      * intros a Ha. apply upd_other. destruct (Hne a Ha). congruence.
      * apply ordered_by_filter. exact Hs.
    + apply Forall_forall. intros a Ha. destruct (Hne a Ha) as [Hak Hin].
      rewrite upd_same, upd_other by congruence.
      rewrite Forall_forall in Hall. apply Hall. exact Hin.
  - apply Forall_app. split.
    + apply Forall_forall. intros a Ha. destruct (Hne a Ha) as [Hak Hin].
      rewrite upd_other by congruence.
      rewrite Forall_forall in Hall. specialize (Hall a Hin). lia.
    + constructor; [rewrite upd_same; lia | constructor].
Qed.

(** Stamping a key that enters at the newest position. *)
Lemma stamped_append (f : Stamps) (now : nat) (c c' : Cache) (k : Key) :
  stamped f now c -> ~ In k (keys c) ->
  keys c' = keys c ++ [k] ->
  stamped (upd f k now) (S now) c'.
Proof.
  intros Hst Hnot Hk. apply stamped_touch with c; [exact Hst |].
  rewrite Hk, (others_not_In key_eqb key_eqb_eq k (keys c) Hnot). reflexivity.
Qed.

Lemma stamped_same_keys (f : Stamps) (now : nat) (c c' : Cache) :
  stamped f now c -> keys c' = keys c -> stamped f now c'.
Proof. intros Hst Hk. unfold stamped. rewrite Hk. exact Hst. Qed.

(** What the eviction loop drops is older than what it keeps. *)
Lemma evicted_are_oldest (f : Stamps) (now cap : nat) (c : Cache) :
  stamped f now c ->
  forall k k', In k (keys c) -> ~ In k (keys (enforce_limit cap c)) ->
               In k' (keys (enforce_limit cap c)) -> (f k < f k')%nat.
Proof.
  intros [Hs _] k k' Hin Hout Hkept.
  rewrite (enforce_limit_split cap c) in Hs, Hin.
  apply in_app_or in Hin. destruct Hin as [Hin | Hin]; [| contradiction].
  eapply ordered_by_app_lt; eassumption.
Qed.

End RecencyFacts.

(** ** Capacity and eviction order of the two caches *)

Section CacheInvariant.

Import Py Viewer OrderedDict.

Lemma ghost_run_widget (env : Env) (events : list Event) :
  forall w g, fst (ghost_run env events w g) = run env events w.
Proof. induction events as [| e rest IH]; intros w g; cbn; [reflexivity | apply IH]. Qed.

Lemma filter_all {A} (l : list A) : filter (fun _ => true) l = l.
Proof. induction l as [| a l IH]; cbn; [| rewrite IH]; reflexivity. Qed.

Lemma filter_none {A} (l : list A) : filter (fun _ => false) l = [].
Proof. induction l as [| a l IH]; cbn; [| rewrite IH]; reflexivity. Qed.

Lemma narrowed_same_caches (w w' : Widget) :
  _render_cache (rs w') = _render_cache (rs w) ->
  _low_res_cache (rs w') = _low_res_cache (rs w) -> narrowed w w'.
Proof.
  intros H1 H2. exists (fun _ => true), (fun _ => true). rewrite !filter_all. tauto.
Qed.

Lemma narrowed_same_rs (w w' : Widget) : rs w' = rs w -> narrowed w w'.
Proof. intros H. apply narrowed_same_caches; rewrite H; reflexivity. Qed.

Lemma _recalculate_layout_rs (w : Widget) : rs (_recalculate_layout w) = rs w.
Proof.
  unfold _recalculate_layout.
  destruct (negb (doc_truthy (_doc (docs w)))); [reflexivity |].
  destruct (layout_loop _ _ _). reflexivity.
Qed.

Lemma _commit_text_edit_narrows (env : Env) (w : Widget) : narrowed w (_commit_text_edit env w).
Proof.
  unfold _commit_text_edit.
  repeat (break_match; try (apply narrowed_same_rs; reflexivity)).
  eexists _, _. cbn [_invalidate_page rs with_rs with_te _render_cache _low_res_cache].
  rewrite _snapshot_doc_bytes_rs. cbn [rs with_docs with_te]. split; reflexivity.
Qed.

Lemma _exit_current_mode_narrows (env : Env) (w : Widget) :
  narrowed w (_exit_current_mode env w).
Proof.
  unfold _exit_current_mode.
  destruct (mode (ms w)); try (apply narrowed_same_rs; reflexivity).
  destruct (opt_truthy (_text_edit_widget (te w))).
  - destruct (_commit_text_edit_narrows env w) as (P1 & P2 & H1 & H2).
    exists P1, P2. cbn [rs with_ms with_te]. tauto.
  - apply narrowed_same_rs. reflexivity.
Qed.

(** Every event but a paint and a render completion only narrows the caches. *)
Lemma handle_narrows (env : Env) (e : Event) (w : Widget) :
  match e with
  | EvPaintPage _ _ _ | EvRenderFinished _ _ _ _ => True
  | _ => narrowed w (handle env e w)
  end.
Proof.
  destruct e; cbn [handle]; try exact I.
  - exists (fun _ => false), (fun _ => false). unfold set_document.
    rewrite _recalculate_layout_rs, !filter_none. cbn. tauto.
  - apply narrowed_same_rs. unfold set_zoom. destruct (Qltb _ _); [reflexivity |].
    cbn [rs with_zs]. rewrite _recalculate_layout_rs. reflexivity.
  - apply narrowed_same_rs. unfold wheelEvent. destruct ctrl; reflexivity.
  - apply narrowed_same_rs. unfold fire_lerp_timer, _lerp_zoom.
    repeat (break_match; try reflexivity).
  - apply narrowed_same_caches; unfold fire_zoom_timer, _on_zoom_finished;
      destruct (_zoom_timer (zs w)); try reflexivity;
      cbn [rs with_zs with_rs _render_cache _low_res_cache zs _zoom_target _zoom];
      destruct (Qgtb _ _); cbn [rs with_zs]; rewrite ?_recalculate_layout_rs; reflexivity.
  - apply narrowed_same_rs. unfold fire_settle_timer.
    destruct (_zoom_settle_timer (zs w)); reflexivity.
  - eexists _, _. split; reflexivity.
  - exists (fun _ => false), (fun _ => true). rewrite filter_all, filter_none.
    split; reflexivity.
  - unfold burn_overlay_stamps.
    repeat (break_match; try (apply narrowed_same_rs; reflexivity)).
    exists (fun _ => false), (fun _ => true). rewrite filter_all, filter_none.
    split; reflexivity.
  - apply _exit_current_mode_narrows.
  - apply _exit_current_mode_narrows.
  - apply _exit_current_mode_narrows.
Qed.

Lemma length_filter_le {A} (P : A -> bool) (l : list A) : (length (filter P l) <= length l)%nat.
Proof. induction l as [| a l IH]; cbn; [lia |]. destruct (P a); cbn; lia. Qed.

Lemma cache_inv_narrowed (w w' : Widget) (g : Ghost) :
  narrowed w w' -> cache_inv w g -> cache_inv w' (tick g).
Proof.
  intros (P1 & P2 & H1 & H2) (Hhi & Lhi & Hlo & Llo).
  unfold cache_inv. rewrite H1, H2. cbn [now hi_used lo_inserted tick].
  split; [| split; [| split]].
  - apply stamped_later with (now g); [lia |]. apply stamped_filter. exact Hhi.
  - pose proof (length_filter_le P1 (_render_cache (rs w))). lia.
  - apply stamped_later with (now g); [lia |]. apply stamped_filter. exact Hlo.
  - pose proof (length_filter_le P2 (_low_res_cache (rs w))). lia.
Qed.

End CacheInvariant.

Section CacheTheorems.

Import Py Viewer OrderedDict.

Lemma _get_page_pixmap_caches (page_index target_w target_h : Z) (w : Widget) :
  _render_cache (rs (snd (_get_page_pixmap page_index target_w target_h w)))
    = (if contains key_eqb (make_key page_index (_zoom (zs w))) (_render_cache (rs w))
       then move_to_end key_eqb (make_key page_index (_zoom (zs w))) (_render_cache (rs w))
       else _render_cache (rs w))
  /\ _low_res_cache (rs (snd (_get_page_pixmap page_index target_w target_h w)))
    = _low_res_cache (rs w).
Proof.
  unfold _get_page_pixmap.
  destruct (contains key_eqb _ (_render_cache (rs w))); [split; reflexivity |].
  assert (H : forall b : bool,
             _render_cache (rs (if b then _start_render_task page_index
                                       (make_key page_index (_zoom (zs w))) w else w))
               = _render_cache (rs w)
             /\ _low_res_cache (rs (if b then _start_render_task page_index
                                       (make_key page_index (_zoom (zs w))) w else w))
               = _low_res_cache (rs w)).
  { intros [|]; [| split; reflexivity].
    unfold _start_render_task. destruct (_ || _); split; reflexivity. }
  specialize (H (negb (set_mem (make_key page_index (_zoom (zs w))) (_pending_renders (rs w))))).
  destruct (get key_eqb _ (_low_res_cache (rs w))); cbn [snd]; [exact H |].
  destruct (_is_zooming _); [destruct (rev _) as [| [? ?] ?] |]; cbn [snd]; exact H.
Qed.

Lemma _on_render_finished_caches (image : QImage) (is_high_res : bool) (page_index : Z)
    (key : Key) (w : Widget) :
  _render_cache (rs (_on_render_finished image is_high_res page_index key w))
    = (if valid_result image page_index key w && is_high_res
       then enforce_limit 30
              (move_to_end key_eqb key
                 (set_item key_eqb key (pixmap_of_image image) (_render_cache (rs w))))
       else _render_cache (rs w))
  /\ _low_res_cache (rs (_on_render_finished image is_high_res page_index key w))
    = (if valid_result image page_index key w
       then if is_high_res
            then del_item key_eqb key (_low_res_cache (rs w))
            else enforce_limit 150
                   (set_item key_eqb key (pixmap_of_image image) (_low_res_cache (rs w)))
       else _low_res_cache (rs w)).
Proof.
  unfold _on_render_finished, valid_result. cbn [zs with_rs].
  destruct (key_eqb key _); cbn [negb andb]; [| split; reflexivity].
  destruct (isNull image); cbn [negb andb]; [split; reflexivity |].
  destruct is_high_res; cbn [rs with_rs _render_cache _low_res_cache];
    [| split; reflexivity].
  split; [reflexivity |].
  destruct (contains key_eqb key (_low_res_cache (rs w))) eqn:E; [reflexivity |].
  unfold del_item. apply (contains_not_In key_eqb key_eqb_eq) in E.
  symmetry. apply forallb_filter_id. apply forallb_forall. intros [k v] Hin.
  apply negb_true_iff. apply key_eqb_neq. intros ->. apply E.
  unfold keys. apply in_map_iff. exists (k, v). split; [reflexivity | exact Hin].
Qed.

Lemma length_move_to_end (k : Key) (d : Cache) :
  (length (move_to_end key_eqb k d) <= length d)%nat.
Proof.
  unfold move_to_end. destruct (get key_eqb k d) as [v |] eqn:E; [| lia].
  rewrite length_app. cbn. unfold del_item.
  induction d as [| [k' v'] d IH]; cbn in *; [discriminate |].
  destruct (key_eqb k k'); cbn.
  - pose proof (length_filter_le (fun e : Key * QPixmap => negb (key_eqb k (fst e))) d). lia.
  - specialize (IH E). lia.
Qed.

(** The invariant holds along every run. *)
Lemma cache_inv_step (env : Env) (e : Event) (w : Widget) (g : Ghost) :
  cache_inv w g -> cache_inv (handle env e w) (ghost_step e w g).
Proof.
  intros Hinv. pose proof (handle_narrows env e w) as Hn.
  destruct e as [doc fp keep | z | ctrl pixel_y angle_y | | |
                 | page_index target_w target_h | image is_high_res page_index key
                 | p | | | config | callback |];
    cbn beta iota in Hn;
    try exact (cache_inv_narrowed w _ g Hn Hinv).
  - (* paint *)
    clear Hn. destruct Hinv as (Hhi & Lhi & Hlo & Llo).
    cbn [handle ghost_step].
    destruct (_get_page_pixmap_caches page_index target_w target_h w) as [H1 H2].
    unfold cache_inv. rewrite H1, H2.
    destruct (contains key_eqb _ (_render_cache (rs w))) eqn:E.
    + cbn [now hi_used lo_inserted]. split; [| split; [| split]].
      * eapply stamped_touch; [exact Hhi |].
        apply (keys_move_to_end key_eqb key_eqb_eq).
        apply (contains_In key_eqb key_eqb_eq). exact E.
      * pose proof (length_move_to_end (make_key page_index (_zoom (zs w)))
                      (_render_cache (rs w))). lia.
      * apply stamped_later with (now g); [lia | exact Hlo].
      * exact Llo.
    + destruct (contains key_eqb _ (_low_res_cache (rs w)));
        cbn [now hi_used lo_inserted tick];
        (split; [apply stamped_later with (now g); [lia | exact Hhi] |
         split; [exact Lhi |
         split; [apply stamped_later with (now g); [lia | exact Hlo] | exact Llo]]]).
  - (* render completion *)
    clear Hn. destruct Hinv as (Hhi & Lhi & Hlo & Llo).
    cbn [handle ghost_step].
    destruct (_on_render_finished_caches image is_high_res page_index key w) as [H1 H2].
    unfold cache_inv. rewrite H1, H2. fold (valid_result image page_index key w).
    destruct (valid_result image page_index key w); cbn [andb].
    + destruct is_high_res; cbn [now hi_used lo_inserted].
      * split; [| split; [| split]].
        -- apply stamped_enforce_limit. eapply stamped_touch; [exact Hhi |].
           apply (keys_set_item_move_to_end key_eqb key_eqb_eq).
        -- apply enforce_limit_length.
        -- apply stamped_later with (now g); [lia |]. apply stamped_filter. exact Hlo.
        -- pose proof (length_filter_le (fun e : Key * QPixmap => negb (key_eqb key (fst e)))
                         (_low_res_cache (rs w))). unfold del_item. lia.
      * split; [| split; [| split]].
        -- apply stamped_later with (now g); [lia | exact Hhi].
        -- exact Lhi.
        -- apply stamped_enforce_limit.
           destruct (contains key_eqb key (_low_res_cache (rs w))) eqn:E.
           ++ apply stamped_later with (now g); [lia |].
              eapply stamped_same_keys; [exact Hlo |].
              rewrite keys_set_item, E. reflexivity.
           ++ eapply stamped_append; [exact Hlo | |].
              ** apply (contains_not_In key_eqb key_eqb_eq). exact E.
              ** rewrite keys_set_item, E. reflexivity.
        -- apply enforce_limit_length.
    + cbn [now hi_used lo_inserted tick].
      split; [apply stamped_later with (now g); [lia | exact Hhi] |
      split; [exact Lhi |
      split; [apply stamped_later with (now g); [lia | exact Hlo] | exact Llo]]].
Qed.

Lemma cache_inv_run (env : Env) (events : list Event) :
  forall w g, cache_inv w g ->
    cache_inv (fst (ghost_run env events w g)) (snd (ghost_run env events w g)).
Proof.
  induction events as [| e rest IH]; intros w g H; cbn; [exact H |].
  apply IH. apply cache_inv_step. exact H.
Qed.

Lemma cache_inv_init : cache_inv init ghost_init.
Proof. unfold cache_inv. cbn. repeat split; try constructor; lia. Qed.

End CacheTheorems.

Section CacheEviction.

Import Py Viewer OrderedDict.

Lemma cache_inv_after (env : Env) (events : list Event) :
  cache_inv (widget_after env events) (ghost_after env events).
Proof.
  unfold widget_after, ghost_after. rewrite <- (ghost_run_widget env events init ghost_init).
  apply cache_inv_run. apply cache_inv_init.
Qed.

(** X31.  After every render completion the high-res cache
    holds at most 30 entries and the low-res cache at most 150.  An entry that
    a completion evicts from the high-res cache was last used (inserted, or hit
    by [_get_page_pixmap] under its exact key) before every entry that stays.
    An entry that a low-res completion evicts from the low-res cache entered
    that cache before every entry that stays: the low-res tier is first in,
    first out. *)
Theorem cache_capacity_and_eviction_order :
  forall (env : Env) (events : list Event) (image : QImage) (is_high_res : bool)
         (page_index : Z) (key : Key),
    (length (_render_cache (rs (_on_render_finished image is_high_res page_index key
                                  (widget_after env events)))) <= 30)%nat
    /\ (length (_low_res_cache (rs (_on_render_finished image is_high_res page_index key
                                      (widget_after env events)))) <= 150)%nat
    /\ (forall k k' : Key,
          In k (keys (_render_cache (rs (widget_after env events)))) ->
          ~ In k (keys (_render_cache (rs (_on_render_finished image is_high_res page_index
                                             key (widget_after env events))))) ->
          In k' (keys (_render_cache (rs (_on_render_finished image is_high_res page_index
                                            key (widget_after env events))))) ->
          (hi_used (ghost_step (EvRenderFinished image is_high_res page_index key)
                      (widget_after env events) (ghost_after env events)) k
           < hi_used (ghost_step (EvRenderFinished image is_high_res page_index key)
                        (widget_after env events) (ghost_after env events)) k')%nat)
    /\ (is_high_res = false ->
        forall k k' : Key,
          In k (keys (_low_res_cache (rs (widget_after env events)))) ->
          ~ In k (keys (_low_res_cache (rs (_on_render_finished image is_high_res page_index
                                              key (widget_after env events))))) ->
          In k' (keys (_low_res_cache (rs (_on_render_finished image is_high_res page_index
                                             key (widget_after env events))))) ->
          (lo_inserted (ghost_step (EvRenderFinished image is_high_res page_index key)
                          (widget_after env events) (ghost_after env events)) k
           < lo_inserted (ghost_step (EvRenderFinished image is_high_res page_index key)
                            (widget_after env events) (ghost_after env events)) k')%nat).
Proof.
  intros env events image is_high_res page_index key.
  pose proof (cache_inv_after env events) as Hinv.
  set (w := widget_after env events) in *. set (g := ghost_after env events) in *.
  pose proof (cache_inv_step env (EvRenderFinished image is_high_res page_index key) w g Hinv)
    as (_ & Lhi & _ & Llo).
  cbn [handle] in Lhi, Llo.
  split; [exact Lhi |]. split; [exact Llo |].
  destruct Hinv as (Hhi & _ & Hlo & _).
  destruct (_on_render_finished_caches image is_high_res page_index key w) as [H1 H2].
  rewrite H1, H2. cbn [ghost_step]. fold (valid_result image page_index key w).
  destruct (valid_result image page_index key w); cbn [andb].
  - split.
    + destruct is_high_res; [| intros k k' Hin Hout; contradiction].
      cbn [hi_used]. intros k k' Hin Hout Hkept.
      assert (Hmid : keys (move_to_end key_eqb key
                             (set_item key_eqb key (pixmap_of_image image)
                                (_render_cache (rs w))))
                     = others key_eqb key (keys (_render_cache (rs w))) ++ [key])
        by apply (keys_set_item_move_to_end key_eqb key_eqb_eq).
      eapply evicted_are_oldest; [| | exact Hout | exact Hkept].
      * eapply stamped_touch; [exact Hhi | exact Hmid].
      * rewrite Hmid. apply in_or_app.
        destruct (key_eqb key k) eqn:E.
        -- apply key_eqb_eq in E. right. left. exact E.
        -- left. unfold others. apply filter_In. split; [exact Hin |]. rewrite E. reflexivity.
    + intros ->. cbn [lo_inserted]. intros k k' Hin Hout Hkept.
      assert (Hsub : In k (keys (set_item key_eqb key (pixmap_of_image image)
                                   (_low_res_cache (rs w))))).
      { rewrite keys_set_item. destruct (contains key_eqb key (_low_res_cache (rs w)));
          [exact Hin | apply in_or_app; left; exact Hin]. }
      eapply evicted_are_oldest with (now := S (now g));
        [| exact Hsub | exact Hout | exact Hkept].
      destruct (contains key_eqb key (_low_res_cache (rs w))) eqn:E.
      * apply stamped_later with (now g); [lia |].
        eapply stamped_same_keys; [exact Hlo |]. rewrite keys_set_item, E. reflexivity.
      * eapply stamped_append; [exact Hlo | |].
        -- apply (contains_not_In key_eqb key_eqb_eq). exact E.
        -- rewrite keys_set_item, E. reflexivity.
  - split; [| intros _]; intros k k' Hin Hout; contradiction.
Qed.

(** After the previews of pages 0 to 149 and of page 0 again, the preview of
    page 150 evicts the entry of page 0, which entered the low-res cache before
    the entry of page 1. *)
Lemma cache_capacity_and_eviction_order_witness :
  (lo_inserted (ghost_step (EvRenderFinished (mkImage false 150 0.4) false 150
                              (make_key 150 1.0))
                  (widget_after plain_env previews_then_page_0_again)
                  (ghost_after plain_env previews_then_page_0_again)) (make_key 0 1.0)
   < lo_inserted (ghost_step (EvRenderFinished (mkImage false 150 0.4) false 150
                                (make_key 150 1.0))
                    (widget_after plain_env previews_then_page_0_again)
                    (ghost_after plain_env previews_then_page_0_again)) (make_key 1 1.0))%nat.
Proof.
  refine (proj2 (proj2 (proj2
            (cache_capacity_and_eviction_order plain_env previews_then_page_0_again
               (mkImage false 150 0.4) false 150 (make_key 150 1.0))))
            eq_refl (make_key 0 1.0) (make_key 1 1.0) _ _ _).
  - refine (proj1 (contains_In key_eqb key_eqb_eq _ _) _). vm_compute. reflexivity.
  - refine (proj1 (contains_not_In key_eqb key_eqb_eq _ _) _). vm_compute. reflexivity.
  - refine (proj1 (contains_In key_eqb key_eqb_eq _ _) _). vm_compute. reflexivity.
Defined.

(** The high-res tier: pages 0 to 29 are rendered and page 0 is painted; the
    render of page 30 then evicts page 1 and keeps page 0. *)
Example high_res_eviction_after_hit :
  contains key_eqb (make_key 0 1.0)
    (_render_cache (rs (run plain_env (renders_then_page_0_painted ++ [final_render 30]) init)))
  = true
  /\ contains key_eqb (make_key 1 1.0)
       (_render_cache (rs (run plain_env (renders_then_page_0_painted ++ [final_render 30])
                             init)))
     = false
  /\ length (_render_cache (rs (run plain_env (renders_then_page_0_painted ++ [final_render 30])
                                  init))) = 30%nat.
Proof. vm_compute. repeat split; reflexivity. Qed.

(** C2.  The low-res cache does not evict its least-recently-used entry.  The
    previews of pages 0 to 149 arrive, then the preview of page 0 again; when
    the preview of page 150 arrives next, the entry of page 0, which was
    written last, is evicted, and the entry of page 1, written before it,
    stays. *)
Lemma low_res_eviction_is_not_lru :
  ~ low_res_eviction_is_lru plain_env previews_then_page_0_again
      (mkImage false 150 0.4) 150 (make_key 150 1.0).
Proof.
  assert (Hin : In (make_key 0 1.0)
                  (keys (_low_res_cache
                           (rs (widget_after plain_env previews_then_page_0_again))))).
  { refine (proj1 (contains_In key_eqb key_eqb_eq _ _) _). vm_compute. reflexivity. }
  assert (Hout : ~ In (make_key 0 1.0)
                     (keys (_low_res_cache
                              (rs (_on_render_finished (mkImage false 150 0.4) false 150
                                     (make_key 150 1.0)
                                     (widget_after plain_env previews_then_page_0_again)))))).
  { refine (proj1 (contains_not_In key_eqb key_eqb_eq _ _) _). vm_compute. reflexivity. }
  assert (Hkept : In (make_key 1 1.0)
                    (keys (_low_res_cache
                             (rs (_on_render_finished (mkImage false 150 0.4) false 150
                                    (make_key 150 1.0)
                                    (widget_after plain_env previews_then_page_0_again)))))).
  { refine (proj1 (contains_In key_eqb key_eqb_eq _ _) _). vm_compute. reflexivity. }
  intros H. pose proof (H (make_key 0 1.0) (make_key 1 1.0) Hin Hout Hkept) as Hlt.
  clear H Hin Hout Hkept.
  pose proof (proj2 (Nat.ltb_lt _ _) Hlt) as Hb. clear Hlt.
  vm_compute in Hb. discriminate Hb.
Qed.

End CacheEviction.

(** * Further properties of the widget *)

(** ** Horizontal placement of a page *)

Section PlacementFacts.

Import Py Fitz Viewer.

Local Open Scope Z_scope.

Lemma py_index_in_range {A} (l : list A) (i : Z) :
  0 <= i < Z.of_nat (length l) -> py_index l i = nth_error l (Z.to_nat i).
Proof.
  intros H. unfold py_index.
  destruct (0 <=? i) eqn:E; [reflexivity |]. apply Z.leb_gt in E. lia.
Qed.

(** X2.  For a page of the document, [_page_x_offset] leaves at least 10
    pixels on the left of the page; when the page is narrower than the widget
    by more than 20 pixels it is centred: the margin on the right is the
    margin on the left, or one pixel more. *)
Theorem page_x_offset_margins :
  forall (w : Widget) (page_index : Z) (r : Rect),
    0 <= page_index ->
    nth_error (_page_rects (docs w)) (Z.to_nat page_index) = Some r ->
    exists ox : Z,
      _page_x_offset page_index w = Some ox
      /\ 10 <= ox
      /\ (py_int (width r * _zoom (zs w)) < widget_width (layout w) - 20 ->
          0 <= (widget_width (layout w) - (ox + py_int (width r * _zoom (zs w)))) - ox <= 1).
Proof.
  intros w page_index r Hi Hr.
  assert (Hlen : (Z.to_nat page_index < length (_page_rects (docs w)))%nat).
  { apply nth_error_Some. rewrite Hr. discriminate. }
  unfold _page_x_offset.
  destruct (_page_rects (docs w)) as [| r0 rects] eqn:E; [cbn in Hlen; lia |].
  rewrite <- E in *.
  assert (Hb : (Z.of_nat (length (_page_rects (docs w))) <=? page_index) = false)
    by (apply Z.leb_gt; lia).
  rewrite Hb, py_index_in_range, Hr by lia.
  set (pw := py_int (width r * _zoom (zs w))).
  set (W := widget_width (layout w)).
  destruct (W - 20 <=? pw) eqn:G.
  - apply Z.leb_le in G. exists 10. split; [reflexivity |]. split; lia.
  - apply Z.leb_gt in G. exists ((W - pw) / 2). split; [reflexivity |].
    pose proof (Z.div_mod (W - pw) 2) as Hd.
    pose proof (Z.mod_pos_bound (W - pw) 2) as Hm.
    split; [| intros _]; lia.
Qed.

Lemma page_x_offset_margins_witness :
  exists ox : Z,
    _page_x_offset 0 wide_two_pages_widget = Some ox
    /\ 10 <= ox
    /\ (py_int (width (mkRect 0 0 600 800) * _zoom (zs wide_two_pages_widget))
          < widget_width (layout wide_two_pages_widget) - 20 ->
        0 <= (widget_width (layout wide_two_pages_widget)
              - (ox + py_int (width (mkRect 0 0 600 800) * _zoom (zs wide_two_pages_widget))))
             - ox <= 1).
Proof.
  apply (page_x_offset_margins wide_two_pages_widget 0 (mkRect 0 0 600 800)).
  - lia.
  - reflexivity.
Defined.

(** In a widget 1000 wide the page, 900 wide, starts at 50; an index past the
    last page gives 0. *)
Example page_x_offset_of_two_pages :
  _page_x_offset 0 wide_two_pages_widget = Some 50
  /\ _page_x_offset 2 wide_two_pages_widget = Some 0.
Proof. split; reflexivity. Qed.

End PlacementFacts.

(** ** Finding pages by position *)

Section NavigationFacts.

Import Py Fitz Viewer Navigation.

Local Open Scope Z_scope.

Lemma layout_loop_snd_length (zoom : Q) (rects : list Rect) :
  forall y, length (snd (layout_loop zoom y rects)) = length rects.
Proof.
  induction rects as [| r rects IH]; intros y; cbn; [reflexivity |].
  specialize (IH (y + (py_int (height r * zoom) + PAGE_GAP))).
  destruct (layout_loop _ _ rects). cbn in *. now rewrite IH.
Qed.

(** The first offset is where the loop starts. *)
Lemma layout_loop_head (zoom : Q) (r : Rect) (rects : list Rect) (y : Z) :
  nth 0 (fst (layout_loop zoom y (r :: rects))) 0 = y.
Proof. cbn. destruct (layout_loop _ _ rects). reflexivity. Qed.

(** Each page begins one gap below the end of the page before. *)
Lemma layout_loop_next (zoom : Q) (rects : list Rect) :
  forall y i, (S i < length rects)%nat ->
    nth (S i) (fst (layout_loop zoom y rects)) 0
    = nth i (fst (layout_loop zoom y rects)) 0 + nth i (snd (layout_loop zoom y rects)) 0
      + PAGE_GAP.
Proof.
  induction rects as [| r rects IH]; intros y i Hi; cbn in Hi; [lia |].
  destruct i as [| i].
  - destruct rects as [| r' rects']; [cbn in Hi; lia |].
    pose proof (layout_loop_head zoom r' rects' (y + (py_int (height r * zoom) + PAGE_GAP)))
      as Hh.
    cbn [layout_loop] in *.
    destruct (layout_loop zoom _ rects') as [o h]. cbn in *. lia.
  - specialize (IH (y + (py_int (height r * zoom) + PAGE_GAP)) i).
    cbn [layout_loop].
    destruct (layout_loop zoom _ rects) as [o h]. cbn [fst snd nth] in *.
    apply IH. lia.
Qed.

Lemma _recalculate_layout_heights (w : Widget) (d : Document) :
  loaded d w ->
  _page_heights (layout (_recalculate_layout w))
    = snd (layout_loop (_zoom (zs w)) PAGE_GAP (map page_rect d)).
Proof.
  intros [Hd Hr]. unfold _recalculate_layout. rewrite Hd, Hr.
  destruct d as [| p d]; [reflexivity |]. cbn [doc_truthy negb].
  destruct (layout_loop _ _ _). reflexivity.
Qed.

(** What [bisect_right] returns on a strictly increasing list. *)
Lemma bisect_right_spec (a : list Z) (x : Z) :
  StronglySorted Z.lt a ->
  (bisect_right a x <= length a)%nat
  /\ (forall j, (j < bisect_right a x)%nat -> nth j a 0 <= x)
  /\ (forall j, (bisect_right a x <= j < length a)%nat -> x < nth j a 0).
Proof.
  intros Hs. unfold bisect_right.
  destruct (bisect_loop_spec a x 0 (length a)) as (G1 & G2 & G3);
    try assumption; try lia.
  repeat split; try assumption. lia.
Qed.

Lemma y_for_page_nth (w : Widget) (i : nat) :
  (i < length (_page_offsets (layout w)))%nat ->
  y_for_page (Z.of_nat i) w = nth i (_page_offsets (layout w)) 0.
Proof.
  intros Hi. unfold y_for_page.
  assert (E1 : (0 <=? Z.of_nat i) = true) by (apply Z.leb_le; lia).
  assert (E2 : (Z.of_nat i <? Z.of_nat (length (_page_offsets (layout w)))) = true)
    by (apply Z.ltb_lt; lia).
  rewrite E1, E2, Nat2Z.id. reflexivity.
Qed.

(** The layout of a loaded document, in one place. *)
Lemma loaded_layout (w : Widget) (d : Document) :
  loaded d w -> (0.1 <= _zoom (zs w))%Q ->
  StronglySorted Z.lt (_page_offsets (layout (_recalculate_layout w)))
  /\ length (_page_offsets (layout (_recalculate_layout w))) = length d
  /\ (d <> [] -> nth 0 (_page_offsets (layout (_recalculate_layout w))) 0 = PAGE_GAP)
  /\ (forall i, (S i < length d)%nat ->
        nth (S i) (_page_offsets (layout (_recalculate_layout w))) 0
        = nth i (_page_offsets (layout (_recalculate_layout w))) 0
          + nth i (_page_heights (layout (_recalculate_layout w))) 0 + PAGE_GAP).
Proof.
  intros Hl Hz1.
  assert (Hz : (0 <= _zoom (zs w))%Q) by lra.
  rewrite (_recalculate_layout_offsets w d Hl), (_recalculate_layout_heights w d Hl).
  destruct (layout_loop_sorted (_zoom (zs w)) (map page_rect d) Hz PAGE_GAP) as [_ Hs].
  pose proof (layout_loop_length (_zoom (zs w)) (map page_rect d) PAGE_GAP) as Hlen.
  rewrite length_map in Hlen.
  split; [exact Hs |]. split; [exact Hlen |]. split.
  - intros Hne. destruct d as [| p d]; [congruence |]. cbn [map]. apply layout_loop_head.
  - intros i Hi. apply layout_loop_next. rewrite length_map. exact Hi.
Qed.

(** X3.  In the layout of a loaded document, [page_at_y] returns a page of the
    document for every [y], and that page is the one whose band holds [y]: its
    top, as [y_for_page] gives it, is at or above [y] (for a [y] below the
    first gap), and the top of the next page is below [y]. *)
Theorem page_at_y_finds_the_band :
  forall (w : Widget) (d : Document) (y : Z),
    loaded d w -> d <> [] ->
    (0.1 <= _zoom (zs w))%Q -> (_zoom (zs w) <= 8.0)%Q ->
    0 <= page_at_y (_recalculate_layout w) y < page_count d
    /\ (0 < page_at_y (_recalculate_layout w) y \/ PAGE_GAP <= y ->
        y_for_page (page_at_y (_recalculate_layout w) y) (_recalculate_layout w) <= y)
    /\ (page_at_y (_recalculate_layout w) y + 1 < page_count d ->
        y < y_for_page (page_at_y (_recalculate_layout w) y + 1) (_recalculate_layout w)).
Proof.
  intros w d y Hl Hne Hz1 Hz2.
  destruct (loaded_layout w d Hl Hz1) as (Hs & Hlen & Hhead & _).
  specialize (Hhead Hne).
  assert (Hpos : (0 < length d)%nat) by (destruct d; [congruence | cbn; lia]).
  destruct (bisect_right_spec (_page_offsets (layout (_recalculate_layout w))) y Hs)
    as (G1 & G2 & G3).
  set (w' := _recalculate_layout w) in *.
  assert (Hp : page_at_y w' y
               = Z.max 0 (Z.min (Z.of_nat (bisect_right (_page_offsets (layout w')) y) - 1)
                            (Z.of_nat (length (_page_offsets (layout w'))) - 1))).
  { unfold page_at_y. destruct (_page_offsets (layout w')); [cbn in Hlen; lia | reflexivity]. }
  set (r := bisect_right (_page_offsets (layout w')) y) in *.
  unfold page_count. rewrite Hlen in *.
  destruct r as [| r'].
  - assert (E : page_at_y w' y = Z.of_nat 0) by lia.
    rewrite E. split; [lia |]. split.
    + intros [H | H]; [lia |]. rewrite y_for_page_nth by lia.
      specialize (G3 0%nat). lia.
    + intros Hn. change (Z.of_nat 0 + 1) with (Z.of_nat 1).
      rewrite y_for_page_nth by lia. apply G3. lia.
  - assert (E : page_at_y w' y = Z.of_nat r') by lia.
    rewrite E. split; [lia |]. split.
    + intros _. rewrite y_for_page_nth by lia. apply G2. lia.
    + intros Hn. replace (Z.of_nat r' + 1) with (Z.of_nat (S r')) by lia.
      rewrite y_for_page_nth by lia. apply G3. lia.
Qed.

Lemma page_at_y_finds_the_band_witness :
  0 <= page_at_y (_recalculate_layout two_pages_widget) 1231 < page_count two_pages
  /\ (0 < page_at_y (_recalculate_layout two_pages_widget) 1231 \/ PAGE_GAP <= 1231 ->
      y_for_page (page_at_y (_recalculate_layout two_pages_widget) 1231)
        (_recalculate_layout two_pages_widget) <= 1231)
  /\ (page_at_y (_recalculate_layout two_pages_widget) 1231 + 1 < page_count two_pages ->
      1231 < y_for_page (page_at_y (_recalculate_layout two_pages_widget) 1231 + 1)
               (_recalculate_layout two_pages_widget)).
Proof.
  apply (page_at_y_finds_the_band two_pages_widget two_pages 1231).
  - apply set_document_loaded.
  - discriminate.
  - vm_compute. discriminate.
  - vm_compute. discriminate.
Defined.

(** X4.  In the layout of a loaded document, [_visible_page_range] leaves out
    no page that shows: a page whose top is at most 500 pixels below the
    bottom of the viewport and whose bottom is at most 500 pixels above its
    top lies within the range. *)
Theorem visible_range_covers_the_viewport :
  forall (w : Widget) (d : Document) (sa : ScrollArea) (i : nat),
    loaded d w ->
    (0.1 <= _zoom (zs w))%Q -> (_zoom (zs w) <= 8.0)%Q ->
    (i < length d)%nat ->
    nth i (_page_offsets (layout (_recalculate_layout w))) 0
      <= vbar_value sa + viewport_height sa + 500 ->
    vbar_value sa - 500
      <= nth i (_page_offsets (layout (_recalculate_layout w))) 0
         + nth i (_page_heights (layout (_recalculate_layout w))) 0 ->
    fst (_visible_page_range (Some sa) (_recalculate_layout w)) <= Z.of_nat i
    /\ Z.of_nat i < snd (_visible_page_range (Some sa) (_recalculate_layout w)).
Proof.
  intros w d sa i Hl Hz1 Hz2 Hi Htop Hbot.
  destruct (loaded_layout w d Hl Hz1) as (Hs & Hlen & _ & Hnext).
  set (w' := _recalculate_layout w) in *.
  unfold _visible_page_range.
  assert (En : (Z.of_nat (length (_page_offsets (layout w'))) =? 0) = false)
    by (apply Z.eqb_neq; lia).
  rewrite En. cbn [fst snd].
  destruct (bisect_right_spec (_page_offsets (layout w')) (vbar_value sa - 500) Hs)
    as (A1 & A2 & A3).
  destruct (bisect_right_spec (_page_offsets (layout w'))
              (vbar_value sa + viewport_height sa + 500) Hs) as (B1 & B2 & B3).
  set (r1 := bisect_right (_page_offsets (layout w')) (vbar_value sa - 500)) in *.
  set (r2 := bisect_right (_page_offsets (layout w'))
               (vbar_value sa + viewport_height sa + 500)) in *.
  split.
  - destruct (le_lt_dec r1 (S i)) as [Hle | Hgt]; [lia |].
    exfalso. specialize (A2 (S i) Hgt).
    rewrite Hnext in A2 by lia. unfold PAGE_GAP in A2. lia.
  - destruct (le_lt_dec r2 i) as [Hle | Hgt]; [| lia].
    exfalso. specialize (B3 i). lia.
Qed.

Lemma visible_range_covers_the_viewport_witness :
  fst (_visible_page_range (Some scrolled) (_recalculate_layout two_pages_widget))
    <= Z.of_nat 1
  /\ Z.of_nat 1
     < snd (_visible_page_range (Some scrolled) (_recalculate_layout two_pages_widget)).
Proof.
  apply (visible_range_covers_the_viewport two_pages_widget two_pages scrolled 1).
  - apply set_document_loaded.
  - vm_compute. discriminate.
  - vm_compute. discriminate.
  - cbn. lia.
  - vm_compute. discriminate.
  - vm_compute. discriminate.
Defined.

(** With the bar at 700 and a viewport 600 high, both pages are in the range;
    with the bar at 2000, past the first page by more than 500, only the
    second. *)
Example visible_range_of_two_pages :
  _visible_page_range (Some scrolled) two_pages_widget = (0, 2)
  /\ _visible_page_range (Some (mkScrollArea 2000 600)) two_pages_widget = (1, 2)
  /\ _visible_page_range None two_pages_widget = (0, 2).
Proof. vm_compute. repeat split; reflexivity. Qed.

End NavigationFacts.

(** ** Pre-rendering around the visible page *)

Section PrerenderFacts.

Import Py Fitz Viewer Navigation OrderedDict.

Lemma set_mem_set_add (k k' : Key) (s : KeySet) :
  set_mem k (set_add k' s) = key_eqb k k' || set_mem k s.
Proof.
  unfold set_add. destruct (set_mem k' s) eqn:E; [| reflexivity].
  destruct (key_eqb k k') eqn:G; [| reflexivity].
  apply key_eqb_eq in G. subst. exact E.
Qed.

Lemma In_py_range (a b i : Z) : In i (py_range a b) <-> (a <= i < b)%Z.
Proof.
  unfold py_range. rewrite in_map_iff. split.
  - intros (k & E & Hin). apply in_seq in Hin. lia.
  - intros H. exists (Z.to_nat (i - a)). split; [lia |]. apply in_seq. lia.
Qed.

Lemma _start_render_task_can_render (i : Z) (key : Key) (w : Widget) :
  can_render w ->
  _start_render_task i key w
  = with_rs (mkRenderState (_render_cache (rs w)) (_low_res_cache (rs w))
               (set_add key (_pending_renders (rs w)))) w.
Proof.
  intros [Hd Hf]. unfold _start_render_task. rewrite Hd. cbn [negb orb].
  destruct Hf as [Hf | Hf]; rewrite Hf; cbn [negb andb];
    [reflexivity | rewrite andb_false_r; reflexivity].
Qed.

Lemma prerender_step_spec (w : Widget) (i : Z) :
  can_render w ->
  docs (prerender_step w i) = docs w
  /\ zs (prerender_step w i) = zs w
  /\ _render_cache (rs (prerender_step w i)) = _render_cache (rs w)
  /\ _low_res_cache (rs (prerender_step w i)) = _low_res_cache (rs w)
  /\ (forall k, set_mem k (_pending_renders (rs (prerender_step w i))) = true
                <-> set_mem k (_pending_renders (rs w)) = true
                    \/ (k = make_key i (_zoom (zs w))
                        /\ contains key_eqb k (_render_cache (rs w)) = false)).
Proof.
  intros Hc. unfold prerender_step.
  destruct (contains key_eqb _ (_render_cache (rs w))) eqn:E1; cbn [negb andb].
  - repeat split; try tauto.
    intros [H | [-> H]]; [exact H | congruence].
  - destruct (set_mem _ (_pending_renders (rs w))) eqn:E2; cbn [negb].
    + repeat split; try tauto.
      intros [H | [-> H]]; [exact H | exact E2].
    + rewrite (_start_render_task_can_render _ _ _ Hc).
      cbn [docs zs rs with_rs _render_cache _low_res_cache _pending_renders].
      repeat split.
      * rewrite set_mem_set_add. intros H. apply orb_true_iff in H.
        destruct H as [H | H]; [right | left; exact H].
        apply key_eqb_eq in H. subst. split; [reflexivity | exact E1].
      * rewrite set_mem_set_add. intros [H | [-> H]]; apply orb_true_iff;
          [right; exact H | left; apply key_eqb_refl].
Qed.

Lemma prerender_loop_spec (l : list Z) :
  forall w : Widget,
    can_render w ->
    docs (fold_left prerender_step l w) = docs w
    /\ zs (fold_left prerender_step l w) = zs w
    /\ _render_cache (rs (fold_left prerender_step l w)) = _render_cache (rs w)
    /\ _low_res_cache (rs (fold_left prerender_step l w)) = _low_res_cache (rs w)
    /\ (forall k, set_mem k (_pending_renders (rs (fold_left prerender_step l w))) = true
                  <-> set_mem k (_pending_renders (rs w)) = true
                      \/ (exists i, In i l /\ k = make_key i (_zoom (zs w))
                                    /\ contains key_eqb k (_render_cache (rs w)) = false)).
Proof.
  induction l as [| i l IH]; intros w Hc; cbn [fold_left].
  - repeat split; try tauto. intros [H | (i & [] & _)]. exact H.
  - destruct (prerender_step_spec w i Hc) as (S1 & S2 & S3 & S4 & S5).
    assert (Hc' : can_render (prerender_step w i)) by (unfold can_render; rewrite S1; exact Hc).
    destruct (IH (prerender_step w i) Hc') as (I1 & I2 & I3 & I4 & I5).
    rewrite I1, I2, I3, I4, S1, S2, S3, S4.
    repeat split. 
    + intros H. apply I5 in H. destruct H as [H | (j & Hj & E & G)].
      * apply S5 in H. destruct H as [H | [E G]]; [left; exact H |].
        right. exists i. split; [left; reflexivity | split; assumption].
      * right. exists j. rewrite S2, S3 in *. split; [right; exact Hj | split; assumption].
    + intros H. apply I5. destruct H as [H | (j & [-> | Hj] & E & G)].
      * left. apply S5. left. exact H.
      * left. apply S5. right. split; assumption.
      * right. exists j. rewrite S2, S3. split; [exact Hj | split; assumption].
Qed.

Lemma _prerender_near_pages_loop (center_page lookahead lookbehind : Z) (w : Widget) :
  doc_truthy (_doc (docs w)) = true ->
  _prerender_near_pages center_page lookahead lookbehind w
  = fold_left prerender_step
      (py_range (Z.max 0 (center_page - lookbehind))
         (Z.min (Z.of_nat (length (_page_offsets (layout w)))) (center_page + lookahead + 1)))
      w.
Proof. intros H. unfold _prerender_near_pages. rewrite H. reflexivity. Qed.

(** What [_prerender_near_pages] leaves behind when a worker can be started. *)
Lemma _prerender_near_pages_spec (center_page lookahead lookbehind : Z) (w : Widget) :
  can_render w ->
  zs (_prerender_near_pages center_page lookahead lookbehind w) = zs w
  /\ _render_cache (rs (_prerender_near_pages center_page lookahead lookbehind w))
     = _render_cache (rs w)
  /\ _low_res_cache (rs (_prerender_near_pages center_page lookahead lookbehind w))
     = _low_res_cache (rs w)
  /\ (forall i, in_window center_page lookahead lookbehind w i ->
        cached_or_pending i (_prerender_near_pages center_page lookahead lookbehind w))
  /\ (forall k,
        set_mem k (_pending_renders
                     (rs (_prerender_near_pages center_page lookahead lookbehind w))) = true ->
        set_mem k (_pending_renders (rs w)) = true
        \/ exists i, in_window center_page lookahead lookbehind w i
                     /\ k = make_key i (_zoom (zs w))).
Proof.
  intros Hc. rewrite (_prerender_near_pages_loop _ _ _ _ (proj1 Hc)).
  destruct (prerender_loop_spec
              (py_range (Z.max 0 (center_page - lookbehind))
                 (Z.min (Z.of_nat (length (_page_offsets (layout w))))
                    (center_page + lookahead + 1))) w Hc) as (L1 & L2 & L3 & L4 & L5).
  split; [exact L2 |]. split; [exact L3 |]. split; [exact L4 |]. split.
  - intros i Hi. unfold cached_or_pending. rewrite L2, L3.
    destruct (contains key_eqb (make_key i (_zoom (zs w))) (_render_cache (rs w))) eqn:E;
      [left; reflexivity | right].
    apply L5. right. exists i. split; [apply In_py_range; exact Hi |].
    split; [reflexivity | exact E].
  - intros k H. apply L5 in H. destruct H as [H | (i & Hi & E & _)]; [left; exact H |].
    right. exists i. split; [apply In_py_range; exact Hi | exact E].
Qed.

(** X5.  When a worker can be started, [_prerender_near_pages] leaves every
    page of its window (from [lookbehind] pages before [center_page] to
    [lookahead] pages after it, within the document) with its high-res pixmap
    cached or a render pending; it touches neither cache, and it makes nothing
    pending but pages of the window. *)
Theorem prerender_schedules_the_window :
  forall (w : Widget) (center_page lookahead lookbehind : Z),
    can_render w ->
    _render_cache (rs (_prerender_near_pages center_page lookahead lookbehind w))
      = _render_cache (rs w)
    /\ _low_res_cache (rs (_prerender_near_pages center_page lookahead lookbehind w))
       = _low_res_cache (rs w)
    /\ (forall i, in_window center_page lookahead lookbehind w i ->
          cached_or_pending i (_prerender_near_pages center_page lookahead lookbehind w))
    /\ (forall k,
          set_mem k (_pending_renders
                       (rs (_prerender_near_pages center_page lookahead lookbehind w))) = true ->
          set_mem k (_pending_renders (rs w)) = true
          \/ exists i, in_window center_page lookahead lookbehind w i
                       /\ k = make_key i (_zoom (zs w))).
Proof.
  intros w center_page lookahead lookbehind Hc.
  destruct (_prerender_near_pages_spec center_page lookahead lookbehind w Hc)
    as (_ & H1 & H2 & H3 & H4).
  repeat split; assumption.
Qed.

Lemma prerender_schedules_the_window_witness :
  _render_cache (rs (_prerender_near_pages 1 10 4 two_pages_widget))
    = _render_cache (rs two_pages_widget)
  /\ _low_res_cache (rs (_prerender_near_pages 1 10 4 two_pages_widget))
     = _low_res_cache (rs two_pages_widget)
  /\ (forall i, in_window 1 10 4 two_pages_widget i ->
        cached_or_pending i (_prerender_near_pages 1 10 4 two_pages_widget))
  /\ (forall k,
        set_mem k (_pending_renders (rs (_prerender_near_pages 1 10 4 two_pages_widget))) = true ->
        set_mem k (_pending_renders (rs two_pages_widget)) = true
        \/ exists i, in_window 1 10 4 two_pages_widget i
                     /\ k = make_key i (_zoom (zs two_pages_widget))).
Proof.
  apply (prerender_schedules_the_window two_pages_widget 1 10 4).
  split; [reflexivity | left; reflexivity].
Defined.

(** Without a document nothing is scheduled; with the two pages, both become
    pending. *)
Example prerender_of_two_pages :
  _prerender_near_pages 0 10 4 init = init
  /\ length (_pending_renders (rs (_prerender_near_pages 1 10 4 two_pages_widget))) = 2%nat.
Proof. split; reflexivity. Qed.

(** X6.  After [_on_scroll] on a loaded document that a worker can render, the
    page at the centre of the viewport has its high-res pixmap cached or a
    render pending. *)
Theorem scroll_schedules_the_visible_page :
  forall (w : Widget) (sa : ScrollArea),
    can_render w ->
    _page_offsets (layout w) <> [] ->
    cached_or_pending (visible_page (Some sa) w) (_on_scroll sa w).
Proof.
  intros w sa Hc Hne. unfold _on_scroll.
  destruct (_prerender_near_pages_spec (visible_page (Some sa) w) 10 4 w Hc)
    as (_ & _ & _ & H & _).
  apply H. unfold in_window, visible_page, page_at_y.
  destruct (_page_offsets (layout w)) as [| o offsets] eqn:E; [congruence |].
  rewrite <- E. assert (Hlen : (0 < length (_page_offsets (layout w)))%nat)
    by (rewrite E; cbn; lia).
  lia.
Qed.

Lemma scroll_schedules_the_visible_page_witness :
  cached_or_pending (visible_page (Some scrolled) two_pages_widget)
    (_on_scroll scrolled two_pages_widget).
Proof.
  apply (scroll_schedules_the_visible_page two_pages_widget scrolled).
  - split; [reflexivity | left; reflexivity].
  - discriminate.
Defined.

End PrerenderFacts.

(** ** Painting from the cache *)

Section PaintFacts.

Import Py Fitz Viewer OrderedDict.

Lemma _start_render_task_zs (i : Z) (key : Key) (w : Widget) :
  zs (_start_render_task i key w) = zs w.
Proof. unfold _start_render_task. destruct (_ || _); reflexivity. Qed.

(** What [_get_page_pixmap] returns, read off the two caches. *)
Lemma painted_eq (page_index target_w target_h : Z) (w : Widget) :
  painted page_index target_w target_h w
  = if contains key_eqb (make_key page_index (_zoom (zs w))) (_render_cache (rs w))
    then get key_eqb (make_key page_index (_zoom (zs w)))
           (move_to_end key_eqb (make_key page_index (_zoom (zs w))) (_render_cache (rs w)))
    else
      match get key_eqb (make_key page_index (_zoom (zs w))) (_low_res_cache (rs w)) with
      | Some low => Some (scaled target_w target_h low)
      | None =>
          if _is_zooming (zs w) then
            match rev (filter (fun e : Key * QPixmap => Z.eqb (fst (fst e)) page_index)
                         (_render_cache (rs w))) with
            | (_, best_pixmap) :: _ => Some (scaled target_w target_h best_pixmap)
            | [] => None
            end
          else None
      end.
Proof.
  unfold painted, _get_page_pixmap.
  destruct (contains key_eqb _ (_render_cache (rs w))); [reflexivity |].
  destruct (get key_eqb _ (_low_res_cache (rs w))); [reflexivity |].
  assert (Hz : _is_zooming
                 (zs (if negb (set_mem (make_key page_index (_zoom (zs w)))
                                 (_pending_renders (rs w)))
                      then _start_render_task page_index
                             (make_key page_index (_zoom (zs w))) w
                      else w)) = _is_zooming (zs w)).
  { destruct (negb _); [rewrite _start_render_task_zs |]; reflexivity. }
  rewrite Hz. destruct (_is_zooming (zs w)); [| reflexivity].
  destruct (rev _) as [| [? ?] ?]; reflexivity.
Qed.

Lemma get_app_r (k : Key) (a b : Cache) :
  ~ In k (keys a) -> get key_eqb k (a ++ b) = get key_eqb k b.
Proof.
  induction a as [| [k' v'] a IH]; cbn; [reflexivity |].
  intros H. assert (E : key_eqb k k' = false).
  { apply key_eqb_neq. intros ->. apply H. left. reflexivity. }
  rewrite E. apply IH. intros Hin. apply H. right. exact Hin.
Qed.

Lemma not_In_others (k : Key) (l : list Key) : ~ In k (others key_eqb k l).
Proof.
  unfold others. intros H. apply filter_In in H. destruct H as [_ H].
  rewrite key_eqb_refl in H. discriminate.
Qed.

Lemma get_set_item (k : Key) (v : QPixmap) (d : Cache) :
  get key_eqb k (set_item key_eqb k v d) = Some v.
Proof.
  induction d as [| [k' v'] d IH]; cbn.
  - rewrite key_eqb_refl. reflexivity.
  - destruct (key_eqb k k') eqn:E; cbn; rewrite E; [reflexivity | exact IH].
Qed.

(** After [d[k] = v; d.move_to_end(k)], the dictionary ends with [(k, v)] and
    holds [k] nowhere else. *)
Lemma set_item_move_to_end_last (k : Key) (v : QPixmap) (d : Cache) :
  move_to_end key_eqb k (set_item key_eqb k v d)
  = del_item key_eqb k (set_item key_eqb k v d) ++ [(k, v)]
  /\ ~ In k (keys (del_item key_eqb k (set_item key_eqb k v d))).
Proof.
  unfold move_to_end. rewrite get_set_item. split; [reflexivity |].
  rewrite (keys_del_item key_eqb). apply not_In_others.
Qed.

(** The eviction loop with a capacity of at least one keeps the newest
    entry. *)
Lemma enforce_limit_keeps_last (cap : nat) (a : Cache) (e : Key * QPixmap) :
  (0 < cap)%nat ->
  exists a', enforce_limit cap (a ++ [e]) = a' ++ [e]
             /\ (forall k, In k (keys a') -> In k (keys a)).
Proof.
  intros Hcap. rewrite (enforce_limit_skipn (V := QPixmap)), length_app. cbn [length].
  rewrite skipn_app.
  replace (length a + 1 - cap - length a)%nat with 0%nat by lia.
  exists (skipn (length a + 1 - cap) a). split; [reflexivity |].
  intros k Hin. unfold keys in *. apply in_map_iff in Hin. destruct Hin as (x & E & Hin).
  apply in_map_iff. exists x. split; [exact E |].
  rewrite <- (firstn_skipn (length a + 1 - cap) a). apply in_or_app. right. exact Hin.
Qed.

Lemma get_last (k : Key) (v : QPixmap) (a : Cache) :
  ~ In k (keys a) -> get key_eqb k (a ++ [(k, v)]) = Some v.
Proof. intros H. rewrite get_app_r by exact H. cbn. rewrite key_eqb_refl. reflexivity. Qed.

Lemma contains_last (k : Key) (v : QPixmap) (a : Cache) :
  contains key_eqb k (a ++ [(k, v)]) = true.
Proof.
  apply (contains_In key_eqb key_eqb_eq). unfold keys. rewrite map_app.
  apply in_or_app. right. left. reflexivity.
Qed.

Lemma move_to_end_last (k : Key) (v : QPixmap) (a : Cache) :
  ~ In k (keys a) -> move_to_end key_eqb k (a ++ [(k, v)]) = a ++ [(k, v)].
Proof.
  intros H. unfold move_to_end. rewrite get_last by exact H.
  f_equal. unfold del_item. rewrite filter_app. cbn. rewrite key_eqb_refl. cbn.
  rewrite app_nil_r. apply forallb_filter_id. apply forallb_forall. intros [k' v'] Hin.
  apply negb_true_iff. apply key_eqb_neq. intros ->. apply H.
  unfold keys. apply in_map_iff. exists (k', v'). split; [reflexivity | exact Hin].
Qed.

Lemma set_mem_set_remove (k : Key) (s : KeySet) : set_mem k (set_remove k s) = false.
Proof.
  unfold set_mem, set_remove. induction s as [| k' s IH]; cbn; [reflexivity |].
  destruct (key_eqb k k') eqn:E; cbn; [exact IH | rewrite E; exact IH].
Qed.

Lemma _on_render_finished_pending (image : QImage) (is_high_res : bool) (page_index : Z)
    (key : Key) (w : Widget) :
  _pending_renders (rs (_on_render_finished image is_high_res page_index key w))
  = if is_high_res && set_mem key (_pending_renders (rs w))
    then set_remove key (_pending_renders (rs w))
    else _pending_renders (rs w).
Proof.
  unfold _on_render_finished. cbn [zs with_rs].
  destruct (key_eqb key _); cbn [negb]; [| reflexivity].
  destruct (isNull image); cbn [negb]; [reflexivity |].
  destruct is_high_res; reflexivity.
Qed.

Lemma valid_result_delivered (image : QImage) (page_index : Z) (w : Widget) :
  isNull image = false ->
  valid_result image page_index (make_key page_index (_zoom (zs w))) w = true.
Proof. intros H. unfold valid_result. rewrite key_eqb_refl, H. reflexivity. Qed.

(** X7.  Once the high-res result for a page at the current zoom has arrived,
    the next paint of that page gets exactly that pixmap, not scaled; the
    low-res preview of the page at that zoom is gone, and the render is no
    longer pending. *)
Theorem high_res_result_is_painted :
  forall (w : Widget) (image : QImage) (page_index target_w target_h : Z),
    isNull image = false ->
    painted page_index target_w target_h (delivered image true page_index w)
      = Some (pixmap_of_image image)
    /\ contains key_eqb (make_key page_index (_zoom (zs w)))
         (_low_res_cache (rs (delivered image true page_index w))) = false
    /\ set_mem (make_key page_index (_zoom (zs w)))
         (_pending_renders (rs (delivered image true page_index w))) = false.
Proof.
  intros w image page_index target_w target_h Hnull.
  pose proof (valid_result_delivered image page_index w Hnull) as Hv.
  unfold delivered.
  set (key := make_key page_index (_zoom (zs w))) in *.
  destruct (_on_render_finished_caches image true page_index key w) as [H1 H2].
  rewrite Hv in H1, H2. cbn [andb] in H1.
  destruct (set_item_move_to_end_last key (pixmap_of_image image) (_render_cache (rs w)))
    as [E Hnot].
  rewrite E in H1.
  destruct (enforce_limit_keeps_last 30
              (del_item key_eqb key
                 (set_item key_eqb key (pixmap_of_image image) (_render_cache (rs w))))
              (key, pixmap_of_image image) (Nat.lt_0_succ 29))
    as (a' & Ea & Hsub).
  rewrite Ea in H1.
  assert (Hnot' : ~ In key (keys a')) by (intros Hin; apply Hnot, Hsub, Hin).
  split; [| split].
  - rewrite painted_eq, _on_render_finished_zs. fold key. rewrite H1.
    rewrite contains_last, move_to_end_last by exact Hnot'.
    apply get_last. exact Hnot'.
  - rewrite H2. apply (contains_not_In key_eqb key_eqb_eq).
    rewrite (keys_del_item key_eqb). apply not_In_others.
  - rewrite _on_render_finished_pending. cbn [andb].
    destruct (set_mem key (_pending_renders (rs w))) eqn:G; [| exact G].
    apply set_mem_set_remove.
Qed.

Lemma high_res_result_is_painted_witness :
  painted 0 900 1200 (delivered (mkImage false 7 2.0) true 0 two_pages_widget)
    = Some (pixmap_of_image (mkImage false 7 2.0))
  /\ contains key_eqb (make_key 0 (_zoom (zs two_pages_widget)))
       (_low_res_cache (rs (delivered (mkImage false 7 2.0) true 0 two_pages_widget))) = false
  /\ set_mem (make_key 0 (_zoom (zs two_pages_widget)))
       (_pending_renders (rs (delivered (mkImage false 7 2.0) true 0 two_pages_widget))) = false.
Proof.
  apply (high_res_result_is_painted two_pages_widget (mkImage false 7 2.0) 0 900 1200).
  reflexivity.
Defined.

Lemma set_item_new (k : Key) (v : QPixmap) (d : Cache) :
  contains key_eqb k d = false -> set_item key_eqb k v d = d ++ [(k, v)].
Proof.
  unfold contains. induction d as [| [k' v'] d IH]; cbn; [reflexivity |].
  destruct (key_eqb k k'); cbn; [discriminate |]. intros H. rewrite IH by exact H. reflexivity.
Qed.

Lemma length_set_item_present (k : Key) (v : QPixmap) (d : Cache) :
  contains key_eqb k d = true -> length (set_item key_eqb k v d) = length d.
Proof.
  intros H. rewrite <- !(length_keys (K := Key) (V := QPixmap)).
  rewrite keys_set_item, H. reflexivity.
Qed.

(** X8.  In every state the widget can reach, once the low-res preview of a
    page at the current zoom has arrived and the high-res cache has no pixmap
    for that page and zoom, the next paint of the page gets that preview,
    scaled to the size asked for. *)
Theorem low_res_result_is_painted_scaled :
  forall (env : Env) (events : list Event) (image : QImage)
         (page_index target_w target_h : Z),
    isNull image = false ->
    contains key_eqb (make_key page_index (_zoom (zs (widget_after env events))))
      (_render_cache (rs (widget_after env events))) = false ->
    painted page_index target_w target_h
      (delivered image false page_index (widget_after env events))
    = Some (scaled target_w target_h (pixmap_of_image image)).
Proof.
  intros env events image page_index target_w target_h Hnull Hmiss.
  destruct (cache_inv_after env events) as (_ & _ & _ & Hlen).
  set (w := widget_after env events) in *.
  pose proof (valid_result_delivered image page_index w Hnull) as Hv.
  unfold delivered.
  set (key := make_key page_index (_zoom (zs w))) in *.
  destruct (_on_render_finished_caches image false page_index key w) as [H1 H2].
  rewrite Hv in H1, H2. cbn [andb] in H1.
  rewrite painted_eq, _on_render_finished_zs. fold key. rewrite H1, Hmiss, H2.
  assert (G : get key_eqb key
                (enforce_limit 150
                   (set_item key_eqb key (pixmap_of_image image) (_low_res_cache (rs w))))
              = Some (pixmap_of_image image)).
  { destruct (contains key_eqb key (_low_res_cache (rs w))) eqn:E.
    - rewrite (enforce_limit_within (V := QPixmap)).
      + apply get_set_item.
      + rewrite length_set_item_present by exact E. exact Hlen.
    - rewrite set_item_new by exact E.
      destruct (enforce_limit_keeps_last 150 (_low_res_cache (rs w))
                  (key, pixmap_of_image image) (Nat.lt_0_succ 149)) as (a' & Ea & Hsub).
      rewrite Ea. apply get_last. intros Hin.
      apply (contains_not_In key_eqb key_eqb_eq) in E. apply E, Hsub, Hin. }
  rewrite G. reflexivity.
Qed.

Lemma low_res_result_is_painted_scaled_witness :
  painted 0 600 800 (delivered (mkImage false 3 0.4) false 0
                       (widget_after plain_env [EvSetDocument (Some two_pages) [97%N] false]))
  = Some (scaled 600 800 (pixmap_of_image (mkImage false 3 0.4))).
Proof.
  apply (low_res_result_is_painted_scaled plain_env
           [EvSetDocument (Some two_pages) [97%N] false] (mkImage false 3 0.4) 0 600 800).
  - reflexivity.
  - reflexivity.
Defined.

Lemma contains_filter_page (p : Z) (z : Qc) (d : Cache) :
  contains key_eqb (p, z)
    (filter (fun e : Key * QPixmap => negb (Z.eqb (fst (fst e)) p)) d) = false.
Proof.
  apply (contains_not_In key_eqb key_eqb_eq). unfold keys. intros H.
  apply in_map_iff in H. destruct H as ([[p' z'] v] & E & Hin).
  apply filter_In in Hin. destruct Hin as [_ Hin]. cbn in *.
  inversion E; subst. rewrite Z.eqb_refl in Hin. discriminate.
Qed.

Lemma get_filter_other_page (p q : Z) (z : Qc) (d : Cache) :
  q <> p ->
  get key_eqb (q, z) (filter (fun e : Key * QPixmap => negb (Z.eqb (fst (fst e)) p)) d)
  = get key_eqb (q, z) d.
Proof.
  intros Hne. induction d as [| [[p' z'] v] d IH]; cbn; [reflexivity |].
  destruct (Z.eqb p' p) eqn:E; cbn.
  - apply Z.eqb_eq in E. subst.
    assert (G : key_eqb (q, z) (p, z') = false).
    { apply key_eqb_neq. intros H. inversion H. contradiction. }
    rewrite G. exact IH.
  - destruct (key_eqb (q, z) (p', z')); [reflexivity | exact IH].
Qed.

Lemma contains_get (k : Key) (d : Cache) :
  contains key_eqb k d = match get key_eqb k d with Some _ => true | None => false end.
Proof.
  unfold contains. induction d as [| [k' v'] d IH]; cbn; [reflexivity |].
  destruct (key_eqb k k'); [reflexivity | exact IH].
Qed.

Lemma get_filter_page (p : Z) (z : Qc) (d : Cache) :
  get key_eqb (p, z)
    (filter (fun e : Key * QPixmap => negb (Z.eqb (fst (fst e)) p)) d) = None.
Proof.
  pose proof (contains_filter_page p z d) as H. rewrite contains_get in H.
  destruct (get key_eqb _ _); [discriminate | reflexivity].
Qed.

Lemma filter_page_of_other (p q : Z) (d : Cache) :
  filter (fun e : Key * QPixmap => Z.eqb (fst (fst e)) q)
    (filter (fun e : Key * QPixmap => negb (Z.eqb (fst (fst e)) p)) d)
  = if Z.eqb q p then [] else filter (fun e : Key * QPixmap => Z.eqb (fst (fst e)) q) d.
Proof.
  induction d as [| [[p' z'] v] d IH]; cbn; [destruct (Z.eqb q p); reflexivity |].
  destruct (Z.eqb p' p) eqn:E1; cbn; destruct (Z.eqb p' q) eqn:E2; cbn; rewrite IH;
    destruct (Z.eqb q p) eqn:E3; try reflexivity.
  - apply Z.eqb_eq in E1, E2. apply Z.eqb_neq in E3. congruence.
  - apply Z.eqb_neq in E1. apply Z.eqb_eq in E2, E3. congruence.
Qed.

Lemma get_move_to_end (k : Key) (d : Cache) :
  get key_eqb k (move_to_end key_eqb k d) = get key_eqb k d.
Proof.
  unfold move_to_end. destruct (get key_eqb k d) as [v |] eqn:E; [| exact E].
  apply get_last. rewrite (keys_del_item key_eqb). apply not_In_others.
Qed.

(** X9.  After [_invalidate_page] the page is painted from no cached pixmap,
    whatever the zoom and whether or not a zoom is under way: the painter gets
    nothing until a new render arrives.  What is painted for the other pages
    does not change. *)
Theorem invalidated_page_is_not_painted_from_cache :
  forall (w : Widget) (p q target_w target_h : Z),
    painted p target_w target_h (_invalidate_page p w) = None
    /\ (q <> p ->
        painted q target_w target_h (_invalidate_page p w) = painted q target_w target_h w).
Proof.
  intros w p q target_w target_h. rewrite !painted_eq.
  unfold _invalidate_page, make_key. cbn [zs rs with_rs _render_cache _low_res_cache].
  split.
  - rewrite contains_filter_page, get_filter_page.
    rewrite filter_page_of_other, Z.eqb_refl. cbn. destruct (_is_zooming (zs w)); reflexivity.
  - intros Hne. rewrite !get_move_to_end, !contains_get, !get_filter_other_page by exact Hne.
    rewrite filter_page_of_other.
    assert (E : Z.eqb q p = false) by (apply Z.eqb_neq; exact Hne).
    rewrite E. reflexivity.
Qed.

End PaintFacts.

(** ** The zoom controller *)

Section ZoomControl.

Import Py Fitz Viewer.

Lemma Qabs_self_sub (x : Q) : Qabs (x - x) == 0.
Proof.
  assert (H : x - x == 0) by ring. rewrite H. reflexivity.
Qed.

Lemma set_zoom_cases (z : Q) (w : Widget) :
  set_zoom z w = w \/ _zoom (zs (set_zoom z w)) = clamp_zoom z.
Proof.
  unfold set_zoom. destruct (Qltb _ _); [left; reflexivity | right].
  cbn [zs with_zs _zoom]. rewrite _recalculate_layout_zs. reflexivity.
Qed.

(** X10.  [set_zoom] is idempotent: asking for the same zoom a second time
    changes nothing, neither the zoom factors nor the layout nor the timers. *)
Theorem set_zoom_idempotent :
  forall (z : Q) (w : Widget), set_zoom z (set_zoom z w) = set_zoom z w.
Proof.
  intros z w. destruct (set_zoom_cases z w) as [E | E].
  - rewrite E. exact E.
  - unfold set_zoom at 1. rewrite E.
    assert (H : Qltb (Qabs (clamp_zoom z - clamp_zoom z)) 0.001 = true).
    { apply Qltb_true. rewrite Qabs_self_sub. reflexivity. }
    rewrite H. reflexivity.
Qed.

(** Rounding to three decimals moves a number by at most half a thousandth. *)
Lemma round_half_even_close (x : Q) :
  Qabs (x - inject_Z (round_half_even x)) <= 1 # 2.
Proof.
  pose proof (Qfloor_le x) as H1. pose proof (Qlt_floor x) as H2.
  rewrite inject_Z_plus in H2. change (inject_Z 1) with 1 in H2.
  unfold round_half_even.
  destruct (x - inject_Z (Qfloor x) ?= 1 # 2) eqn:E.
  - apply Qeq_alt in E.
    destruct (Z.even (Qfloor x)).
    + apply Qabs_Qle_condition. split; lra.
    + rewrite inject_Z_plus. change (inject_Z 1) with 1.
      apply Qabs_Qle_condition. split; lra.
  - apply Qlt_alt in E. apply Qabs_Qle_condition. split; lra.
  - apply Qgt_alt in E. rewrite inject_Z_plus. change (inject_Z 1) with 1.
    apply Qabs_Qle_condition. split; lra.
Qed.

Lemma py_round3_close (x : Q) : Qabs (x - py_round3 x) <= 0.0005.
Proof.
  pose proof (round_half_even_close (x * 1000)) as H.
  apply Qabs_Qle_condition in H. destruct H as [H1 H2].
  unfold py_round3. apply Qabs_Qle_condition.
  set (n := inject_Z (round_half_even (x * 1000))) in *.
  assert (E : n / 1000 == n * (1 # 1000)) by (field).
  rewrite E. split; lra.
Qed.

(** X11.  After [_on_zoom_finished] the committed zoom is within a thousandth
    of the zoom target and no render is pending; a second commit changes
    nothing. *)
Theorem zoom_commit_settles :
  forall w : Widget,
    Qabs (_zoom_target (zs (_on_zoom_finished w)) - _zoom (zs (_on_zoom_finished w))) <= 0.001
    /\ _pending_renders (rs (_on_zoom_finished w)) = []
    /\ _on_zoom_finished (_on_zoom_finished w) = _on_zoom_finished w.
Proof.
  intros w.
  assert (Hclose : Qabs (_zoom_target (zs (_on_zoom_finished w))
                         - _zoom (zs (_on_zoom_finished w))) <= 0.001).
  { unfold _on_zoom_finished.
    destruct (Qgtb (Qabs (_zoom_target (zs w) - _zoom (zs w))) 0.001) eqn:E;
      cbn [zs with_zs with_rs _zoom _zoom_target].
    - rewrite _recalculate_layout_zs. cbn [zs with_zs _zoom _zoom_target].
      pose proof (py_round3_close (_zoom_target (zs w))). lra.
    - apply Qgtb_false in E. exact E. }
  split; [exact Hclose |]. split.
  - unfold _on_zoom_finished. reflexivity.
  - assert (E : Qgtb (Qabs (_zoom_target (zs (_on_zoom_finished w))
                            - _zoom (zs (_on_zoom_finished w)))) 0.001 = false)
      by (apply Qgtb_false; exact Hclose).
    unfold _on_zoom_finished at 1. rewrite E.
    unfold _on_zoom_finished. reflexivity.
Qed.

(** One tick of the animation while it runs. *)
Lemma fire_lerp_timer_stopped (w : Widget) :
  _lerp_timer (zs w) = false -> fire_lerp_timer w = w.
Proof. intros H. unfold fire_lerp_timer. rewrite H. reflexivity. Qed.

Lemma iter_fire_lerp_timer_stopped (m : nat) (w : Widget) :
  _lerp_timer (zs w) = false -> Nat.iter m fire_lerp_timer w = w.
Proof.
  intros H. induction m as [| m IH]; [reflexivity |].
  rewrite Nat.iter_succ, IH. apply fire_lerp_timer_stopped. exact H.
Qed.

Lemma fire_lerp_timer_snap (w : Widget) :
  _lerp_timer (zs w) = true ->
  Qabs (_zoom_target (zs w) - _visual_zoom (zs w)) < 0.0005 ->
  _visual_zoom (zs (fire_lerp_timer w)) = _zoom_target (zs w)
  /\ _lerp_timer (zs (fire_lerp_timer w)) = false.
Proof.
  intros Ht Hd. unfold fire_lerp_timer, _lerp_zoom. rewrite Ht.
  apply Qltb_true in Hd. rewrite Hd. split; reflexivity.
Qed.

Lemma fire_lerp_timer_step (w : Widget) :
  _lerp_timer (zs w) = true ->
  0.0005 <= Qabs (_zoom_target (zs w) - _visual_zoom (zs w)) ->
  _lerp_timer (zs (fire_lerp_timer w)) = true
  /\ _zoom_target (zs (fire_lerp_timer w)) = _zoom_target (zs w)
  /\ Qabs (_zoom_target (zs (fire_lerp_timer w)) - _visual_zoom (zs (fire_lerp_timer w)))
     == 0.78 * Qabs (_zoom_target (zs w) - _visual_zoom (zs w)).
Proof.
  intros Ht Hd. unfold fire_lerp_timer, _lerp_zoom. rewrite Ht.
  apply Qltb_false in Hd. rewrite Hd. cbn [zs with_zs _lerp_timer _zoom_target _visual_zoom].
  split; [reflexivity |]. split; [reflexivity |].
  set (t := _zoom_target (zs w)). set (v := _visual_zoom (zs w)).
  assert (E : t - (v + (t - v) * 0.22) == 0.78 * (t - v)) by ring.
  rewrite E, Qabs_Qmult. reflexivity.
Qed.

Lemma lerp_settles_within (k : nat) :
  forall w : Widget,
    _lerp_timer (zs w) = true ->
    Qabs (_zoom_target (zs w) - _visual_zoom (zs w))
      < 0.0005 + inject_Z (Z.of_nat k) * 0.0001 ->
    forall m : nat, (S k <= m)%nat ->
      _visual_zoom (zs (Nat.iter m fire_lerp_timer w)) = _zoom_target (zs w)
      /\ _lerp_timer (zs (Nat.iter m fire_lerp_timer w)) = false.
Proof.
  assert (Hsnap : forall w : Widget,
             _lerp_timer (zs w) = true ->
             Qabs (_zoom_target (zs w) - _visual_zoom (zs w)) < 0.0005 ->
             forall m : nat, (1 <= m)%nat ->
               _visual_zoom (zs (Nat.iter m fire_lerp_timer w)) = _zoom_target (zs w)
               /\ _lerp_timer (zs (Nat.iter m fire_lerp_timer w)) = false).
  { intros w Ht Hd m Hm. destruct m as [| m]; [lia |].
    rewrite Nat.iter_succ_r.
    destruct (fire_lerp_timer_snap w Ht Hd) as [S1 S2].
    rewrite iter_fire_lerp_timer_stopped by exact S2. split; assumption. }
  induction k as [| k IH]; intros w Ht Hd m Hm.
  - apply Hsnap; [exact Ht | | lia].
    change (inject_Z (Z.of_nat 0)) with 0 in Hd. lra.
  - destruct (Qlt_le_dec (Qabs (_zoom_target (zs w) - _visual_zoom (zs w))) 0.0005)
      as [Hlt | Hge].
    + apply Hsnap; [exact Ht | exact Hlt | lia].
    + destruct m as [| m]; [lia |]. rewrite Nat.iter_succ_r.
      destruct (fire_lerp_timer_step w Ht Hge) as (S1 & S2 & S3).
      rewrite <- S2. apply IH; [exact S1 | | lia].
      rewrite S3. rewrite Nat2Z.inj_succ, <- Z.add_1_r, inject_Z_plus in Hd.
      change (inject_Z 1) with 1 in Hd. lra.
Qed.

(** X12.  The zoom animation ends: once [wheelEvent] has started the 16 ms
    timer, after finitely many of its ticks the visual zoom is the zoom target
    and the timer has stopped, and it stays so. *)
Theorem zoom_animation_terminates :
  forall w : Widget,
    _lerp_timer (zs w) = true ->
    exists n : nat, forall m : nat, (n <= m)%nat ->
      _visual_zoom (zs (Nat.iter m fire_lerp_timer w)) = _zoom_target (zs w)
      /\ _lerp_timer (zs (Nat.iter m fire_lerp_timer w)) = false.
Proof.
  intros w Ht.
  set (d := Qabs (_zoom_target (zs w) - _visual_zoom (zs w))).
  exists (S (Z.to_nat (Qceiling (d * 10000)))).
  apply lerp_settles_within; [exact Ht |]. fold d.
  pose proof (Qabs_nonneg (_zoom_target (zs w) - _visual_zoom (zs w))) as Hd. fold d in Hd.
  pose proof (Qle_ceiling (d * 10000)) as Hc.
  assert (Hz : (0 <= Qceiling (d * 10000))%Z).
  { rewrite <- (Qceiling_Z 0). apply Qceiling_resp_le.
    change (inject_Z 0) with 0. lra. }
  rewrite Z2Nat.id by exact Hz. lra.
Qed.

Lemma zoom_animation_terminates_witness :
  exists n : nat, forall m : nat, (n <= m)%nat ->
    _visual_zoom (zs (Nat.iter m fire_lerp_timer (wheelEvent true 0 120 init)))
      = _zoom_target (zs (wheelEvent true 0 120 init))
    /\ _lerp_timer (zs (Nat.iter m fire_lerp_timer (wheelEvent true 0 120 init))) = false.
Proof.
  apply (zoom_animation_terminates (wheelEvent true 0 120 init)).
  reflexivity.
Defined.

End ZoomControl.

(** ** Widths of wrapped lines *)

Section WrapWidthFacts.

Import Py TextWrap.

Lemma join_split_lines (s : str) : join_lines (split_lines s) = s.
Proof.
  induction s as [| ch s IH]; [reflexivity |].
  cbn [split_lines]. pose proof (split_lines_nonempty s) as Hne.
  destruct (N.eqb ch newline) eqn:E.
  - apply N.eqb_eq in E. subst.
    destruct (split_lines s) as [| l ls]; [contradiction |].
    change (join_lines ([] :: l :: ls)) with ([] ++ newline :: join_lines (l :: ls)).
    rewrite IH. reflexivity.
  - destruct (split_lines s) as [| l ls]; [contradiction |].
    rewrite <- IH. destruct ls; reflexivity.
Qed.

Variable char_w : char -> Q.
Variable limit : Q.

Lemma line_width_app (a b : str) :
  line_width char_w (a ++ b) == line_width char_w a + line_width char_w b.
Proof.
  induction a as [| ch a IH]; cbn [app line_width]; [ring | rewrite IH; ring].
Qed.

Lemma line_width_nonneg (line : str) :
  (forall ch, 0 <= char_w ch) -> 0 <= line_width char_w line.
Proof.
  intros H. induction line as [| ch line IH]; cbn; [lra |].
  specialize (H ch). lra.
Qed.

(** The line being filled holds one character, or fits. *)
Lemma wrap_chars_fit (line : str) :
  forall cur cur_w,
    cur_w == line_width char_w cur ->
    (length cur <= 1)%nat \/ cur_w <= limit ->
    Forall (fun p => (length p <= 1)%nat \/ line_width char_w p <= limit)
      (wrap_chars char_w limit cur cur_w line).
Proof.
  induction line as [| ch rest IH]; intros cur cur_w Hw Hfit; cbn [wrap_chars].
  - destruct cur as [| c0 cur']; cbn [str_truthy]; [constructor |].
    constructor; [| constructor].
    destruct Hfit as [H | H]; [left; exact H | right; rewrite <- Hw; exact H].
  - destruct (Qgtb (cur_w + char_w ch) limit) eqn:G; cbn [andb].
    + destruct cur as [| c0 cur']; cbn [str_truthy].
      * apply IH; [cbn [app line_width] in *; rewrite Hw; ring | left; cbn; lia].
      * constructor.
        -- destruct Hfit as [H | H]; [left; exact H | right; rewrite <- Hw; exact H].
        -- apply IH; [cbn; ring | left; cbn; lia].
    + apply Qgtb_false in G. apply IH.
      * rewrite line_width_app, Hw. cbn. ring.
      * right. exact G.
Qed.

Lemma wrap_line_fit (line : str) :
  Forall (fun p => (length p <= 1)%nat \/ line_width char_w p <= limit)
    (wrap_line char_w limit line).
Proof.
  destruct line as [| ch rest].
  - constructor; [left; cbn; lia | constructor].
  - unfold wrap_line. apply wrap_chars_fit; [reflexivity | left; cbn; lia].
Qed.

Lemma wrap_lines_fit (text : str) :
  Forall (fun p => (length p <= 1)%nat \/ line_width char_w p <= limit)
    (wrap_lines char_w limit text).
Proof.
  unfold wrap_lines. induction (split_lines text) as [| l ls IH]; [constructor |].
  cbn. apply Forall_app. split; [apply wrap_line_fit | exact IH].
Qed.

(** A line that fits is not cut. *)
Lemma wrap_chars_of_fitting (line : str) :
  (forall ch, 0 <= char_w ch) ->
  forall cur cur_w,
    cur_w == line_width char_w cur ->
    line_width char_w (cur ++ line) <= limit ->
    wrap_chars char_w limit cur cur_w line
    = if str_truthy (cur ++ line) then [cur ++ line] else [].
Proof.
  intros Hpos. induction line as [| ch rest IH]; intros cur cur_w Hw Hfit; cbn [wrap_chars].
  - rewrite app_nil_r. reflexivity.
  - assert (G : Qgtb (cur_w + char_w ch) limit = false).
    { apply Qgtb_false. rewrite line_width_app in Hfit. cbn [line_width] in Hfit.
      pose proof (line_width_nonneg rest Hpos). lra. }
    rewrite G. cbn [andb].
    rewrite IH.
    + rewrite <- app_assoc. reflexivity.
    + rewrite line_width_app, Hw. cbn. ring.
    + rewrite <- app_assoc. exact Hfit.
Qed.

Lemma wrap_line_of_fitting (line : str) :
  (forall ch, 0 <= char_w ch) ->
  line_width char_w line <= limit -> wrap_line char_w limit line = [line].
Proof.
  intros Hpos Hfit. destruct line as [| ch rest]; [reflexivity |].
  unfold wrap_line. rewrite wrap_chars_of_fitting; [reflexivity | exact Hpos | reflexivity |].
  exact Hfit.
Qed.

Lemma wrap_lines_of_fitting (text : str) :
  (forall ch, 0 <= char_w ch) ->
  Forall (fun line => line_width char_w line <= limit) (split_lines text) ->
  wrap_lines char_w limit text = split_lines text.
Proof.
  intros Hpos. unfold wrap_lines.
  induction 1 as [| l ls Hl Hls IH]; [reflexivity |].
  cbn. rewrite wrap_line_of_fitting, IH by assumption. reflexivity.
Qed.

(** With a line under way, the first piece begins with it. *)
Lemma wrap_chars_head (line : str) :
  forall cur cur_w, cur <> [] ->
    exists pre tail, wrap_chars char_w limit cur cur_w line = (cur ++ pre) :: tail.
Proof.
  induction line as [| ch rest IH]; intros cur cur_w Hne; cbn [wrap_chars].
  - destruct cur; [contradiction |]. exists [], []. rewrite app_nil_r. reflexivity.
  - destruct (Qgtb (cur_w + char_w ch) limit && str_truthy cur).
    + exists [], (wrap_chars char_w limit [ch] (char_w ch) rest).
      rewrite app_nil_r. reflexivity.
    + destruct (IH (cur ++ [ch]) (cur_w + char_w ch)) as (pre & tail & E).
      * destruct cur; discriminate.
      * exists (ch :: pre), tail. rewrite E, <- app_assoc. reflexivity.
Qed.

Lemma wrap_chars_forced (line : str) :
  forall cur cur_w,
    cur_w == line_width char_w cur ->
    forced char_w limit (wrap_chars char_w limit cur cur_w line).
Proof.
  induction line as [| ch rest IH]; intros cur cur_w Hw; cbn [wrap_chars].
  - destruct cur; cbn; exact I.
  - destruct (Qgtb (cur_w + char_w ch) limit) eqn:G; cbn [andb].
    + destruct cur as [| c0 cur']; cbn [str_truthy].
      * apply IH. cbn [app line_width] in *. rewrite Hw. ring.
      * destruct (wrap_chars_head rest [ch] (char_w ch)) as (pre & tail & E);
          [discriminate |].
        pose proof (IH [ch] (char_w ch)) as Hrec. rewrite E in *.
        cbn [forced app]. split.
        -- apply Qgtb_true in G. rewrite <- Hw. exact G.
        -- apply Hrec. cbn. ring.
    + apply IH. rewrite line_width_app, Hw. cbn. ring.
Qed.

Lemma forced_nth (pieces : list str) :
  forced char_w limit pieces ->
  forall (i : nat) (p : str) (ch : char) (q : str),
    nth_error pieces i = Some p -> nth_error pieces (S i) = Some (ch :: q) ->
    limit < line_width char_w p + char_w ch.
Proof.
  induction pieces as [| p0 pieces IH]; intros Hf i p ch q H1 H2.
  - destruct i; discriminate.
  - destruct pieces as [| p1 pieces']; [destruct i; discriminate |].
    destruct Hf as [Hhead Hrest]. destruct i as [| i].
    + cbn in H1, H2. inversion H1; inversion H2; subst. exact Hhead.
    + apply (IH Hrest i p ch q); assumption.
Qed.

End WrapWidthFacts.

Section WrapWidthTheorems.

Import Py TextWrap.

Lemma _fitz_char_wrap_text_wraps (m : Metrics) (text : str) (max_width fontsize : Q)
    (fontname : str) :
  str_truthy text = true -> 0 < max_width -> 0 < fontsize ->
  _fitz_char_wrap_text m text max_width fontsize fontname
  = join_lines (wrap_lines (_char_width m fontname fontsize) (effective_width max_width) text).
Proof.
  intros Ht Hw Hs. unfold _fitz_char_wrap_text. rewrite Ht. cbn [negb orb].
  assert (E1 : Qle_bool max_width 0 = false).
  { destruct (Qle_bool max_width 0) eqn:E; [| reflexivity]. apply Qle_bool_iff in E. lra. }
  assert (E2 : Qle_bool fontsize 0 = false).
  { destruct (Qle_bool fontsize 0) eqn:E; [| reflexivity]. apply Qle_bool_iff in E. lra. }
  rewrite E1, E2. reflexivity.
Qed.

(** X13.  Every line of the text [_fitz_char_wrap_text] returns fits the
    effective width of the box, as the function measures it, unless it is a
    single character (a character wider than the box cannot be cut). *)
Theorem wrapped_lines_fit :
  forall (m : Metrics) (text : str) (max_width fontsize : Q) (fontname : str) (line : str),
    str_truthy text = true -> 0 < max_width -> 0 < fontsize ->
    In line (split_lines (_fitz_char_wrap_text m text max_width fontsize fontname)) ->
    (length line <= 1)%nat
    \/ line_width (_char_width m fontname fontsize) line <= effective_width max_width.
Proof.
  intros m text max_width fontsize fontname line Ht Hw Hs.
  rewrite _fitz_char_wrap_text_wraps by assumption.
  rewrite split_join_lines by (apply wrap_lines_nonempty || apply wrap_lines_no_newline).
  intros Hin.
  pose proof (wrap_lines_fit (_char_width m fontname fontsize) (effective_width max_width) text)
    as H.
  rewrite Forall_forall in H. apply H. exact Hin.
Qed.

Lemma wrapped_lines_fit_witness :
  (length [100; 101; 102]%N <= 1)%nat
  \/ line_width (_char_width six_wide name_cour 12) [100; 101; 102]%N <= effective_width 24.
Proof.
  apply (wrapped_lines_fit six_wide abcdefg 24 12 name_cour [100; 101; 102]%N).
  - reflexivity.
  - reflexivity.
  - reflexivity.
  - vm_compute. right. left. reflexivity.
Defined.

(** X14.  When no glyph has a negative width and every line of the text fits
    the effective width, [_fitz_char_wrap_text] returns the text as it is. *)
Theorem text_that_fits_is_unchanged :
  forall (m : Metrics) (text : str) (max_width fontsize : Q) (fontname : str),
    (forall ch, 0 <= _char_width m fontname fontsize ch) ->
    Forall (fun line => line_width (_char_width m fontname fontsize) line
                        <= effective_width max_width) (split_lines text) ->
    _fitz_char_wrap_text m text max_width fontsize fontname = text.
Proof.
  intros m text max_width fontsize fontname Hpos Hfit.
  unfold _fitz_char_wrap_text.
  destruct (negb (str_truthy text) || Qle_bool max_width 0 || Qle_bool fontsize 0);
    [reflexivity |].
  fold (effective_width max_width).
  rewrite wrap_lines_of_fitting by assumption. apply join_split_lines.
Qed.

Lemma text_that_fits_is_unchanged_witness :
  _fitz_char_wrap_text six_wide [97; 98; 10; 99]%N 24 12 name_cour = [97; 98; 10; 99]%N.
Proof.
  apply (text_that_fits_is_unchanged six_wide [97; 98; 10; 99]%N 24 12 name_cour).
  - intros ch. vm_compute. discriminate.
  - repeat constructor; vm_compute; discriminate.
Defined.

(** X15.  In the wrap of a text of one line, every line break is forced: the
    line before the break, with the first character of the line after it,
    is wider than the effective width. *)
Theorem line_breaks_are_forced :
  forall (m : Metrics) (text : str) (max_width fontsize : Q) (fontname : str)
         (i : nat) (p : str) (ch : char) (q : str),
    str_truthy text = true -> 0 < max_width -> 0 < fontsize ->
    no_newline text ->
    nth_error (split_lines (_fitz_char_wrap_text m text max_width fontsize fontname)) i
      = Some p ->
    nth_error (split_lines (_fitz_char_wrap_text m text max_width fontsize fontname)) (S i)
      = Some (ch :: q) ->
    effective_width max_width
      < line_width (_char_width m fontname fontsize) p + _char_width m fontname fontsize ch.
Proof.
  intros m text max_width fontsize fontname i p ch q Ht Hw Hs Hn.
  rewrite _fitz_char_wrap_text_wraps by assumption.
  rewrite split_join_lines by (apply wrap_lines_nonempty || apply wrap_lines_no_newline).
  unfold wrap_lines. rewrite split_lines_no_newline by exact Hn. cbn [flat_map].
  rewrite app_nil_r. destruct text as [| c0 text']; [discriminate Ht |].
  unfold wrap_line. apply forced_nth. apply wrap_chars_forced. reflexivity.
Qed.

Lemma line_breaks_are_forced_witness :
  effective_width 24
    < line_width (_char_width six_wide name_cour 12) [97; 98; 99]%N
      + _char_width six_wide name_cour 12 100%N.
Proof.
  apply (line_breaks_are_forced six_wide abcdefg 24 12 name_cour 0
           [97; 98; 99]%N 100%N [101; 102]%N).
  - reflexivity.
  - reflexivity.
  - reflexivity.
  - repeat constructor; discriminate.
  - vm_compute. reflexivity.
  - vm_compute. reflexivity.
Defined.

End WrapWidthTheorems.

(** ** The characters of a reconstructed line *)

Section LineContentFacts.

Import Py TextLines.

Lemma widths_positive (l : list (CharInfo * Q)) : Forall (fun w => 0 < w) (widths l).
Proof.
  induction l as [| [ch fs] l IH]; cbn; [constructor |].
  destruct (bbox ch) as [cb |]; [| exact IH].
  destruct (Qgtb (bbox_x1 cb - bbox_x0 cb) 0) eqn:E; [| exact IH].
  constructor; [apply Qgtb_true; exact E | exact IH].
Qed.

Lemma fold_left_Qplus_positive (l : list Q) :
  Forall (fun w => 0 < w) l -> forall acc, 0 < acc -> 0 < fold_left Qplus l acc.
Proof.
  induction 1 as [| w l Hw Hl IH]; intros acc Hacc; cbn; [exact Hacc |].
  apply IH. lra.
Qed.

(** The threshold of a line is positive: the average is taken over positive
    widths, and is 5 when there is none. *)
Lemma space_threshold_positive (l : list (CharInfo * Q)) : 0 < space_threshold l.
Proof.
  unfold space_threshold, avg_char_w.
  pose proof (widths_positive l) as H.
  destruct (widths l) as [| w ws] eqn:E; [reflexivity |].
  inversion H as [| ? ? Hw Hws]; subst.
  assert (Hsum : 0 < py_sum (w :: ws)).
  { unfold py_sum. cbn. apply fold_left_Qplus_positive; [exact Hws | lra]. }
  assert (Hlen : 0 < inject_Z (Z.of_nat (length (w :: ws)))).
  { change 0 with (inject_Z 0). rewrite <- Zlt_Qlt. cbn [length]. lia. }
  pose proof (Qdiv_pos _ _ Hsum Hlen). lra.
Qed.

Lemma build_parts_of_touching (threshold : Q) (l : list (CharInfo * Q)) :
  0 < threshold ->
  forall prev_x1, touching prev_x1 l ->
    join_empty (build_parts threshold prev_x1 l) = written (boxed l).
Proof.
  intros Hthr. unfold join_empty, written, boxed.
  induction l as [| [ch fs] l IH]; intros prev_x1 Ht; cbn [build_parts filter fst];
    [reflexivity |].
  cbn [touching] in Ht.
  destruct (bbox ch) as [cb |]; [| apply IH; exact Ht].
  cbn [map concat fst].
  destruct (c ch) as [| c0 cs] eqn:Ec; cbn [str_truthy] in *.
  - cbn [app]. apply IH. exact Ht.
  - destruct Ht as [Hgap Ht].
    assert (E : match prev_x1 with
                | Some p => if Qgtb (bbox_x0 cb - p) threshold then [[space]] else []
                | None => []
                end = @nil str).
    { destruct prev_x1 as [p |]; [| reflexivity].
      assert (G : Qgtb (bbox_x0 cb - p) threshold = false) by (apply Qgtb_false; lra).
      rewrite G. reflexivity. }
    rewrite E. cbn [app concat]. rewrite (IH _ Ht). reflexivity.
Qed.

(** X16.  A line whose glyphs touch or overlap is read without a space:
    [_extract_line_text_from_chars] returns the characters that have a box,
    written one after the other, stripped at both ends. *)
Theorem touching_glyphs_are_not_separated :
  forall spans : list Span,
    all_chars spans <> [] ->
    touching None (all_chars spans) ->
    _extract_line_text_from_chars spans = strip (written (boxed (all_chars spans))).
Proof.
  intros spans Hne Ht.
  rewrite _extract_line_text_from_chars_parts by exact Hne.
  rewrite (build_parts_of_touching _ _ (space_threshold_positive (all_chars spans)) None Ht).
  reflexivity.
Qed.

Lemma touching_glyphs_are_not_separated_witness :
  _extract_line_text_from_chars line_abc = strip (written (boxed (all_chars line_abc))).
Proof.
  apply (touching_glyphs_are_not_separated line_abc).
  - discriminate.
  - cbn. repeat split; vm_compute; discriminate.
Defined.

Example line_abc_text : _extract_line_text_from_chars line_abc = [97; 98; 99]%N.
Proof. vm_compute. reflexivity. Qed.

Lemma without_spaces_app (a b : str) :
  without_spaces (a ++ b) = without_spaces a ++ without_spaces b.
Proof. apply filter_app. Qed.

Lemma without_spaces_lstrip (s : str) : without_spaces (lstrip s) = without_spaces s.
Proof.
  induction s as [| ch s IH]; [reflexivity |].
  cbn [lstrip]. destruct (isspace ch) eqn:E; [| reflexivity].
  rewrite IH. unfold without_spaces. cbn [filter]. rewrite E. reflexivity.
Qed.

Lemma without_spaces_rev (s : str) : without_spaces (rev s) = rev (without_spaces s).
Proof.
  unfold without_spaces. induction s as [| ch s IH]; [reflexivity |].
  cbn [rev filter]. rewrite filter_app, IH. cbn [filter].
  destruct (negb (isspace ch)); cbn [rev]; [reflexivity | apply app_nil_r].
Qed.

(** [strip] takes away white space only. *)
Lemma without_spaces_strip (s : str) : without_spaces (strip s) = without_spaces s.
Proof.
  unfold strip, rstrip.
  rewrite without_spaces_rev, without_spaces_lstrip, without_spaces_rev, rev_involutive.
  apply without_spaces_lstrip.
Qed.

Lemma without_spaces_parts (threshold : Q) (l : list (CharInfo * Q)) :
  forall prev_x1,
    without_spaces (join_empty (build_parts threshold prev_x1 l))
    = without_spaces (written (boxed l)).
Proof.
  unfold join_empty, written, boxed.
  induction l as [| [ch fs] l IH]; intros prev_x1; cbn [build_parts filter fst];
    [reflexivity |].
  destruct (bbox ch) as [cb |]; [| apply IH].
  cbn [map concat fst].
  destruct (c ch) as [| c0 cs] eqn:Ec; cbn [str_truthy].
  - cbn [app]. apply IH.
  - rewrite concat_app. cbn [concat]. rewrite !without_spaces_app, IH.
    assert (E : without_spaces
                  (concat match prev_x1 with
                          | Some p => if Qgtb (bbox_x0 cb - p) threshold then [[space]] else []
                          | None => []
                          end) = []).
    { destruct prev_x1 as [p |]; [| reflexivity].
      destruct (Qgtb (bbox_x0 cb - p) threshold); reflexivity. }
    rewrite E. reflexivity.
Qed.

(** X17.  Reading a line from its glyph boxes adds and removes white space
    only: without its white space, what [_extract_line_text_from_chars]
    returns is the characters that have a box, in their order, without their
    white space. *)
Theorem line_text_keeps_the_characters :
  forall spans : list Span,
    all_chars spans <> [] ->
    without_spaces (_extract_line_text_from_chars spans)
    = without_spaces (written (boxed (all_chars spans))).
Proof.
  intros spans Hne.
  rewrite _extract_line_text_from_chars_parts by exact Hne.
  rewrite without_spaces_strip. apply without_spaces_parts.
Qed.

Lemma line_text_keeps_the_characters_witness :
  without_spaces (_extract_line_text_from_chars line_hi_w)
  = without_spaces (written (boxed (all_chars line_hi_w))).
Proof.
  apply (line_text_keeps_the_characters line_hi_w). discriminate.
Defined.

End LineContentFacts.

(** ** What is drawn into the document *)

Section DocumentFacts.

Import Py Fitz Viewer.

Lemma page_extends_refl (p : Page) : page_extends p p.
Proof. split; [reflexivity |]. exists []. rewrite app_nil_r. reflexivity. Qed.

Lemma page_extends_trans (p q r : Page) :
  page_extends p q -> page_extends q r -> page_extends p r.
Proof.
  intros [R1 (o1 & D1)] [R2 (o2 & D2)]. split; [congruence |].
  exists (o1 ++ o2). rewrite D2, D1, app_assoc. reflexivity.
Qed.

Lemma page_extends_add_op (op : ContentOp) (p : Page) : page_extends p (add_op op p).
Proof. split; [reflexivity |]. exists [op]. reflexivity. Qed.

Lemma pages_extend_refl (d : Document) : Forall2 page_extends d d.
Proof. induction d; constructor; [apply page_extends_refl | assumption]. Qed.

Lemma pages_extend_trans (a b c : Document) :
  Forall2 page_extends a b -> Forall2 page_extends b c -> Forall2 page_extends a c.
Proof.
  intros H. revert c. induction H as [| p q a b Hpq Hab IH]; intros c Hbc;
    inversion Hbc; subst; constructor.
  - eapply page_extends_trans; eassumption.
  - apply IH. assumption.
Qed.

Lemma doc_extends_refl (d : option Document) : doc_extends d d.
Proof. destruct d; cbn; [apply pages_extend_refl | exact I]. Qed.

Lemma doc_extends_trans (a b c : option Document) :
  doc_extends a b -> doc_extends b c -> doc_extends a c.
Proof.
  destruct a, b, c; cbn; try contradiction; try exact (fun _ _ => I).
  apply pages_extend_trans.
Qed.

Lemma replace_nth_extends (d : Document) :
  forall (n : nat) (p p' : Page),
    nth_error d n = Some p -> page_extends p p' ->
    Forall2 page_extends d (replace_nth n p' d).
Proof.
  induction d as [| a d IH]; intros [| n] p p' Hn He; cbn in *; try discriminate.
  - inversion Hn; subst. constructor; [exact He | apply pages_extend_refl].
  - constructor; [apply page_extends_refl | eapply IH; eassumption].
Qed.

Lemma rewrite_line_extends (env : Env) (d : Document) (page_index : Z) (li : LineInfo)
    (new_text : str) :
  Forall2 page_extends d (rewrite_line env d page_index li new_text).
Proof.
  unfold rewrite_line.
  destruct (nth_error d (page_slot d page_index)) as [page |] eqn:E;
    [| apply pages_extend_refl].
  destruct (engine_accepts env page _); [| apply pages_extend_refl].
  destruct (engine_accepts env (add_op _ page) _).
  - eapply replace_nth_extends; [exact E |].
    eapply page_extends_trans; apply page_extends_add_op.
  - eapply replace_nth_extends; [exact E | apply page_extends_add_op].
Qed.

Lemma burn_stamp_extends (env : Env) (d : Document) (s : Stamp) :
  Forall2 page_extends d (burn_stamp env d s).
Proof.
  unfold burn_stamp. destruct (stamp_page s <? page_count d)%Z; [| apply pages_extend_refl].
  destruct (nth_error d (page_slot d (stamp_page s))) as [page |] eqn:E;
    [| apply pages_extend_refl].
  destruct (engine_accepts env page _); [| apply pages_extend_refl].
  eapply replace_nth_extends; [exact E | apply page_extends_add_op].
Qed.

Lemma burn_stamps_extend (env : Env) (stamps : list Stamp) :
  forall d, Forall2 page_extends d (fold_left (burn_stamp env) stamps d).
Proof.
  induction stamps as [| s stamps IH]; intros d; cbn; [apply pages_extend_refl |].
  eapply pages_extend_trans; [apply burn_stamp_extends | apply IH].
Qed.

Lemma _commit_text_edit_extends (env : Env) (w : Widget) :
  doc_extends (_doc (docs w)) (_doc (docs (_commit_text_edit env w))).
Proof.
  unfold _commit_text_edit.
  repeat (break_match; try apply doc_extends_refl).
  cbn [_invalidate_page docs with_rs with_te].
  rewrite _snapshot_doc_bytes_doc. cbn [docs with_docs with_te _doc].
  match goal with H : _doc (docs (with_te _ w)) = Some _ |- _ =>
    cbn [docs with_te] in H; rewrite H end.
  cbn [doc_extends]. apply rewrite_line_extends.
Qed.

Lemma _exit_current_mode_extends (env : Env) (w : Widget) :
  doc_extends (_doc (docs w)) (_doc (docs (_exit_current_mode env w))).
Proof.
  unfold _exit_current_mode.
  destruct (mode (ms w)); try apply doc_extends_refl.
  destruct (opt_truthy (_text_edit_widget (te w))); [| apply doc_extends_refl].
  cbn [docs with_ms with_te]. apply _commit_text_edit_extends.
Qed.

Lemma _get_page_pixmap_docs (page_index target_w target_h : Z) (w : Widget) :
  docs (snd (_get_page_pixmap page_index target_w target_h w)) = docs w.
Proof.
  unfold _get_page_pixmap.
  destruct (OrderedDict.contains key_eqb _ (_render_cache (rs w))); [reflexivity |].
  assert (H : forall b : bool,
             docs (if b then _start_render_task page_index
                              (make_key page_index (_zoom (zs w))) w else w) = docs w).
  { intros [|]; [| reflexivity]. unfold _start_render_task. destruct (_ || _); reflexivity. }
  specialize (H (negb (set_mem (make_key page_index (_zoom (zs w))) (_pending_renders (rs w))))).
  destruct (OrderedDict.get key_eqb _ (_low_res_cache (rs w))); cbn [snd]; [exact H |].
  destruct (_is_zooming _); [destruct (rev _) as [| [? ?] ?] |]; cbn [snd]; exact H.
Qed.

Lemma handle_extends (env : Env) (e : Event) (w : Widget) :
  keeps_document e = true ->
  doc_extends (_doc (docs w)) (_doc (docs (handle env e w))).
Proof.
  intros Hk.
  assert (Hsame : forall w', docs w' = docs w ->
                             doc_extends (_doc (docs w)) (_doc (docs w'))).
  { intros w' E. rewrite E. apply doc_extends_refl. }
  destruct e; cbn [handle]; try discriminate Hk.
  - apply Hsame. unfold set_zoom. destruct (Qltb _ _); [reflexivity |].
    cbn [docs with_zs]. rewrite _recalculate_layout_docs. reflexivity.
  - apply Hsame. unfold wheelEvent. destruct ctrl; reflexivity.
  - apply Hsame. unfold fire_lerp_timer, _lerp_zoom.
    repeat (break_match; try reflexivity).
  - apply Hsame. unfold fire_zoom_timer, _on_zoom_finished.
    destruct (_zoom_timer (zs w)); [| reflexivity].
    cbn [docs with_zs with_rs zs _zoom_target _zoom].
    destruct (Qgtb _ _); cbn [docs with_zs]; rewrite ?_recalculate_layout_docs; reflexivity.
  - apply Hsame. unfold fire_settle_timer. destruct (_zoom_settle_timer (zs w)); reflexivity.
  - apply Hsame. apply _get_page_pixmap_docs.
  - apply Hsame. unfold _on_render_finished. repeat (break_match; try reflexivity).
  - apply Hsame. reflexivity.
  - apply Hsame. reflexivity.
  - unfold burn_overlay_stamps.
    destruct (_doc (docs w)) as [[| p d] |] eqn:E; rewrite ?E; try apply doc_extends_refl.
    cbn [docs with_rs with_sel with_docs _doc doc_extends]. apply burn_stamps_extend.
  - apply _exit_current_mode_extends.
  - apply _exit_current_mode_extends.
  - apply _exit_current_mode_extends.
Qed.

(** X18.  Whatever events reach the widget, as long as none of them is
    [set_document], nothing drawn into the document is removed or altered: the
    document keeps its pages, each with its rectangle and with what was drawn
    on it, possibly followed by more. *)
Theorem drawn_content_is_never_removed :
  forall (env : Env) (events : list Event) (w : Widget),
    forallb keeps_document events = true ->
    doc_extends (_doc (docs w)) (_doc (docs (run env events w))).
Proof.
  intros env events. unfold run.
  induction events as [| e events IH]; intros w Hk; cbn [fold_left].
  - apply doc_extends_refl.
  - cbn [forallb] in Hk. apply andb_true_iff in Hk. destruct Hk as [Hk1 Hk2].
    eapply doc_extends_trans; [apply handle_extends; exact Hk1 | apply IH; exact Hk2].
Qed.

Lemma drawn_content_is_never_removed_witness :
  doc_extends (_doc (docs editing_scene))
    (_doc (docs (run plain_env [EvEnterCrop 7; EvBurnOverlayStamps] editing_scene))).
Proof.
  apply (drawn_content_is_never_removed plain_env [EvEnterCrop 7; EvBurnOverlayStamps]
           editing_scene).
  reflexivity.
Defined.

End DocumentFacts.

(** ** Overlay stamps *)

Section StampBurnFacts.

Import Py Fitz Viewer.

Lemma length_replace_nth {A} (l : list A) :
  forall (n : nat) (x : A), length (replace_nth n x l) = length l.
Proof.
  induction l as [| a l IH]; intros [| n] x; cbn; try reflexivity.
  rewrite IH. reflexivity.
Qed.

Lemma nth_error_replace_nth_other {A} (l : list A) :
  forall (n i : nat) (x : A), i <> n -> nth_error (replace_nth n x l) i = nth_error l i.
Proof.
  induction l as [| a l IH]; intros [| n] [| i] x Hne; cbn; try reflexivity.
  - contradiction.
  - apply IH. congruence.
Qed.

Lemma page_slot_length (d d0 : Document) (k : Z) :
  length d0 = length d -> page_slot d0 k = page_slot d k.
Proof. intros H. unfold page_slot, page_count. rewrite H. reflexivity. Qed.

Lemma page_slot_in_range (d : Document) (k : Z) :
  d <> [] -> (page_slot d k < length d)%nat.
Proof.
  intros Hne. unfold page_slot, page_count.
  assert (Hpos : (0 < Z.of_nat (length d))%Z) by (destruct d; [congruence | cbn; lia]).
  pose proof (Z.mod_pos_bound k (Z.of_nat (length d)) Hpos). lia.
Qed.

(** One stamp, when the engine takes the image: it is drawn last on its page. *)
Lemma burn_stamp_accepted (env : Env) (d : Document) (s : Stamp) :
  (forall page op, engine_accepts env page op = true) ->
  d <> [] -> (stamp_page s < page_count d)%Z ->
  exists page,
    nth_error d (page_slot d (stamp_page s)) = Some page
    /\ burn_stamp env d s
       = replace_nth (page_slot d (stamp_page s)) (add_op (image_op s) page) d.
Proof.
  intros Hacc Hne Hlt. unfold burn_stamp.
  apply Z.ltb_lt in Hlt. rewrite Hlt.
  destruct (nth_error d (page_slot d (stamp_page s))) as [page |] eqn:E.
  - exists page. split; [reflexivity |]. rewrite Hacc. reflexivity.
  - apply nth_error_None in E. pose proof (page_slot_in_range d (stamp_page s) Hne). lia.
Qed.

Lemma burn_stamps_accepted (env : Env) (d : Document) (stamps : list Stamp) :
  (forall page op, engine_accepts env page op = true) ->
  d <> [] ->
  Forall (fun s => (stamp_page s < page_count d)%Z) stamps ->
  forall (d0 : Document) (i : nat) (p0 : Page),
    length d0 = length d ->
    nth_error d0 i = Some p0 ->
    nth_error (fold_left (burn_stamp env) stamps d0) i
    = Some (mkPage (page_rect p0) (drawn p0 ++ map image_op (stamps_on d i stamps))).
Proof.
  intros Hacc Hne Hall. induction Hall as [| s stamps Hs Hstamps IH];
    intros d0 i p0 Hlen Hp0; cbn [fold_left].
  - cbn. rewrite app_nil_r, Hp0. destruct p0; reflexivity.
  - assert (Hne0 : d0 <> []) by (destruct d0, d; cbn in Hlen; congruence).
    assert (Hlt0 : (stamp_page s < page_count d0)%Z) by (unfold page_count in *; lia).
    destruct (burn_stamp_accepted env d0 s Hacc Hne0 Hlt0) as (page & Hpage & Hburn).
    rewrite Hburn. rewrite (page_slot_length d d0 _ Hlen) in *.
    unfold stamps_on. cbn [filter]. fold (stamps_on d i stamps).
    destruct (Nat.eqb (page_slot d (stamp_page s)) i) eqn:E.
    + apply Nat.eqb_eq in E. subst i.
      assert (page = p0) by congruence. subst page.
      rewrite (IH _ _ (add_op (image_op s) p0)).
      * cbn [add_op page_rect drawn map]. rewrite <- app_assoc. reflexivity.
      * rewrite length_replace_nth. exact Hlen.
      * eapply nth_error_replace_nth. exact Hp0.
    + apply Nat.eqb_neq in E. apply IH.
      * rewrite length_replace_nth. exact Hlen.
      * rewrite nth_error_replace_nth_other by congruence. exact Hp0.
Qed.

(** X19.  When every stamp names a page of the document and the engine takes
    every image, [burn_overlay_stamps] draws each stamp once, on its page:
    a page ends with what it had, followed by the images of its stamps in the
    order of the list; and no stamp is left in the overlay. *)
Theorem burned_stamps_are_drawn :
  forall (env : Env) (w : Widget) (d : Document) (i : nat) (p : Page),
    _doc (docs w) = Some d ->
    (forall page op, engine_accepts env page op = true) ->
    Forall (fun s => (stamp_page s < page_count d)%Z) (_overlay_stamps (sel w)) ->
    nth_error d i = Some p ->
    exists d' : Document,
      _doc (docs (burn_overlay_stamps env w)) = Some d'
      /\ nth_error d' i
         = Some (mkPage (page_rect p)
                   (drawn p ++ map image_op (stamps_on d i (_overlay_stamps (sel w)))))
      /\ _overlay_stamps (sel (burn_overlay_stamps env w)) = [].
Proof.
  intros env w d i p Hd Hacc Hall Hp.
  assert (Hne : d <> []) by (intros ->; destruct i; discriminate).
  unfold burn_overlay_stamps. rewrite Hd.
  destruct d as [| p0 d0]; [congruence |].
  cbn [docs sel with_docs with_sel with_rs _doc _overlay_stamps].
  eexists. split; [reflexivity |]. split; [| reflexivity].
  apply burn_stamps_accepted; try assumption. reflexivity.
Qed.

Lemma burned_stamps_are_drawn_witness :
  exists d' : Document,
    _doc (docs (burn_overlay_stamps plain_env stamped_two_pages)) = Some d'
    /\ nth_error d' 0
       = Some (mkPage (page_rect (mkPage (mkRect 0 0 600 800) []))
                 (drawn (mkPage (mkRect 0 0 600 800) [])
                  ++ map image_op (stamps_on two_pages 0
                                     (_overlay_stamps (sel stamped_two_pages)))))
    /\ _overlay_stamps (sel (burn_overlay_stamps plain_env stamped_two_pages)) = [].
Proof.
  apply (burned_stamps_are_drawn plain_env stamped_two_pages two_pages 0
           (mkPage (mkRect 0 0 600 800) [])).
  - reflexivity.
  - intros page op. reflexivity.
  - repeat constructor.
  - reflexivity.
Defined.

(** The first page gets the first and the third stamp, in that order. *)
Example burn_of_three_stamps :
  option_map (map drawn) (_doc (docs (burn_overlay_stamps plain_env stamped_two_pages)))
  = Some [[InsertImage (mkRect 0 0 100 50) [115%N];
           InsertImage (mkRect 200 200 260 230) [117%N]];
          [InsertImage (mkRect 10 10 60 60) [116%N]]].
Proof. reflexivity. Qed.

End StampBurnFacts.

(** ** Dragging a stamp *)

Section StampDragFacts.

Import Py Fitz Viewer.

Lemma set_stamp_rect_twice (id : Z) (r1 r2 : Rect) (stamps : list Stamp) :
  set_stamp_rect id r2 (set_stamp_rect id r1 stamps) = set_stamp_rect id r2 stamps.
Proof.
  unfold set_stamp_rect. rewrite map_map. apply map_ext. intros s.
  destruct (Z.eqb (stamp_id s) id) eqn:E; cbn [stamp_id]; rewrite E; reflexivity.
Qed.

Lemma with_stamps_twice (a b : list Stamp) (w : Widget) :
  with_stamps b (with_stamps a w) = with_stamps b w.
Proof. reflexivity. Qed.

Lemma sel_with_stamps (stamps : list Stamp) (w : Widget) :
  sel (with_stamps stamps w)
  = mkSelection (_selected_annot (sel w)) (_selected_page (sel w)) stamps
      (_drag_annot (sel w)) (_drag_page (sel w)) (_drag_start (sel w)) (_orig_rect (sel w))
      (_is_resizing (sel w)) (_resize_corner (sel w)) (_resize_anchor (sel w)).
Proof. reflexivity. Qed.

Lemma zs_with_stamps (stamps : list Stamp) (w : Widget) : zs (with_stamps stamps w) = zs w.
Proof. reflexivity. Qed.

Lemma _screen_to_page_coords_with_stamps (pos : Point) (page_index : Z)
    (stamps : list Stamp) (w : Widget) :
  _screen_to_page_coords pos page_index (with_stamps stamps w)
  = _screen_to_page_coords pos page_index w.
Proof. reflexivity. Qed.

(** Whether the resize gives a rectangle depends on the original rectangle
    only, not on where the pointer is. *)
Lemma stamp_resize_rect_None (orig : Rect) (anchor p p' : Point) (zoom : Q) :
  stamp_resize_rect orig anchor p zoom = None ->
  stamp_resize_rect orig anchor p' zoom = None.
Proof.
  unfold stamp_resize_rect.
  destruct (Qgtb (width orig) 0 && Qgtb (height orig) 0); [| reflexivity].
  destruct (Qgtb _ _); discriminate.
Qed.

(** X20.  A drag has no memory: after any pointer move that went through, a
    further move leaves the widget as if it had been the only one.  The
    rectangle of the dragged stamp is computed from the rectangle it had when
    the drag began, so that no error builds up along the way. *)
Theorem stamp_drag_has_no_memory :
  forall (w w1 : Widget) (pos1 pos2 : Point),
    mouseMoveEvent_drag pos1 w = Some w1 ->
    mouseMoveEvent_drag pos2 w1 = mouseMoveEvent_drag pos2 w.
Proof.
  intros w w1 pos1 pos2 H. unfold mouseMoveEvent_drag in H.
  destruct (_drag_annot (sel w)) as [[xref | id] |] eqn:Ed.
  - destruct (_screen_to_page_coords pos1 (_drag_page (sel w)) w); [| discriminate].
    inversion H. reflexivity.
  - destruct (_screen_to_page_coords pos1 (_drag_page (sel w)) w) as [pp1 |];
      [| discriminate].
    destruct (_orig_rect (sel w)) as [orig |] eqn:Eo; [| inversion H; reflexivity].
    destruct (_is_resizing (sel w) && rect_truthy orig) eqn:Er.
    + destruct (stamp_resize_rect orig (_resize_anchor (sel w)) pp1 (_zoom (zs w)))
        as [r1 |] eqn:Es; inversion H as [Hw1]; [| reflexivity].
      unfold mouseMoveEvent_drag.
      rewrite !sel_with_stamps, _screen_to_page_coords_with_stamps, zs_with_stamps.
      cbn [_drag_annot _drag_page _orig_rect _is_resizing _resize_anchor _overlay_stamps].
      rewrite Ed, Eo, Er.
      destruct (_screen_to_page_coords pos2 (_drag_page (sel w)) w) as [pp2 |];
        [| reflexivity].
      destruct (stamp_resize_rect orig (_resize_anchor (sel w)) pp2 (_zoom (zs w)))
        as [r2 |] eqn:Es2.
      * rewrite with_stamps_twice, set_stamp_rect_twice. reflexivity.
      * rewrite (stamp_resize_rect_None _ _ pp2 pp1 _ Es2) in Es. discriminate.
    + destruct (rect_truthy orig) eqn:Et; inversion H as [Hw1]; [| reflexivity].
      unfold mouseMoveEvent_drag.
      rewrite !sel_with_stamps, _screen_to_page_coords_with_stamps.
      cbn [_drag_annot _drag_page _orig_rect _is_resizing _resize_anchor _overlay_stamps
           _drag_start].
      rewrite Ed, Eo, Et, Er.
      destruct (_screen_to_page_coords pos2 (_drag_page (sel w)) w) as [pp2 |];
        [| reflexivity].
      rewrite with_stamps_twice, set_stamp_rect_twice. reflexivity.
  - inversion H. reflexivity.
Qed.

Lemma stamp_drag_has_no_memory_witness :
  mouseMoveEvent_drag (mkPoint 300 90) (dragged_to (mkPoint 240 76) stamp_scene)
  = mouseMoveEvent_drag (mkPoint 300 90) stamp_scene.
Proof.
  apply (stamp_drag_has_no_memory stamp_scene (dragged_to (mkPoint 240 76) stamp_scene)
           (mkPoint 240 76) (mkPoint 300 90)).
  vm_compute. reflexivity.
Defined.

End StampDragFacts.

(** ** The text lines of a page *)

Section PageLinesFacts.

Import Py Fitz Viewer TextLines PageLines.

Lemma deduped_incl (lines : list LineInfo) : incl (deduped lines) lines.
Proof.
  induction lines as [| li lines IH]; cbn; [apply incl_refl |].
  destruct (existsb _ lines).
  - apply incl_tl. exact IH.
  - apply incl_cons; [left; reflexivity | apply incl_tl; exact IH].
Qed.

Lemma deduped_no_duplicates (lines : list LineInfo) : no_duplicates (deduped lines).
Proof.
  unfold no_duplicates. induction lines as [| li lines IH]; cbn; [constructor |].
  destruct (existsb _ lines) eqn:E; [exact IH |].
  constructor; [| exact IH].
  apply Forall_forall. intros lj Hin. apply deduped_incl in Hin.
  destruct (is_duplicate (line_bbox li) (line_bbox lj)) eqn:G; [| reflexivity].
  assert (H : existsb (fun line_j => is_duplicate (line_bbox li) (line_bbox line_j)) lines
              = true)
    by (apply existsb_exists; exists lj; split; assumption).
  congruence.
Qed.

(** The last line has no later line: it is kept. *)
Lemma deduped_nil (lines : list LineInfo) : deduped lines = [] -> lines = [].
Proof.
  induction lines as [| li lines IH]; cbn; [reflexivity |].
  destruct (existsb _ lines) eqn:E; [| discriminate].
  intros H. rewrite (IH H) in E. discriminate E.
Qed.

Lemma deduped_last (lines : list LineInfo) (default : LineInfo) :
  last (deduped lines) default = last lines default.
Proof.
  induction lines as [| li lines IH]; [reflexivity |].
  cbn [deduped]. destruct (existsb _ lines) eqn:E.
  - rewrite IH. destruct lines; [discriminate E | reflexivity].
  - destruct lines as [| lj lines']; [reflexivity |].
    change (last (li :: lj :: lines') default) with (last (lj :: lines') default).
    rewrite <- IH.
    destruct (deduped (lj :: lines')) as [| x xs] eqn:G; [| reflexivity].
    apply deduped_nil in G. discriminate G.
Qed.

(** What [_get_text_lines_for_page] returns when the cache has no entry. *)
Lemma _get_text_lines_for_page_miss (get_text_rawdict : Page -> list Block) (page_index : Z)
    (w : Widget) :
  cached_lines page_index (_text_edit_lines_cache (te w)) = None ->
  fst (_get_text_lines_for_page get_text_rawdict page_index w) = []
  \/ exists (d : Document) (page : Page),
       _doc (docs w) = Some d
       /\ nth_error d (page_slot d page_index) = Some page
       /\ fst (_get_text_lines_for_page get_text_rawdict page_index w)
          = deduped (extract_lines (get_text_rawdict page)).
Proof.
  intros Hmiss. unfold _get_text_lines_for_page. rewrite Hmiss.
  destruct (_doc (docs w)) as [[| p d] |]; try (left; reflexivity).
  destruct (page_count (p :: d) <=? page_index)%Z; [left; reflexivity |].
  destruct (nth_error (p :: d) (page_slot (p :: d) page_index)) as [page |] eqn:E;
    [| left; reflexivity].
  right. exists (p :: d), page. repeat split. exact E.
Qed.

(** X22.  The lines [_get_text_lines_for_page] reads from a page hold no
    duplicate: of two lines it returns, the later one does not lie at the
    height of the earlier one with an overlapping extent.  They are lines of
    the page, and the last line of the page, the newest, is among them. *)
Theorem text_lines_have_no_duplicates :
  forall (get_text_rawdict : Page -> list Block) (page_index : Z) (w : Widget),
    cached_lines page_index (_text_edit_lines_cache (te w)) = None ->
    no_duplicates (fst (_get_text_lines_for_page get_text_rawdict page_index w))
    /\ (fst (_get_text_lines_for_page get_text_rawdict page_index w) = []
        \/ exists (d : Document) (page : Page),
             _doc (docs w) = Some d
             /\ nth_error d (page_slot d page_index) = Some page
             /\ incl (fst (_get_text_lines_for_page get_text_rawdict page_index w))
                  (extract_lines (get_text_rawdict page))
             /\ forall default,
                  last (fst (_get_text_lines_for_page get_text_rawdict page_index w)) default
                  = last (extract_lines (get_text_rawdict page)) default).
Proof.
  intros get_text_rawdict page_index w Hmiss.
  destruct (_get_text_lines_for_page_miss get_text_rawdict page_index w Hmiss)
    as [E | (d & page & Hd & Hp & E)]; rewrite E.
  - split; [constructor | left; reflexivity].
  - split; [apply deduped_no_duplicates | right].
    exists d, page. split; [exact Hd |]. split; [exact Hp |].
    split; [apply deduped_incl | intros default; apply deduped_last].
Qed.

Lemma text_lines_have_no_duplicates_witness :
  no_duplicates (fst (_get_text_lines_for_page edited_rawdict 0 two_pages_widget))
  /\ (fst (_get_text_lines_for_page edited_rawdict 0 two_pages_widget) = []
      \/ exists (d : Document) (page : Page),
           _doc (docs two_pages_widget) = Some d
           /\ nth_error d (page_slot d 0) = Some page
           /\ incl (fst (_get_text_lines_for_page edited_rawdict 0 two_pages_widget))
                (extract_lines (edited_rawdict page))
           /\ forall default,
                last (fst (_get_text_lines_for_page edited_rawdict 0 two_pages_widget)) default
                = last (extract_lines (edited_rawdict page)) default).
Proof.
  apply (text_lines_have_no_duplicates edited_rawdict 0 two_pages_widget).
  reflexivity.
Defined.

(** Of the two lines at that place, the newer one is returned. *)
Example text_lines_of_edited_page :
  map line_text (extract_lines (edited_rawdict (mkPage (mkRect 0 0 600 800) [])))
    = [[72; 105; 32; 119]%N; [97; 98; 99]%N]
  /\ map line_text (fst (_get_text_lines_for_page edited_rawdict 0 two_pages_widget))
    = [[97; 98; 99]%N].
Proof. split; vm_compute; reflexivity. Qed.

Lemma cached_lines_app_new (page_index : Z) (lines : list LineInfo)
    (cache : list (Z * list LineInfo)) :
  cached_lines page_index cache = None ->
  cached_lines page_index (cache ++ [(page_index, lines)]) = Some lines.
Proof.
  induction cache as [| [k l] cache IH]; cbn.
  - rewrite Z.eqb_refl. reflexivity.
  - destruct (Z.eqb page_index k); [discriminate | exact IH].
Qed.

(** X23.  The lines of a page are read once: a second call of
    [_get_text_lines_for_page] for the same page returns what the first call
    returned and leaves the widget as it is, whatever text the page has by
    then. *)
Theorem text_lines_are_read_once :
  forall (get_text_rawdict get_text_rawdict' : Page -> list Block) (page_index : Z)
         (w : Widget),
    _get_text_lines_for_page get_text_rawdict' page_index
      (snd (_get_text_lines_for_page get_text_rawdict page_index w))
    = _get_text_lines_for_page get_text_rawdict page_index w.
Proof.
  intros get_text_rawdict get_text_rawdict' page_index w.
  unfold _get_text_lines_for_page at 2 3.
  destruct (cached_lines page_index (_text_edit_lines_cache (te w))) as [lines |] eqn:Ec.
  - cbn [snd]. unfold _get_text_lines_for_page. rewrite Ec. reflexivity.
  - destruct (_doc (docs w)) as [[| p d] |] eqn:Ed; cbn [snd];
      try (unfold _get_text_lines_for_page; rewrite Ec, Ed; reflexivity).
    destruct (page_count (p :: d) <=? page_index)%Z eqn:Ep; cbn [snd];
      [unfold _get_text_lines_for_page; rewrite Ec, Ed, Ep; reflexivity |].
    destruct (nth_error (p :: d) (page_slot (p :: d) page_index)) as [page |] eqn:En;
      cbn [snd fst];
      [| unfold _get_text_lines_for_page; rewrite Ec, Ed, Ep, En; reflexivity].
    unfold _get_text_lines_for_page.
    cbn [te with_te _text_edit_lines_cache].
    rewrite (cached_lines_app_new _ _ _ Ec). reflexivity.
Qed.

(** After the first call the page may have changed: the second call still
    returns the line read before. *)
Example text_lines_of_cached_page :
  map line_text
    (fst (_get_text_lines_for_page (fun _ => []) 0
            (snd (_get_text_lines_for_page edited_rawdict 0 two_pages_widget))))
  = [[97; 98; 99]%N].
Proof. vm_compute. reflexivity. Qed.

End PageLinesFacts.

(** ** Choosing a font *)

Section FontFacts.

Import Py Fitz Viewer Fonts.
Import String.

Lemma font_file_exists (sys : System) (fonts_dir file : str) (found : FontArgs) (path : str) :
  font_file sys fonts_dir file = Some found ->
  fontfile found = Some path -> path_exists sys path = true.
Proof.
  unfold font_file. destruct (path_exists sys (path_join sys fonts_dir file)) eqn:E;
    [| discriminate].
  intros H1 H2. inversion H1; subst. cbn in H2. inversion H2; subst. exact E.
Qed.

Lemma font_file_missing (sys : System) (fonts_dir file : str) :
  (forall path, path_exists sys path = false) -> font_file sys fonts_dir file = None.
Proof. intros H. unfold font_file. rewrite H. reflexivity. Qed.

(** X24.  [_map_to_fitz_font] names no font file that is not there: when its
    result has a [fontfile], that file exists on the system. *)
Theorem mapped_font_file_exists :
  forall (sys : System) (original_font text path : str),
    fontfile (_map_to_fitz_font sys original_font text) = Some path ->
    path_exists sys path = true.
Proof.
  intros sys original_font text path. unfold _map_to_fitz_font.
  destruct (scan_text text false) as [has_korean has_cjk].
  destruct has_cjk.
  - destruct (find _ font_map) as [[[[k reg] bold] light] |]; cbn beta iota;
      repeat match goal with
             | |- context [font_file ?s ?d ?f] => destruct (font_file s d f) eqn:?
             end;
      try (intros H; eapply font_file_exists; eassumption);
      (destruct (path_exists sys _) eqn:E;
       [cbn [fontfile]; intros H; inversion H; subst; exact E
       | destruct has_korean; intros H; discriminate H]).
  - destruct (find _ latin_font_map) as [[[[[k reg] bold] italic] bolditalic] |];
      cbn beta iota;
      repeat match goal with
             | |- context [font_file ?s ?d ?f] => destruct (font_file s d f) eqn:?
             end;
      try (intros H; eapply font_file_exists; eassumption);
      repeat (break_match; try (intros H; discriminate H)).
Qed.

Lemma mapped_font_file_exists_witness :
  path_exists (system_with [arial_path]) arial_path = true.
Proof.
  apply (mapped_font_file_exists (system_with [arial_path])
           (lit "Helvetica-Oblique") (lit "Hello") arial_path).
  vm_compute. reflexivity.
Defined.

(** An oblique Helvetica on a system that has Arial but not its italic: the
    regular file is taken. *)
Example mapped_font_of_helvetica_oblique :
  _map_to_fitz_font (system_with [arial_path]) (lit "Helvetica-Oblique") (lit "Hello")
  = mkFontArgs (lit "arial") (Some arial_path).
Proof. vm_compute. reflexivity. Qed.

Lemma scan_text_spec (text : str) :
  forall b, scan_text text b
            = (existsb is_hangul text,
               existsb is_hangul text || b || existsb (fun c => (0x2E7F <? c)%N) text).
Proof.
  induction text as [| c text IH]; intros b; cbn [scan_text existsb].
  - rewrite orb_false_r. reflexivity.
  - destruct (is_hangul c) eqn:E; [reflexivity |].
    rewrite IH.
    destruct (existsb is_hangul text), b, (0x2E7F <? c)%N,
      (existsb (fun c0 => (0x2E7F <? c0)%N) text); reflexivity.
Qed.

(** X25.  On a system without any font file, [_map_to_fitz_font] falls back
    to a font PyMuPDF has built in and names no file: [korea] for a text with
    a Hangul character, [china-s] for a text with another character above
    U+2E7F, and [cour], [tiro] or [helv] for any other text. *)
Theorem font_without_files_is_built_in :
  forall (sys : System) (original_font text : str),
    (forall path, path_exists sys path = false) ->
    fontfile (_map_to_fitz_font sys original_font text) = None
    /\ In (fontname (_map_to_fitz_font sys original_font text)) built_in_fonts
    /\ (existsb is_hangul text = true ->
        fontname (_map_to_fitz_font sys original_font text) = lit "korea")
    /\ (existsb is_hangul text = false ->
        existsb (fun c => (0x2E7F <? c)%N) text = true ->
        fontname (_map_to_fitz_font sys original_font text) = lit "china-s")
    /\ (existsb (fun c => (0x2E7F <? c)%N) text = false ->
        existsb is_hangul text = false ->
        In (fontname (_map_to_fitz_font sys original_font text))
          [lit "cour"; lit "tiro"; lit "helv"]).
Proof.
  intros sys original_font text Hnone. unfold _map_to_fitz_font.
  rewrite scan_text_spec. cbn [orb]. rewrite orb_false_r.
  destruct (existsb is_hangul text) eqn:Ek;
    destruct (existsb (fun c => (0x2E7F <? c)%N) text) eqn:Ec; cbn [orb].
  - destruct (find _ font_map) as [[[[k reg] bold] light] |];
      rewrite ?font_file_missing, Hnone by exact Hnone; cbn;
      repeat split; try tauto; try discriminate.
  - destruct (find _ font_map) as [[[[k reg] bold] light] |];
      rewrite ?font_file_missing, Hnone by exact Hnone; cbn;
      repeat split; try tauto; try discriminate.
  - destruct (find _ font_map) as [[[[k reg] bold] light] |];
      rewrite ?font_file_missing, Hnone by exact Hnone; cbn;
      repeat split; try tauto; try discriminate.
  - destruct (find _ latin_font_map) as [[[[[k reg] bold] italic] bolditalic] |];
      rewrite ?font_file_missing by exact Hnone;
      repeat (break_match; cbn [fontname fontfile]);
      repeat split; cbn; try tauto; try discriminate.
Qed.

Lemma font_without_files_is_built_in_witness :
  fontfile (_map_to_fitz_font (system_with []) (lit "Batang") [54620; 44544]%N) = None
  /\ In (fontname (_map_to_fitz_font (system_with []) (lit "Batang") [54620; 44544]%N))
       built_in_fonts
  /\ (existsb is_hangul [54620; 44544]%N = true ->
      fontname (_map_to_fitz_font (system_with []) (lit "Batang") [54620; 44544]%N)
      = lit "korea")
  /\ (existsb is_hangul [54620; 44544]%N = false ->
      existsb (fun c => (0x2E7F <? c)%N) [54620; 44544]%N = true ->
      fontname (_map_to_fitz_font (system_with []) (lit "Batang") [54620; 44544]%N)
      = lit "china-s")
  /\ (existsb (fun c => (0x2E7F <? c)%N) [54620; 44544]%N = false ->
      existsb is_hangul [54620; 44544]%N = false ->
      In (fontname (_map_to_fitz_font (system_with []) (lit "Batang") [54620; 44544]%N))
        [lit "cour"; lit "tiro"; lit "helv"]).
Proof.
  apply (font_without_files_is_built_in (system_with []) (lit "Batang") [54620; 44544]%N).
  intros path. reflexivity.
Defined.

(** X26.  [_resolve_freetext_font] never gives an empty font name, and it is
    idempotent: resolving its own result for the same text gives that result
    again. *)
Theorem resolved_font_is_stable :
  forall text font_name : str,
    fontname (_resolve_freetext_font text font_name) <> []
    /\ _resolve_freetext_font text (fontname (_resolve_freetext_font text font_name))
       = _resolve_freetext_font text font_name.
Proof.
  intros text font_name. unfold _resolve_freetext_font.
  destruct (existsb (fun c => (0x2E7F <? c)%N) text); cbn [negb fontname].
  - split; [discriminate | reflexivity].
  - destruct (str_truthy font_name) eqn:Et.
    + destruct (str_eqb (TextWrap.lower font_name) (lit "helvetica")
                || str_eqb (TextWrap.lower font_name) (lit "arial")) eqn:E.
      * split; [discriminate | reflexivity].
      * rewrite Et, E. split; [destruct font_name; [discriminate Et | discriminate] |].
        reflexivity.
    + split; [discriminate | reflexivity].
Qed.

End FontFacts.

(** ** Structural changes of the document *)

Section DocChangedFacts.

Import Py Fitz Viewer MainWindow.

Lemma _recalculate_layout_sel (w : Widget) : sel (_recalculate_layout w) = sel w.
Proof.
  unfold _recalculate_layout.
  destruct (negb (doc_truthy (_doc (docs w)))); [reflexivity |].
  destruct (layout_loop _ _ _). reflexivity.
Qed.


(** The one call of [invalidate_all_pages] in the program: [_on_doc_changed],
    when there is a tab with a document, ends with [set_document] followed by
    [invalidate_all_pages]. *)
Lemma _on_doc_changed_calls (t : PDFTab) (w : Widget) :
  doc_truthy (document t) = true ->
  exists before : Widget,
    _on_doc_changed (Some t) w
    = invalidate_all_pages (set_document (document t) (file_path t) true before).
Proof.
  intros H. unfold _on_doc_changed. rewrite H. cbn [negb].
  eexists. reflexivity.
Qed.


(** A widget that holds a low-res preview of page 0 when the document
    changes: after the call both tiers are empty. *)
Example invalidate_all_pages_after_preview :
  let w := _on_render_finished (mkImage false 7 0.4) false 0 (make_key 0 1.0) init in
  OrderedDict.keys (_low_res_cache (rs w)) = [make_key 0 1.0]
  /\ _low_res_cache (rs (_on_doc_changed (Some (mkPDFTab (Some two_pages) [98%N])) w)) = []
  /\ _render_cache (rs (_on_doc_changed (Some (mkPDFTab (Some two_pages) [98%N])) w)) = [].
Proof. vm_compute. repeat split; reflexivity. Qed.

(** X27.  After [_on_doc_changed], the main window's path for a structural
    change of the document, the page view holds nothing of the old pages:
    both cache tiers are empty, the overlay has no stamp, and the widget shows
    the tab's document under the tab's file path, with its page rectangles
    read anew. *)
Theorem doc_changed_clears_both_tiers :
  forall (t : PDFTab) (w : Widget) (d : Document),
    document t = Some d -> d <> [] ->
    _render_cache (rs (_on_doc_changed (Some t) w)) = []
    /\ _low_res_cache (rs (_on_doc_changed (Some t) w)) = []
    /\ _overlay_stamps (sel (_on_doc_changed (Some t) w)) = []
    /\ loaded d (_on_doc_changed (Some t) w)
    /\ _file_path (docs (_on_doc_changed (Some t) w)) = file_path t
    /\ length (_page_offsets (layout (_on_doc_changed (Some t) w))) = length d.
Proof.
  intros t w d Hd Hne. unfold _on_doc_changed. rewrite Hd.
  destruct d as [| p d']; [congruence |]. cbn [doc_truthy negb].
  set (w0 := _snapshot_doc_bytes _).
  unfold invalidate_all_pages, set_document.
  cbn [doc_truthy rs with_rs _render_cache _low_res_cache sel layout docs].
  rewrite !_recalculate_layout_rs, !_recalculate_layout_docs.
  cbn [rs with_rs with_sel with_docs _low_res_cache sel docs _file_path _pending_renders].
  set (w1 := with_sel _ _).
  assert (Hl : loaded (p :: d') w1) by (split; reflexivity).
  split; [reflexivity |]. split; [reflexivity |]. split; [| split; [| split]].
  - rewrite _recalculate_layout_sel. reflexivity.
  - unfold loaded. cbn [docs with_rs]. rewrite _recalculate_layout_docs. exact Hl.
  - reflexivity.
  - rewrite (_recalculate_layout_offsets w1 (p :: d') Hl), layout_loop_length, length_map.
    reflexivity.
Qed.

Lemma doc_changed_clears_both_tiers_witness :
  _render_cache (rs (_on_doc_changed (Some (mkPDFTab (Some two_pages) [98%N]))
                       (delivered (mkImage false 3 0.4) false 0 two_pages_widget))) = []
  /\ _low_res_cache (rs (_on_doc_changed (Some (mkPDFTab (Some two_pages) [98%N]))
                          (delivered (mkImage false 3 0.4) false 0 two_pages_widget))) = []
  /\ _overlay_stamps (sel (_on_doc_changed (Some (mkPDFTab (Some two_pages) [98%N]))
                            (delivered (mkImage false 3 0.4) false 0 two_pages_widget))) = []
  /\ loaded two_pages (_on_doc_changed (Some (mkPDFTab (Some two_pages) [98%N]))
                         (delivered (mkImage false 3 0.4) false 0 two_pages_widget))
  /\ _file_path (docs (_on_doc_changed (Some (mkPDFTab (Some two_pages) [98%N]))
                         (delivered (mkImage false 3 0.4) false 0 two_pages_widget)))
     = file_path (mkPDFTab (Some two_pages) [98%N])
  /\ length (_page_offsets
               (layout (_on_doc_changed (Some (mkPDFTab (Some two_pages) [98%N]))
                          (delivered (mkImage false 3 0.4) false 0 two_pages_widget))))
     = length two_pages.
Proof.
  apply (doc_changed_clears_both_tiers (mkPDFTab (Some two_pages) [98%N])
           (delivered (mkImage false 3 0.4) false 0 two_pages_widget) two_pages).
  - reflexivity.
  - discriminate.
Defined.

End DocChangedFacts.

(** ** Leaving the native text edit *)

Section TextEditExitFacts.

Import Py Fitz Viewer TextEditExit.

(** X28.  Cancelling an edit is committing an edit that changes nothing: when
    the editor holds the text of the line, or only white space,
    [_commit_text_edit] leaves the widget exactly as [_cancel_text_edit]
    does, with the document and both caches untouched. *)
Theorem cancel_is_commit_of_an_unchanged_line :
  forall (env : Env) (w : Widget) (editor : QLineEdit) (li : LineInfo),
    _text_edit_widget (te w) = Some editor ->
    _text_edit_line_info (te w) = Some li ->
    editor_text editor = line_text li \/ strip (editor_text editor) = [] ->
    _commit_text_edit env w = _cancel_text_edit w
    /\ docs (_commit_text_edit env w) = docs w
    /\ rs (_commit_text_edit env w) = rs w.
Proof.
  intros env w editor li Hw Hl Hsame.
  assert (G : str_eqb (editor_text editor) (line_text li)
              || negb (str_truthy (strip (editor_text editor))) = true).
  { destruct Hsame as [E | E].
    - rewrite E. unfold str_eqb.
      destruct (list_eq_dec N.eq_dec (line_text li) (line_text li)); [reflexivity | congruence].
    - rewrite E. cbn. apply orb_true_r. }
  unfold _commit_text_edit, _cancel_text_edit. rewrite Hw, Hl, G.
  repeat split.
Qed.

Lemma cancel_is_commit_of_an_unchanged_line_witness :
  _commit_text_edit plain_env
    (with_te (mkTextEdit [] None (-1) (Some (mkLineEdit [32; 32]%N)) (Some line_hi) 0)
       editing_scene)
  = _cancel_text_edit
      (with_te (mkTextEdit [] None (-1) (Some (mkLineEdit [32; 32]%N)) (Some line_hi) 0)
         editing_scene)
  /\ docs (_commit_text_edit plain_env
             (with_te (mkTextEdit [] None (-1) (Some (mkLineEdit [32; 32]%N)) (Some line_hi) 0)
                editing_scene))
     = docs (with_te (mkTextEdit [] None (-1) (Some (mkLineEdit [32; 32]%N)) (Some line_hi) 0)
               editing_scene)
  /\ rs (_commit_text_edit plain_env
           (with_te (mkTextEdit [] None (-1) (Some (mkLineEdit [32; 32]%N)) (Some line_hi) 0)
              editing_scene))
     = rs (with_te (mkTextEdit [] None (-1) (Some (mkLineEdit [32; 32]%N)) (Some line_hi) 0)
             editing_scene).
Proof.
  apply (cancel_is_commit_of_an_unchanged_line plain_env
           (with_te (mkTextEdit [] None (-1) (Some (mkLineEdit [32; 32]%N)) (Some line_hi) 0)
              editing_scene)
           (mkLineEdit [32; 32]%N) line_hi).
  - reflexivity.
  - reflexivity.
  - right. reflexivity.
Defined.

(** X29.  The two ways out of the native text edit agree: in
    [MODE_TEXT_EDIT], [exit_text_edit_mode] leaves the widget exactly as
    [_exit_current_mode] does, a pending edit being committed by both. *)
Theorem exit_text_edit_mode_is_exit_current_mode :
  forall (env : Env) (w : Widget),
    mode (ms w) = MODE_TEXT_EDIT ->
    exit_text_edit_mode env w = _exit_current_mode env w.
Proof.
  intros env w Hm. unfold exit_text_edit_mode, _exit_current_mode. rewrite Hm.
  destruct (opt_truthy (_text_edit_widget (te w))); reflexivity.
Qed.

Lemma exit_text_edit_mode_is_exit_current_mode_witness :
  exit_text_edit_mode plain_env editing_scene = _exit_current_mode plain_env editing_scene.
Proof.
  apply (exit_text_edit_mode_is_exit_current_mode plain_env editing_scene).
  reflexivity.
Defined.

End TextEditExitFacts.

(** ** Placing and deleting a stamp *)

Section StampPlaceFacts.

Import Py Fitz Viewer Stamps.

Lemma stamp_eqb_refl (s : Stamp) : stamp_eqb s s = true.
Proof.
  unfold stamp_eqb. rewrite !Z.eqb_refl, !Qeq_bool_refl, Bool.eqb_reflx. cbn [andb].
  unfold str_eqb. destruct (list_eq_dec N.eq_dec (stamp_path s) (stamp_path s));
    [reflexivity | congruence].
Qed.

Lemma stamp_eqb_id (a b : Stamp) : stamp_id a <> stamp_id b -> stamp_eqb a b = false.
Proof.
  intros H. unfold stamp_eqb. apply Z.eqb_neq in H. rewrite H. reflexivity.
Qed.

Lemma list_remove_last (s : Stamp) (l : list Stamp) :
  Forall (fun x => stamp_id x <> stamp_id s) l ->
  existsb (stamp_eqb s) (l ++ [s]) = true /\ list_remove s (l ++ [s]) = l.
Proof.
  induction 1 as [| x l Hx Hl IH]; cbn.
  - rewrite stamp_eqb_refl. split; reflexivity.
  - rewrite (stamp_eqb_id s x) by congruence. destruct IH as [I1 I2].
    cbn. split; [exact I1 | rewrite I2; reflexivity].
Qed.

Lemma _snapshot_doc_bytes_sel (w : Widget) : sel (_snapshot_doc_bytes w) = sel w.
Proof. unfold _snapshot_doc_bytes. destruct (doc_truthy _); reflexivity. Qed.

(** What [place_stamp_on_page] does to the overlay: nothing, or one stamp
    more, the last one, with the identifier given. *)
Lemma place_stamp_on_page_overlay (image : option (Z * Z)) (id page_index : Z)
    (image_path : str) (screen_pos : option Point) (w w1 : Widget) :
  place_stamp_on_page image id page_index image_path screen_pos w = Some w1 ->
  _overlay_stamps (sel w1) = _overlay_stamps (sel w)
  \/ exists r, _overlay_stamps (sel w1)
               = _overlay_stamps (sel w) ++ [mkStamp id page_index r image_path false].
Proof.
  unfold place_stamp_on_page. intros H.
  destruct (_doc (docs w)) as [[| p d] |]; try (inversion H; left; reflexivity).
  destruct (page_count (p :: d) <=? page_index)%Z; [inversion H; left; reflexivity |].
  destruct (nth_error (p :: d) (page_slot (p :: d) page_index)) as [page |];
    [| inversion H; left; reflexivity].
  destruct (match screen_pos with
            | Some pos => _
            | None => _
            end) as [[cx cy] |]; [| discriminate].
  destruct (Qeq_bool _ 0); [discriminate |].
  inversion H. right. rewrite _snapshot_doc_bytes_sel. eexists. reflexivity.
Qed.

(** X30.  Deleting the stamp just placed restores the overlay: when no stamp
    of the overlay has the new identifier, [_delete_stamp] of the stamp that
    [place_stamp_on_page] appended leaves the stamps that were there before,
    in their order. *)
Theorem deleting_the_placed_stamp_restores_the_overlay :
  forall (image : option (Z * Z)) (id page_index : Z) (image_path : str)
         (screen_pos : option Point) (w w1 : Widget) (placed : Stamp),
    Forall (fun s => stamp_id s <> id) (_overlay_stamps (sel w)) ->
    place_stamp_on_page image id page_index image_path screen_pos w = Some w1 ->
    In placed (placed_stamps id w1) ->
    _overlay_stamps (sel (_delete_stamp placed w1)) = _overlay_stamps (sel w).
Proof.
  intros image id page_index image_path screen_pos w w1 placed Hfresh Hplace Hin.
  unfold placed_stamps in Hin. apply filter_In in Hin. destruct Hin as [Hin Hid].
  apply Z.eqb_eq in Hid.
  destruct (place_stamp_on_page_overlay _ _ _ _ _ _ _ Hplace) as [E | (r & E)].
  - rewrite E in Hin. rewrite Forall_forall in Hfresh. exfalso.
    exact (Hfresh placed Hin Hid).
  - rewrite E in Hin. apply in_app_or in Hin. destruct Hin as [Hin | [<- | []]].
    + rewrite Forall_forall in Hfresh. exfalso. exact (Hfresh placed Hin Hid).
    + unfold _delete_stamp. rewrite _snapshot_doc_bytes_sel.
      cbn [sel with_sel _overlay_stamps]. rewrite E.
      destruct (list_remove_last (mkStamp id page_index r image_path false)
                  (_overlay_stamps (sel w)) Hfresh) as [H1 H2].
      rewrite H1, H2. reflexivity.
Qed.

Lemma deleting_the_placed_stamp_restores_the_overlay_witness :
  _overlay_stamps (sel (_delete_stamp (placed_on_page_1 9) (with_placed_stamp 9)))
  = _overlay_stamps (sel stamped_two_pages).
Proof.
  apply (deleting_the_placed_stamp_restores_the_overlay (Some (200, 100)%Z) 9 1 [115%N] None
           stamped_two_pages (with_placed_stamp 9) (placed_on_page_1 9)).
  - repeat constructor; discriminate.
  - reflexivity.
  - left. reflexivity.
Defined.

(** The stamp placed on the second page, 600 x 400, for an image of 200 x 100:
    90 wide and 45 high, around the centre of the page. *)
Example placed_stamp_rect :
  rect_eq (stamp_rect (placed_on_page_1 9)) (mkRect 255 177.5 345 222.5).
Proof. repeat split; vm_compute; reflexivity. Qed.

End StampPlaceFacts.
